(** * Session authentication and command dispatch: a shallow embedding

    The development follows the Python sources of the coordinator:

    - [common/config.py], [common/auth.py], [common/protocol.py]
    - [server/token_manager.py] (the credential store, an SQLite table)
    - [server/client_handler.py] (session handler, registry, dispatcher)
    - [server/cli.py] (operator commands that resolve ordinals)
    - [client/main.py], [client/client.py] (server address, command loop)

    Python values are modelled as follows.  A [str] is the list of its
    Unicode code points, [bytes] is a list of [Byte.byte], an [int] is a
    [Z].  A call that may raise is a value of [py A]: either [Ret a] or
    [Raise e].  Sockets are objects shared by reference, so they live in
    a heap indexed by a descriptor.  The clock ([CURRENT_TIMESTAMP]) and
    the entropy read by [secrets.token_hex] are explicit inputs. *)

From Stdlib Require Import ZArith List Bool Lia String Ascii.
From Stdlib Require Import Strings.Byte DecimalString.
Import ListNotations.
Open Scope Z_scope.

(** ** Python values *)

Module Py.

(** A [str]: the sequence of its code points. *)
Definition str := list Z.

(** [bytes]. *)
Definition bytes := list byte.

(** An ASCII literal of the source, as a [str]. *)
Fixpoint lit (s : string) : str :=
  match s with
  | EmptyString => []
  | String c r => Z.of_nat (nat_of_ascii c) :: lit r
  end.

Fixpoint str_eqb (a b : str) : bool :=
  match a, b with
  | [], [] => true
  | x :: a', y :: b' => (x =? y) && str_eqb a' b'
  | _, _ => false
  end.

(** The exceptions that the modelled code can meet. *)
Inductive exn : Type :=
| SocketTimeout                (* socket.timeout *)
| OSError (msg : str)          (* transport failure, closed descriptor *)
| StructError                  (* struct.error, from struct.pack *)
| UnicodeEncodeError           (* str.encode on a lone surrogate *)
| ValueError                   (* int() on a non-numeric string *)
| TypeError                    (* compare_digest on a non-ASCII str *)
| IndexError                   (* list index out of range *)
| Exception (msg : str).       (* raise Exception(...) *)

(** [str(e)], as far as the program prints it. *)
Definition exn_text (e : exn) : list Z :=
  match e with
  | OSError msg | Exception msg => msg
  | IndexError => lit "list index out of range"
  | _ => []
  end.

Inductive py (A : Type) : Type :=
| Ret (a : A)
| Raise (e : exn).
Arguments Ret {A} a.
Arguments Raise {A} e.

Definition bind {A B} (m : py A) (k : A -> py B) : py B :=
  match m with
  | Ret a => k a
  | Raise e => Raise e
  end.

(** Truthiness of a [str] and of an optional [str] ([None] or empty is
    false). *)
Definition truthy (s : str) : bool :=
  match s with [] => false | _ => true end.

Definition truthy_opt (o : option str) : bool :=
  match o with None => false | Some s => truthy s end.

(** [s.startswith(p)]. *)
Fixpoint startswith (s p : str) : bool :=
  match p, s with
  | [], _ => true
  | x :: p', y :: s' => (x =? y) && startswith s' p'
  | _ :: _, [] => false
  end.

(** [s.split(sep, maxsplit)] for a non-empty separator.  [k] is the
    number of cuts still allowed, [skip] the number of characters of a
    separator that was just matched and is still to be dropped, [cur]
    the current field in reverse. *)
Fixpoint split_go (sep s cur : str) (k skip : nat) : list str :=
  match s with
  | [] => [rev cur]
  | c :: s' =>
      match skip with
      | S n => split_go sep s' cur k n
      | O =>
          match k with
          | S k' =>
              if startswith s sep
              then rev cur :: split_go sep s' [] k' (List.length sep - 1)
              else split_go sep s' (c :: cur) k 0
          | O => split_go sep s' (c :: cur) k 0
          end
      end
  end.

(** [s.split(sep, maxsplit)]; [None] stands for the default, no limit. *)
Definition split (s sep : str) (maxsplit : option nat) : list str :=
  split_go sep s []
    (match maxsplit with Some k => k | None => List.length s end) 0.

(** [b[:k]] and [b[k:]] on sequences, for [0 <= k]. *)
Fixpoint take {A} (k : Z) (l : list A) : list A :=
  match l with
  | [] => []
  | x :: r => if k <=? 0 then [] else x :: take (k - 1) r
  end.

Fixpoint drop {A} (k : Z) (l : list A) : list A :=
  match l with
  | [] => []
  | x :: r => if k <=? 0 then l else drop (k - 1) r
  end.

Definition len {A} (l : list A) : Z := Z.of_nat (List.length l).

End Py.
Import Py.

(** ** [common/config.py] *)

Definition MAX_MESSAGE_SIZE : Z := 10 * 1024 * 1024.
Definition MSG_REGISTER : str := lit "REGISTER".
Definition MSG_CMD : str := lit "CMD".
Definition MSG_RESULT : str := lit "RESULT".
Definition MSG_TOKEN_REQUEST : str := lit "TOKEN_REQUEST".
Definition MSG_TOKEN_STATUS : str := lit "TOKEN_STATUS".
Definition TOKEN_PENDING : str := lit "pending".
Definition TOKEN_APPROVED : str := lit "approved".
Definition TOKEN_REVOKED : str := lit "revoked".
Definition TOKEN_DENIED : str := lit "denied".
Definition TOKEN_INVALID : str := lit "invalid".

(** ** Bytes, [struct] and UTF-8 *)

Module Codec.

Definition Z_of_byte (b : byte) : Z := Z.of_N (Byte.to_N b).

Definition byte_of_Z (z : Z) : byte :=
  match Byte.of_N (Z.to_N (z mod 256)) with
  | Some b => b
  | None => x00
  end.

(** [struct.pack('>I', n)]: four bytes, most significant first;
    [struct.error] when [n] does not fit an unsigned 32-bit integer. *)
Definition struct_pack_I (n : Z) : py bytes :=
  if (0 <=? n) && (n <? 2 ^ 32)
  then Ret [ byte_of_Z (Z.shiftr n 24); byte_of_Z (Z.shiftr n 16);
             byte_of_Z (Z.shiftr n 8); byte_of_Z n ]
  else Raise StructError.

(** [struct.unpack('>I', b)[0]]. *)
Definition struct_unpack_I (b : bytes) : py Z :=
  match b with
  | [b0; b1; b2; b3] =>
      Ret (Z.lor (Z.shiftl (Z_of_byte b0) 24)
          (Z.lor (Z.shiftl (Z_of_byte b1) 16)
          (Z.lor (Z.shiftl (Z_of_byte b2) 8) (Z_of_byte b3))))
  | _ => Raise StructError
  end.

Definition in_range (lo hi x : Z) : bool := (lo <=? x) && (x <=? hi).

(** One code point to UTF-8.  Surrogates cannot be encoded; a value
    outside the code space is not a Python character at all and is
    rejected the same way. *)
Definition encode_cp (c : Z) : py bytes :=
  if c <? 0 then Raise UnicodeEncodeError
  else if c <? 128 then Ret [byte_of_Z c]
  else if c <? 2048 then
    Ret [byte_of_Z (192 + c / 64); byte_of_Z (128 + c mod 64)]
  else if c <? 65536 then
    if in_range 55296 57343 c then Raise UnicodeEncodeError
    else Ret [ byte_of_Z (224 + c / 4096);
               byte_of_Z (128 + (c / 64) mod 64);
               byte_of_Z (128 + c mod 64) ]
  else if c <? 1114112 then
    Ret [ byte_of_Z (240 + c / 262144);
          byte_of_Z (128 + (c / 4096) mod 64);
          byte_of_Z (128 + (c / 64) mod 64);
          byte_of_Z (128 + c mod 64) ]
  else Raise UnicodeEncodeError.

(** [s.encode('utf-8')]. *)
Fixpoint utf8_encode (s : str) : py bytes :=
  match s with
  | [] => Ret []
  | c :: r =>
      bind (encode_cp c) (fun b =>
      bind (utf8_encode r) (fun br => Ret (b ++ br)))
  end.

(** U+FFFD, the replacement character. *)
Definition REPLACEMENT : Z := 65533.

(** The bounds of the second byte after lead byte [x0] (the well-formed
    sequences of the Unicode standard: no overlong forms, no surrogates,
    nothing above U+10FFFF). *)
Definition second_lo (x0 : Z) : Z :=
  if x0 =? 224 then 160 else if x0 =? 240 then 144 else 128.
Definition second_hi (x0 : Z) : Z :=
  if x0 =? 237 then 159 else if x0 =? 244 then 143 else 191.

Definition is_cont (b : byte) : bool := in_range 128 191 (Z_of_byte b).
Definition low6 (b : byte) : Z := Z_of_byte b - 128.

(** [b.decode('utf-8', errors='replace')].  An ill-formed sequence is
    replaced by one U+FFFD for its longest well-formed prefix, and
    decoding resumes at the byte that broke the sequence. *)
Fixpoint utf8_decode (bs : bytes) : str :=
  match bs with
  | [] => []
  | b0 :: r0 =>
      let x0 := Z_of_byte b0 in
      if x0 <? 128 then x0 :: utf8_decode r0
      else if in_range 194 223 x0 then
        match r0 with
        | [] => [REPLACEMENT]
        | b1 :: r1 =>
            if is_cont b1
            then ((x0 - 192) * 64 + low6 b1) :: utf8_decode r1
            else REPLACEMENT :: utf8_decode r0
        end
      else if in_range 224 239 x0 then
        match r0 with
        | [] => [REPLACEMENT]
        | b1 :: r1 =>
            if in_range (second_lo x0) (second_hi x0) (Z_of_byte b1) then
              match r1 with
              | [] => [REPLACEMENT]
              | b2 :: r2 =>
                  if is_cont b2
                  then ((x0 - 224) * 4096 + low6 b1 * 64 + low6 b2)
                         :: utf8_decode r2
                  else REPLACEMENT :: utf8_decode r1
              end
            else REPLACEMENT :: utf8_decode r0
        end
      else if in_range 240 244 x0 then
        match r0 with
        | [] => [REPLACEMENT]
        | b1 :: r1 =>
            if in_range (second_lo x0) (second_hi x0) (Z_of_byte b1) then
              match r1 with
              | [] => [REPLACEMENT]
              | b2 :: r2 =>
                  if is_cont b2 then
                    match r2 with
                    | [] => [REPLACEMENT]
                    | b3 :: r3 =>
                        if is_cont b3
                        then ((x0 - 240) * 262144 + low6 b1 * 4096
                              + low6 b2 * 64 + low6 b3) :: utf8_decode r3
                        else REPLACEMENT :: utf8_decode r2
                    end
                  else REPLACEMENT :: utf8_decode r1
              end
            else REPLACEMENT :: utf8_decode r0
        end
      else REPLACEMENT :: utf8_decode r0
  end.

(** [str(n)] for an [int], as used by f-strings. *)
Definition repr_int (n : Z) : str :=
  lit (DecimalString.NilZero.string_of_int (Z.to_int n)).

End Codec.
Import Codec.

(** ** Sockets *)

Module Sock.

(** What the next [recv] call meets: bytes that have arrived, a timeout,
    or a transport error.  An exhausted list is the end of the stream
    (the peer closed): [recv] then returns [b'']. *)
Inductive recv_event : Type :=
| Seg (data : bytes)
| Stall
| Fault (msg : str).

Record socket : Type := mkSocket {
  inbound : list recv_event;      (* what recv will meet, in order *)
  outbound : bytes;               (* everything sendall has written *)
  send_fault : option str;        (* sendall raises OSError when set *)
  closed : bool                   (* close() was called on this object *)
}.

Definition bad_fd : str := lit "Bad file descriptor".

(** [sock.recv(k)], with [0 < k]. *)
Definition recv (s : socket) (k : Z) : py bytes * socket :=
  if closed s then (Raise (OSError bad_fd), s)
  else
    match inbound s with
    | [] => (Ret [], s)
    | Seg data :: rest =>
        let rest' := match drop k data with
                     | [] => rest
                     | more => Seg more :: rest
                     end in
        (Ret (take k data),
         mkSocket rest' (outbound s) (send_fault s) (closed s))
    | Stall :: rest =>
        (Raise SocketTimeout,
         mkSocket rest (outbound s) (send_fault s) (closed s))
    | Fault msg :: rest =>
        (Raise (OSError msg),
         mkSocket rest (outbound s) (send_fault s) (closed s))
    end.

(** [sock.sendall(data)].  What a failing call managed to write before
    it failed is not recorded. *)
Definition sendall (s : socket) (data : bytes) : py unit * socket :=
  if closed s then (Raise (OSError bad_fd), s)
  else
    match send_fault s with
    | Some msg => (Raise (OSError msg), s)
    | None =>
        (Ret tt, mkSocket (inbound s) (outbound s ++ data)
                          (send_fault s) (closed s))
    end.

(** [sock.close()]. *)
Definition close (s : socket) : socket :=
  mkSocket (inbound s) (outbound s) (send_fault s) true.

End Sock.
Import Sock.

(** ** [common/protocol.py] *)

(** The argument of [send_message]: a [str] or [bytes]. *)
Inductive message : Type :=
| MStr (s : str)
| MBytes (b : bytes).

(** [if isinstance(message, str): message = message.encode('utf-8')]. *)
Definition payload_of (m : message) : py bytes :=
  match m with
  | MStr s => utf8_encode s
  | MBytes b => Ret b
  end.

(** The [try] block of [send_message]. *)
Definition send_message_try (sock : socket) (m : message)
  : py unit * socket :=
  match payload_of m with
  | Raise e => (Raise e, sock)
  | Ret payload =>
      match struct_pack_I (len payload) with
      | Raise e => (Raise e, sock)
      | Ret length => sendall sock (length ++ payload)
      end
  end.

(** [send_message(sock, message)]: [except Exception] turns every
    failure into [False] (after printing a diagnostic). *)
Definition send_message (sock : socket) (m : message) : bool * socket :=
  match send_message_try sock m with
  | (Ret _, sock') => (true, sock')
  | (Raise _, sock') => (false, sock')
  end.

(** The loop of [recv_exact]; [None] only when [fuel] runs out. *)
Fixpoint recv_exact_loop (fuel : nat) (sock : socket) (n : Z) (data : bytes)
  : option (py (option bytes) * socket) :=
  if len data <? n then
    match fuel with
    | O => None
    | S fuel' =>
        match recv sock (n - len data) with
        | (Raise e, sock') => Some (Raise e, sock')
        | (Ret [], sock') => Some (Ret None, sock')
        | (Ret chunk, sock') => recv_exact_loop fuel' sock' n (data ++ chunk)
        end
    end
  else Some (Ret (Some data), sock).

(** [recv_exact(sock, n)].  Every iteration but the last uses up one
    element of [inbound], so one more than its length is enough fuel
    (lemma [recv_exact_loop_fuel]). *)
Definition recv_exact (sock : socket) (n : Z)
  : py (option bytes) * socket :=
  match recv_exact_loop (S (List.length (inbound sock))) sock n [] with
  | Some r => r
  | None => (Ret None, sock)
  end.

Definition oversize_text (message_length : Z) : str :=
  lit "Message size " ++ repr_int message_length
    ++ lit " exceeds limit " ++ repr_int MAX_MESSAGE_SIZE.

(** The [try] block of [recv_message]. *)
Definition recv_message_try (sock : socket) : py (option str) * socket :=
  match recv_exact sock 4 with
  | (Raise e, sock1) => (Raise e, sock1)
  | (Ret None, sock1) => (Ret None, sock1)
  | (Ret (Some []), sock1) => (Ret None, sock1)
  | (Ret (Some length_data), sock1) =>
      match struct_unpack_I length_data with
      | Raise e => (Raise e, sock1)
      | Ret message_length =>
          if message_length >? MAX_MESSAGE_SIZE
          then (Raise (Exception (oversize_text message_length)), sock1)
          else
            match recv_exact sock1 message_length with
            | (Raise e, sock2) => (Raise e, sock2)
            | (Ret None, sock2) => (Ret None, sock2)
            | (Ret (Some []), sock2) => (Ret None, sock2)
            | (Ret (Some message_data), sock2) =>
                (Ret (Some (utf8_decode message_data)), sock2)
            end
      end
  end.

(** [recv_message(sock)]: [socket.timeout] is re-raised, any other
    exception is printed and becomes [None]. *)
Definition recv_message (sock : socket) : py (option str) * socket :=
  match recv_message_try sock with
  | (Raise SocketTimeout, sock') => (Raise SocketTimeout, sock')
  | (Raise _, sock') => (Ret None, sock')
  | r => r
  end.

(** ** [common/auth.py] *)

Definition hex_digit (d : Z) : Z := if d <? 10 then 48 + d else 87 + d.

(** [binascii.hexlify(b).decode('ascii')]: two lower-case digits a byte. *)
Fixpoint hexlify (b : bytes) : str :=
  match b with
  | [] => []
  | x :: r =>
      hex_digit (Z_of_byte x / 16) :: hex_digit (Z_of_byte x mod 16)
        :: hexlify r
  end.

(** [generate_token()], that is [secrets.token_hex(32)].  [rnd] is the
    32 bytes that the system entropy source hands out for this call. *)
Definition generate_token (rnd : bytes) : str := hexlify rnd.

(** ** [server/token_manager.py] *)

Module token_manager.

(** A row of table [tokens].  Columns [id] and [notes] are never read
    or written by the program and are left out.  Timestamps are the
    value of the clock, [None] is SQL NULL. *)
Record row : Type := mkRow {
  hostname : str;
  token : str;
  status : str;
  ip_address : option str;
  requested_at : Z;
  approved_at : option Z;
  revoked_at : option Z
}.

Definition table := list row.

(** [SELECT ... WHERE hostname = ?] followed by [fetchone()]. *)
Fixpoint select_hostname (db : table) (h : str) : option row :=
  match db with
  | [] => None
  | r :: db' => if str_eqb (hostname r) h then Some r
                else select_hostname db' h
  end.

(** [UPDATE tokens SET ... WHERE hostname = ?]; [f] is the SET clause. *)
Definition update_hostname (f : row -> row) (db : table) (h : str) : table :=
  map (fun r => if str_eqb (hostname r) h then f r else r) db.

(** [cursor.rowcount] after an UPDATE or DELETE on [hostname = ?]. *)
Definition rowcount (db : table) (h : str) : Z :=
  len (filter (fun r => str_eqb (hostname r) h) db).

(** [INSERT INTO tokens ...]; [None] is [sqlite3.IntegrityError], raised
    by the UNIQUE constraint on [hostname]. *)
Definition insert (db : table) (r : row) : option table :=
  match select_hostname db (hostname r) with
  | Some _ => None
  | None => Some (db ++ [r])
  end.

(** [request_token(hostname, ip_address)], at clock value [now], with
    [rnd] the entropy that [generate_token] would draw.
    Returns [(success, token, status)] and the new table. *)
Definition request_token (db : table) (h ip : str) (now : Z) (rnd : bytes)
  : (bool * option str * str) * table :=
  match select_hostname db h with
  | Some existing =>
      if str_eqb (status existing) (lit "approved")
      then ((true, Some (token existing), lit "approved"), db)
      else if str_eqb (status existing) (lit "pending")
      then ((true, Some (token existing), lit "pending"), db)
      else
        let new_token := generate_token rnd in
        ((true, Some new_token, lit "pending"),
         update_hostname
           (fun r => mkRow (hostname r) new_token (lit "pending") (Some ip)
                           now None None) db h)
  | None =>
      let token := generate_token rnd in
      match insert db (mkRow h token (lit "pending") (Some ip)
                             now None None) with
      | Some db' => ((true, Some token, lit "pending"), db')
      | None => ((false, None, lit "error"), db)
      end
  end.

(** [approve_token(hostname)]: [(success, token)]. *)
Definition approve_token (db : table) (h : str) (now : Z)
  : (bool * option str) * table :=
  match select_hostname db h with
  | None => ((false, None), db)
  | Some result =>
      if str_eqb (status result) (lit "approved")
      then ((true, Some (token result)), db)
      else
        ((true, Some (token result)),
         update_hostname
           (fun r => mkRow (hostname r) (token r) (lit "approved")
                           (ip_address r) (requested_at r) (Some now)
                           (revoked_at r)) db h)
  end.

(** [deny_token(hostname)]. *)
Definition deny_token (db : table) (h : str) : bool * table :=
  (0 <? rowcount db h,
   update_hostname
     (fun r => mkRow (hostname r) (token r) (lit "denied") (ip_address r)
                     (requested_at r) (approved_at r) (revoked_at r)) db h).

(** [revoke_token(hostname)]. *)
Definition revoke_token (db : table) (h : str) (now : Z) : bool * table :=
  (0 <? rowcount db h,
   update_hostname
     (fun r => mkRow (hostname r) (token r) (lit "revoked") (ip_address r)
                     (requested_at r) (approved_at r) (Some now)) db h).

(** [ORDER BY requested_at ASC]: a stable insertion sort (rows with
    equal timestamps stay in table order). *)
Fixpoint insert_by_time (r : row) (l : list row) : list row :=
  match l with
  | [] => [r]
  | x :: l' => if requested_at r <=? requested_at x then r :: l
               else x :: insert_by_time r l'
  end.

Definition order_by_requested_at (l : list row) : list row :=
  fold_right insert_by_time [] l.

(** [get_pending_requests()]: [(hostname, ip_address, requested_at)]. *)
Definition get_pending_requests (db : table)
  : list (str * option str * Z) :=
  map (fun r => (hostname r, ip_address r, requested_at r))
    (order_by_requested_at
       (filter (fun r => str_eqb (status r) (lit "pending")) db)).

(** [get_token_by_hostname(hostname)]: [(token, status)] or
    [(None, None)]. *)
Definition get_token_by_hostname (db : table) (h : str)
  : option str * option str :=
  match select_hostname db h with
  | Some r => (Some (token r), Some (status r))
  | None => (None, None)
  end.

(** [delete_token(hostname)]. *)
Definition delete_token (db : table) (h : str) : bool * table :=
  (0 <? rowcount db h,
   filter (fun r => negb (str_eqb (hostname r) h)) db).

End token_manager.

(** ** [server/client_handler.py]: registry and world *)

(** A value of the [clients] dictionary.  The [thread] and [lock]
    members are left out: the model runs one call at a time. *)
Record client_info : Type := mkClient {
  session_id : str;
  socket_fd : nat;                (* the socket object, by reference *)
  address : str * Z
}.

(** The [clients] dict.  A Python dict keeps insertion order, which
    [get_clients_list] exposes as client numbers. *)
Definition registry := list (str * client_info).

Module dict.

Fixpoint get (d : registry) (k : str) : option client_info :=
  match d with
  | [] => None
  | (k', v) :: d' => if str_eqb k' k then Some v else get d' k
  end.

Definition mem (d : registry) (k : str) : bool :=
  match get d k with Some _ => true | None => false end.

(** [d[k] = v]: an existing key keeps its place. *)
Fixpoint set (d : registry) (k : str) (v : client_info) : registry :=
  match d with
  | [] => [(k, v)]
  | (k', v') :: d' => if str_eqb k' k then (k', v) :: d'
                      else (k', v') :: set d' k v
  end.

(** [del d[k]]. *)
Definition del (d : registry) (k : str) : registry :=
  filter (fun e => negb (str_eqb (fst e) k)) d.

End dict.

Record notification : Type := mkNotification {
  n_hostname : str;
  n_ip : str;
  n_timestamp : Z
}.

(** The state shared by the handler threads and the operator console:
    the token table, the [clients] dict, the socket objects, and the
    notification module's queue and counter. *)
Record world : Type := mkWorld {
  tokens : token_manager.table;
  clients : registry;
  sockets : nat -> socket;
  notification_queue : list notification;
  pending_count : Z
}.

Definition upd (h : nat -> socket) (fd : nat) (s : socket) : nat -> socket :=
  fun x => if Nat.eqb x fd then s else h x.

Definition with_socket (w : world) (fd : nat) (s : socket) : world :=
  mkWorld (tokens w) (clients w) (upd (sockets w) fd s)
          (notification_queue w) (pending_count w).

Definition with_clients (w : world) (c : registry) : world :=
  mkWorld (tokens w) c (sockets w) (notification_queue w) (pending_count w).

Definition with_tokens (w : world) (t : token_manager.table) : world :=
  mkWorld t (clients w) (sockets w) (notification_queue w) (pending_count w).

(** [send_message(client_socket, text)] on a socket of the world. *)
Definition send_to (w : world) (fd : nat) (text : str) : bool * world :=
  let (ok, s') := send_message (sockets w fd) (MStr text) in
  (ok, with_socket w fd s').

(** [client_socket.close()]. *)
Definition close_fd (w : world) (fd : nat) : world :=
  with_socket w fd (close (sockets w fd)).

(** [f"{MSG_TOKEN_STATUS}:{status}"]. *)
Definition status_message (st : str) : str :=
  MSG_TOKEN_STATUS ++ lit ":" ++ st.

(** [str(x)] of an optional string inside an f-string. *)
Definition fmt_opt (o : option str) : str :=
  match o with Some s => s | None => lit "None" end.

Definition is_ascii (s : str) : bool := forallb (fun c => c <? 128) s.

(** [secrets.compare_digest(a, b)] on two [str]: both must be ASCII. *)
Definition compare_digest (a b : str) : py bool :=
  if is_ascii a && is_ascii b then Ret (str_eqb a b) else Raise TypeError.

(** [notifications.notify_token_request(hostname, ip_address)]. *)
Definition notify_token_request (w : world) (h ip : str) (now : Z) : world :=
  mkWorld (tokens w) (clients w) (sockets w)
          (notification_queue w ++ [mkNotification h ip now])
          (pending_count w + 1).

(** ** [server/client_handler.py]: the session handler *)

(** [handle_registration(client_socket, client_address, session_id,
    reg_message)].  The result is the hostname, [None], or the
    exception that escapes to [handle_client]. *)
Definition handle_registration (w : world) (client_socket : nat)
    (client_address : str * Z) (session_id reg_message : str)
  : py (option str) * world :=
  match split reg_message (lit ":") (Some 2%nat) with
  | [_; hostname; client_token] =>
      let reject (st : str) : py (option str) * world :=
        (Ret None,
         close_fd (snd (send_to w client_socket (status_message st)))
                  client_socket) in
      match token_manager.get_token_by_hostname (tokens w) hostname with
      | (Some stored_token, Some token_status) =>
          if truthy stored_token && truthy token_status then
            match compare_digest stored_token client_token with
            | Raise e => (Raise e, w)
            | Ret true =>
                if str_eqb token_status (lit "revoked")
                then reject TOKEN_REVOKED
                else if str_eqb token_status (lit "approved")
                then
                  (Ret (Some hostname),
                   with_clients w
                     (dict.set (clients w) hostname
                        (mkClient session_id client_socket client_address)))
                else reject TOKEN_INVALID
            | Ret false => reject TOKEN_INVALID
            end
          else reject TOKEN_INVALID
      | _ => reject TOKEN_INVALID
      end
  | _ => (Ret None, close_fd w client_socket)
  end.

(** The reply to a status check, and whether the polling loop goes on. *)
Definition status_reply (w : world) (client_socket : nat) (hostname : str)
  : bool * world :=
  let (token, status) :=
    token_manager.get_token_by_hostname (tokens w) hostname in
  match status with
  | Some st =>
      if str_eqb st TOKEN_APPROVED then
        (false, snd (send_to w client_socket
                       (status_message TOKEN_APPROVED ++ lit ":"
                          ++ fmt_opt token)))
      else if str_eqb st TOKEN_DENIED then
        (false, snd (send_to w client_socket (status_message TOKEN_DENIED)))
      else if str_eqb st TOKEN_PENDING then
        (true, snd (send_to w client_socket (status_message TOKEN_PENDING)))
      else
        (false, snd (send_to w client_socket (status_message TOKEN_INVALID)))
  | None =>
      (false, snd (send_to w client_socket (status_message TOKEN_INVALID)))
  end.

Definition is_status_check (parts : list str) : bool :=
  match parts with
  | _ :: _ :: p2 :: _ => str_eqb p2 (lit "status_check")
  | _ => false
  end.

(** [handle_token_request], up to its polling loop.  [Some hostname]:
    control has reached the loop; [None]: the function has returned. *)
Definition handle_token_request (w : world) (client_socket : nat)
    (client_address : str * Z) (request_message : str)
    (now : Z) (rnd : bytes) : option str * world :=
  let parts := split request_message (lit ":") (Some 2%nat) in
  match parts with
  | _ :: hostname :: rest =>
      let ip_address :=
        match rest with [] => fst client_address | p2 :: _ => p2 end in
      if is_status_check parts
      then (None, snd (status_reply w client_socket hostname))
      else
        match token_manager.request_token (tokens w) hostname ip_address
                now rnd with
        | ((false, _, _), db) =>
            (None,
             close_fd (snd (send_to (with_tokens w db) client_socket
                              (status_message TOKEN_INVALID)))
                      client_socket)
        | ((true, token, status), db) =>
            let w1 := with_tokens w db in
            if str_eqb status TOKEN_APPROVED then
              (Some hostname,
               snd (send_to w1 client_socket
                      (status_message TOKEN_APPROVED ++ lit ":"
                         ++ fmt_opt token)))
            else if str_eqb status TOKEN_PENDING then
              (Some hostname,
               snd (send_to (notify_token_request w1 hostname ip_address now)
                      client_socket (status_message TOKEN_PENDING)))
            else (Some hostname, w1)
        end
  | _ => (None, close_fd w client_socket)
  end.

(** One turn of the polling loop of [handle_token_request]; [false]
    when the loop is left ([break], or an exception caught around it). *)
Definition poll_once (w : world) (client_socket : nat) (hostname : str)
  : bool * world :=
  match recv_message (sockets w client_socket) with
  | (Raise _, s') => (false, with_socket w client_socket s')
  | (Ret message, s') =>
      let w1 := with_socket w client_socket s' in
      match message with
      | None | Some [] => (false, w1)
      | Some m =>
          if startswith m MSG_TOKEN_REQUEST then
            if is_status_check (split m (lit ":") (Some 2%nat))
            then status_reply w1 client_socket hostname
            else (true, w1)
          else (false, w1)
      end
  end.

(** The [finally] block of [handle_client]; [hostname] is the local
    variable of that name. *)
Definition handle_client_finally (w : world) (client_socket : nat)
    (hostname : option str) : world :=
  let w1 :=
    match hostname with
    | Some h =>
        if truthy h && dict.mem (clients w) h
        then with_clients w (dict.del (clients w) h)
        else w
    | None => w
    end in
  close_fd w1 client_socket.

(** Where a handler thread stands between two steps. *)
Inductive thread : Type :=
| Polling (client_socket : nat) (hostname : str)
    (* in the polling loop of handle_token_request *)
| Idle (client_socket : nat) (hostname : str)
    (* in [while True: time.sleep(60)] *)
| Exited.

(** [handle_client(client_socket, client_address)], run until it
    reaches one of its two loops or returns.  [session_id] is the
    random identifier drawn at entry. *)
Definition handle_client (w : world) (client_socket : nat)
    (client_address : str * Z) (session_id : str) (now : Z) (rnd : bytes)
  : thread * world :=
  match recv_message (sockets w client_socket) with
  | (Raise _, s') =>
      (Exited,
       handle_client_finally (with_socket w client_socket s')
         client_socket None)
  | (Ret first_message, s') =>
      let w1 := with_socket w client_socket s' in
      match first_message with
      | None | Some [] =>
          (Exited,
           handle_client_finally (close_fd w1 client_socket)
             client_socket None)
      | Some m =>
          if startswith m MSG_TOKEN_REQUEST then
            match handle_token_request w1 client_socket client_address m
                    now rnd with
            | (Some h, w2) => (Polling client_socket h, w2)
            | (None, w2) =>
                (Exited, handle_client_finally w2 client_socket None)
            end
          else if startswith m MSG_REGISTER then
            match handle_registration w1 client_socket client_address
                    session_id m with
            | (Raise _, w2) =>
                (Exited, handle_client_finally w2 client_socket None)
            | (Ret None, w2) =>
                (Exited, handle_client_finally w2 client_socket None)
            | (Ret (Some h), w2) =>
                if truthy h then (Idle client_socket h, w2)
                else (Exited,
                      handle_client_finally w2 client_socket (Some h))
            end
          else
            (Exited,
             handle_client_finally (close_fd w1 client_socket)
               client_socket None)
      end
  end.

(** One step of a handler thread: a turn of the loop it is in. *)
Definition step (w : world) (t : thread) : thread * world :=
  match t with
  | Idle fd h => (Idle fd h, w)
  | Polling fd h =>
      match poll_once w fd h with
      | (true, w') => (Polling fd h, w')
      | (false, w') => (Exited, handle_client_finally w' fd None)
      end
  | Exited => (Exited, w)
  end.

Fixpoint steps (n : nat) (w : world) (t : thread) : thread * world :=
  match n with
  | O => (t, w)
  | S n' => let (t', w') := step w t in steps n' w' t'
  end.

(** The peer closes the transport, or the transport breaks: nothing
    more arrives and writes fail. *)
Definition transport_closed (s : socket) : socket :=
  mkSocket [] (outbound s) (Some (lit "Broken pipe")) (closed s).

(** ** [server/client_handler.py]: the dispatcher *)

Definition NOT_FOUND : str := lit "Client not found or not authenticated".

(** [send_command_to_client(hostname, command)]. *)
Definition send_command_to_client (w : world) (hostname command : str)
  : (option str * str) * world :=
  match dict.get (clients w) hostname with
  | None => ((None, NOT_FOUND), w)
  | Some client_info =>
      let fd := socket_fd client_info in
      match send_to w fd (MSG_CMD ++ lit ":" ++ command) with
      | (false, w1) => ((None, lit "Failed to send command"), w1)
      | (true, w1) =>
          match recv_message (sockets w1 fd) with
          | (Raise SocketTimeout, s') =>
              ((None, lit "Timeout waiting for response"),
               with_socket w1 fd s')
          | (Raise e, s') =>
              ((None, lit "Error: " ++ exn_text e), with_socket w1 fd s')
          | (Ret None, s') =>
              ((None, lit "No response from client (may be disconnected)"),
               with_socket w1 fd s')
          | (Ret (Some response), s') =>
              let w2 := with_socket w1 fd s' in
              if negb (startswith response MSG_RESULT)
              then ((None, lit "Invalid response format"), w2)
              else
                match split response (lit ":") (Some 1%nat) with
                | _ :: result_data :: _ =>
                    match split result_data (lit "|||") None with
                    | [] => ((Some [], []), w2)
                    | [stdout] => ((Some stdout, []), w2)
                    | stdout :: stderr :: _ => ((Some stdout, stderr), w2)
                    end
                | _ => ((None, lit "Error: " ++ exn_text IndexError), w2)
                end
          end
      end
  end.

(** [enumerate(clients.items(), i)]. *)
Fixpoint enumerate (i : Z) (d : registry) : list (Z * str * client_info) :=
  match d with
  | [] => []
  | (h, info) :: d' => (i, h, info) :: enumerate (i + 1) d'
  end.

(** [get_clients_list()]. *)
Definition get_clients_list (c : registry) : list (Z * str * client_info) :=
  enumerate 1 c.

(** ** The builtin [int] on a [str] *)

(** [int(s)] of CPython 3.11 on a [str]: the text is first brought to
    ASCII ([_PyUnicode_TransformDecimalAndSpaceToASCII]), then read by
    [PyLong_FromString] in base 10. *)
Module Builtins.

(** [Py_ISSPACE], the white space that [PyLong_FromString] skips at
    both ends: tab, line feed, vertical tab, form feed, carriage
    return and space.  The separators U+001C to U+001F are white space
    for [str.isspace] but not here. *)
Definition is_space (c : Z) : bool := in_range 9 13 c || (c =? 32).

(** [Py_UNICODE_ISSPACE] above ASCII. *)
Definition is_unicode_space (c : Z) : bool :=
  existsb (Z.eqb c) [133; 160; 5760; 8232; 8233; 8239; 8287; 12288]
  || in_range 8192 8202 c.

(** The digit zero of every decimal number system above ASCII in the
    Unicode database (version 14.0, the one of CPython 3.11); the
    digits one to nine follow each zero. *)
Definition decimal_zeros : list Z :=
  [1632; 1776; 1984; 2406; 2534; 2662; 2790; 2918; 3046; 3174; 3302; 3430;
   3558; 3664; 3792; 3872; 4160; 4240; 6112; 6160; 6470; 6608; 6784; 6800;
   6992; 7088; 7232; 7248; 42528; 43216; 43264; 43472; 43504; 43600; 44016;
   65296; 66720; 68912; 69734; 69872; 69942; 70096; 70384; 70736; 70864;
   71248; 71360; 71472; 71904; 72016; 72784; 73040; 73120; 92768; 92864;
   93008; 120782; 120792; 120802; 120812; 120822; 123200; 123632; 125264;
   130032].

(** [Py_UNICODE_TODECIMAL] above ASCII. *)
Definition to_decimal (c : Z) : option Z :=
  option_map (fun z => c - z)
    (find (fun z => in_range z (z + 9) c) decimal_zeros).

(** The loop of the transformation: a character below 127 is kept, a
    Unicode white space becomes a space, a decimal digit its ASCII
    digit; at any other character the result ends with a question
    mark. *)
Fixpoint transform (s : str) : str :=
  match s with
  | [] => []
  | c :: r =>
      if c <? 127 then c :: transform r
      else if is_unicode_space c then 32 :: transform r
      else match to_decimal c with
           | Some d => (48 + d) :: transform r
           | None => [63]
           end
  end.

(** An ASCII text is returned as it is. *)
Definition to_ascii (s : str) : str :=
  if forallb (fun c => c <? 128) s then s else transform s.

Definition is_digit (c : Z) : bool := in_range 48 57 c.

Fixpoint lstrip (s : str) : str :=
  match s with
  | c :: r => if is_space c then lstrip r else s
  | [] => []
  end.

Definition strip (s : str) : str := rev (lstrip (rev (lstrip s))).

(** Decimal digits, with single underscores allowed between digits.
    [prev] tells whether the previous character was a digit. *)
Fixpoint digits (s : str) (acc : Z) (prev : bool) : option Z :=
  match s with
  | [] => if prev then Some acc else None
  | c :: r =>
      if is_digit c then digits r (acc * 10 + (c - 48)) true
      else if (c =? 95) && prev then digits r acc false
      else None
  end.

(** [sys.int_info.default_max_str_digits]: a numeral with more digits
    is refused with [ValueError]. *)
Definition MAX_STR_DIGITS : Z := 4300.

(** [int(s)]: white space at both ends, an optional sign, decimal
    digits; [ValueError] otherwise. *)
Definition int (s : str) : py Z :=
  let body (sign : Z) (r : str) : py Z :=
    match digits r 0 false with
    | Some n =>
        if len (filter is_digit r) >? MAX_STR_DIGITS
        then Raise ValueError
        else Ret (sign * n)
    | None => Raise ValueError
    end in
  match strip (to_ascii s) with
  | c :: r =>
      if c =? 45 then body (-1) r        (* '-' *)
      else if c =? 43 then body 1 r      (* '+' *)
      else body 1 (c :: r)
  | [] => body 1 []
  end.

End Builtins.

(** [get_hostname_by_number(number)] of [server/client_handler.py]. *)
Definition get_hostname_by_number (c : registry) (number : str)
  : py (option str) :=
  match
    bind (Builtins.int number) (fun num =>
      Ret (match find (fun e => fst (fst e) =? num) (get_clients_list c) with
           | Some (_, hostname, _) => Some hostname
           | None => None
           end))
  with
  | Raise ValueError | Raise IndexError => Ret None
  | r => r
  end.

(** ** [server/cli.py]: operator commands *)

Module cli.

(** What a command prints, without the colours. *)
Inductive notice : Type :=
| TokenApproved (hostname : str) (token : option str)
| ApproveFailed (hostname : str)
| TokenDenied (hostname : str)
| DenyFailed (hostname : str)
| TokenRevoked (hostname : str)
| Kicked (hostname : str)
| RevokeFailed (target : str)
| NoTokenFound (target : str)
| DeletionCancelled
| TokenDeleted (hostname : str)
| DeleteFailed (hostname : str)
| NotRevoked (hostname : str) (status : option str)
| TokenRenewed (hostname : str)
| RenewFailed (hostname : str)
| AlreadyInSession (hostname : str)
| SessionClosed (hostname : str)
| SessionOpened (hostname : str)
| ClientNotFound (target : str).

(** [pending[num - 1]] for [1 <= num <= len(pending)]. *)
Definition index {A} (l : list A) (i : Z) : py A :=
  match nth_error l (Z.to_nat i) with
  | Some x => Ret x
  | None => Raise IndexError
  end.

(** [get_pending_hostname_by_number(number)]. *)
Definition get_pending_hostname_by_number (db : token_manager.table)
    (number : str) : py (option str) :=
  match
    bind (Builtins.int number) (fun num =>
      let pending := token_manager.get_pending_requests db in
      if (1 <=? num) && (num <=? len pending)
      then bind (index pending (num - 1)) (fun p => Ret (Some (fst (fst p))))
      else Ret None)
  with
  | Raise ValueError | Raise IndexError => Ret None
  | r => r
  end.

(** [x or target], for the result [x] of a resolver. *)
Definition or_target (x : option str) (target : str) : str :=
  match x with
  | Some h => if truthy h then h else target
  | None => target
  end.

(** [approve_token(target)].  An exception of the resolver would
    escape to the console loop. *)
Definition approve_token (w : world) (target : str) (now : Z)
  : py (list notice) * world :=
  match get_pending_hostname_by_number (tokens w) target with
  | Raise e => (Raise e, w)
  | Ret x =>
      let hostname := or_target x target in
      match token_manager.approve_token (tokens w) hostname now with
      | ((true, token), db) =>
          (Ret [TokenApproved hostname token], with_tokens w db)
      | ((false, _), db) => (Ret [ApproveFailed hostname], with_tokens w db)
      end
  end.

(** [deny_token(target)]. *)
Definition deny_token (w : world) (target : str)
  : py (list notice) * world :=
  match get_pending_hostname_by_number (tokens w) target with
  | Raise e => (Raise e, w)
  | Ret x =>
      let hostname := or_target x target in
      match token_manager.deny_token (tokens w) hostname with
      | (true, db) => (Ret [TokenDenied hostname], with_tokens w db)
      | (false, db) => (Ret [DenyFailed hostname], with_tokens w db)
      end
  end.

(** [revoke_token(target)]. *)
Definition revoke_token (w : world) (target : str) (now : Z)
  : py (list notice) * world :=
  match get_hostname_by_number (clients w) target with
  | Raise e => (Raise e, w)
  | Ret x =>
      let hostname := or_target x target in
      match token_manager.revoke_token (tokens w) hostname now with
      | (true, db) =>
          let w1 := with_tokens w db in
          match dict.get (clients w1) hostname with
          | Some client_info =>
              (Ret [TokenRevoked hostname; Kicked hostname],
               snd (send_to w1 (socket_fd client_info)
                      (status_message TOKEN_REVOKED)))
          | None => (Ret [TokenRevoked hostname], w1)
          end
      | (false, db) => (Ret [RevokeFailed target], with_tokens w db)
      end
  end.

(** [delete_token(target)]; [confirm] is what the operator types at
    the confirmation prompt, stripped and lower-cased. *)
Definition delete_token (w : world) (target confirm : str)
  : py (list notice) * world :=
  match get_hostname_by_number (clients w) target with
  | Raise e => (Raise e, w)
  | Ret x =>
      let hostname := or_target x target in
      match token_manager.get_token_by_hostname (tokens w) hostname with
      | (token, status) =>
          if negb (truthy_opt token) then (Ret [NoTokenFound target], w)
          else if negb (str_eqb confirm (lit "yes"))
          then (Ret [DeletionCancelled], w)
          else
            let (kick, w1) :=
              match dict.get (clients w) hostname with
              | Some client_info =>
                  ([Kicked hostname],
                   snd (send_to w (socket_fd client_info)
                          (status_message (lit "deleted"))))
              | None => ([], w)
              end in
            match token_manager.delete_token (tokens w1) hostname with
            | (true, db) =>
                (Ret (kick ++ [TokenDeleted hostname]), with_tokens w1 db)
            | (false, db) =>
                (Ret (kick ++ [DeleteFailed hostname]), with_tokens w1 db)
            end
      end
  end.

(** [renew_token(target)]. *)
Definition renew_token (w : world) (target : str) (now : Z)
  : py (list notice) * world :=
  match get_hostname_by_number (clients w) target with
  | Raise e => (Raise e, w)
  | Ret x =>
      let hostname := or_target x target in
      match token_manager.get_token_by_hostname (tokens w) hostname with
      | (token, status) =>
          if negb (truthy_opt token) then (Ret [NoTokenFound target], w)
          else if negb (match status with
                        | Some st => str_eqb st (lit "revoked")
                        | None => false
                        end)
          then (Ret [NotRevoked hostname status], w)
          else
            match token_manager.approve_token (tokens w) hostname now with
            | ((true, _), db) =>
                (Ret [TokenRenewed hostname], with_tokens w db)
            | ((false, _), db) =>
                (Ret [RenewFailed hostname], with_tokens w db)
            end
      end
  end.


End cli.

(** ** Vocabulary of the statements, and scenarios *)

(** What [handle_registration] does on every refusal: send the status,
    then close. *)
Definition reply_and_close (w : world) (fd : nat) (st : str) : world :=
  close_fd (snd (send_to w fd (status_message st))) fd.

(** The UTF-8 bytes of a text that encodes. *)
Definition bytes_of (s : str) : bytes :=
  match utf8_encode s with
  | Ret b => b
  | Raise _ => []
  end.

(** A segment of a stream that carries at least one byte. *)
Definition nonempty (d : bytes) : Prop := d <> [].

(** The frame of a payload: its length on four bytes, then the payload. *)
Definition frame (payload : bytes) : bytes :=
  match struct_pack_I (len payload) with
  | Ret header => header ++ payload
  | Raise _ => []
  end.

(** A connected socket on which nothing has happened yet, with
    [segs] about to arrive. *)
Definition fresh_socket (segs : list bytes) : socket :=
  mkSocket (map Seg segs) [] None false.

Module Scenario.

(** A header that declares 10 MiB + 1 bytes, then one byte. *)
Definition sock_oversized : socket :=
  fresh_socket [[x00; xa0; x00; x01; x41]].

(** A header that declares 5 bytes, one byte, then the stream ends. *)
Definition sock_cut : socket :=
  fresh_socket [[x00; x00; x00; x05; x41]].

(** The one-byte payload [b'\xff'], which is not UTF-8. *)
Definition payload_ff : bytes := [xff].

(** An endpoint, its address, and two draws of entropy. *)
Definition hostA : str := lit "A".
Definition ipA : str := lit "10.0.0.7".
Definition rnd1 : bytes := repeat x01 32.
Definition rnd2 : bytes := repeat x02 32.
Definition tokA : str := generate_token rnd1.

(** The record of [hostA] in each status. *)
Definition row_pending : token_manager.row :=
  token_manager.mkRow hostA tokA TOKEN_PENDING (Some ipA) 100 None None.
Definition row_approved : token_manager.row :=
  token_manager.mkRow hostA tokA TOKEN_APPROVED (Some ipA) 100 (Some 110)
    None.
Definition row_revoked : token_manager.row :=
  token_manager.mkRow hostA tokA TOKEN_REVOKED (Some ipA) 100 (Some 110)
    (Some 120).
Definition row_denied : token_manager.row :=
  token_manager.mkRow hostA tokA TOKEN_DENIED (Some ipA) 100 None None.

(** A pending request from an endpoint whose hostname is ["5"]. *)
Definition row_five : token_manager.row :=
  token_manager.mkRow (lit "5") tokA TOKEN_PENDING (Some ipA) 100 None None.

(** A world with the given table, nobody connected. *)
Definition world_of (db : token_manager.table) : world :=
  mkWorld db [] (fun _ => fresh_socket []) [] 0.

(** The registration message of [hostA] with its secret. *)
Definition register_A : str :=
  MSG_REGISTER ++ lit ":" ++ hostA ++ lit ":" ++ tokA.

(** Two connections, with their session identifiers and addresses. *)
Definition sid1 : str := lit "0a1b2c3d".
Definition sid2 : str := lit "4e5f6a7b".
Definition addr1 : str * Z := (ipA, 50001).
Definition addr2 : str * Z := (ipA, 50002).

(** [hostA] is approved; its registration message is arriving on
    socket 1 and on socket 2. *)
Definition world_reg : world :=
  mkWorld [row_approved] []
    (fun fd => match fd with
               | 1%nat | 2%nat => fresh_socket [frame (bytes_of register_A)]
               | _ => fresh_socket []
               end)
    [] 0.

(** A payload one byte above the receive limit. *)
Definition big_payload : bytes :=
  repeat x00 (Z.to_nat (MAX_MESSAGE_SIZE + 1)).

End Scenario.

(** ** [server/token_manager.py]: the remaining queries and commands *)

(** [validate_client_token(hostname, provided_token)]: the comparison
    comes first in the [and], so its exception comes first too. *)
Definition validate_client_token (db : token_manager.table)
    (h provided_token : str) : py bool :=
  match token_manager.select_hostname db h with
  | None => Ret false
  | Some result =>
      bind (compare_digest (token_manager.token result) provided_token)
        (fun same =>
           Ret (same && str_eqb (token_manager.status result)
                          (lit "approved")))
  end.

(** [add_token_manual(hostname)]: [(success, token)]. *)
Definition add_token_manual (db : token_manager.table) (h : str) (now : Z)
    (rnd : bytes) : (bool * option str) * token_manager.table :=
  match token_manager.select_hostname db h with
  | Some existing =>
      ((true, Some (token_manager.token existing)),
       if negb (str_eqb (token_manager.status existing) (lit "approved"))
       then
         token_manager.update_hostname
           (fun r =>
              token_manager.mkRow (token_manager.hostname r)
                (token_manager.token r) (lit "approved")
                (token_manager.ip_address r) (token_manager.requested_at r)
                (Some now) (token_manager.revoked_at r)) db h
       else db)
  | None =>
      let token := generate_token rnd in
      match token_manager.insert db
              (token_manager.mkRow h token (lit "approved") None now
                 (Some now) None) with
      | Some db' => ((true, Some token), db')
      | None => ((false, None), db)
      end
  end.

(** [ORDER BY requested_at DESC], stable like its ascending twin. *)
Fixpoint insert_by_time_desc (r : token_manager.row)
    (l : list token_manager.row) : list token_manager.row :=
  match l with
  | [] => [r]
  | x :: l' =>
      if token_manager.requested_at x <=? token_manager.requested_at r
      then r :: l
      else x :: insert_by_time_desc r l'
  end.

(** [get_all_tokens()]: [(hostname, status, ip_address, requested_at,
    approved_at, revoked_at)], latest request first. *)
Definition get_all_tokens (db : token_manager.table)
  : list (str * str * option str * Z * option Z * option Z) :=
  map (fun r => (token_manager.hostname r, token_manager.status r,
                 token_manager.ip_address r, token_manager.requested_at r,
                 token_manager.approved_at r, token_manager.revoked_at r))
    (fold_right insert_by_time_desc [] db).

(** ** [client/main.py] *)

(** The first colon of a string: what is before it and what is after. *)
Fixpoint break_colon (s : str) : option (str * str) :=
  match s with
  | [] => None
  | c :: r =>
      if c =? 58 then Some ([], r)
      else match break_colon r with
           | Some (a, b) => Some (c :: a, b)
           | None => None
           end
  end.

(** [s.rsplit(':', 1)]: cut at the last colon. *)
Definition rsplit_colon (s : str) : list str :=
  match break_colon (rev s) with
  | Some (a, b) => [rev b; rev a]
  | None => [s]
  end.

(** [parse_address(address)]: [(ip, port)] or [(None, None)]. *)
Definition parse_address (address : str) : option str * option Z :=
  if existsb (fun c => c =? 58) address then
    match rsplit_colon address with
    | server_ip :: p :: _ =>
        match Builtins.int p with
        | Ret port =>
            if (1 <=? port) && (port <=? 65535)
            then (Some server_ip, Some port)
            else (None, None)
        | Raise _ => (None, None)
        end
    | _ => (None, None)
    end
  else (Some address, Some 4444).

(** ** [client/client.py]: the command loop *)

Section Client.

(** [execute_command] of [client/executor.py] runs a shell command; it
    catches every exception and always returns two strings. *)
Variable execute_command : str -> str * str.

(** Whether [os.remove] of the token file succeeds; a failure is caught
    and printed, and the file stays. *)
Variable os_remove_ok : bool.

(** [f"{MSG_RESULT}:{stdout}|||{stderr}"]. *)
Definition result_message (stdout stderr : str) : str :=
  MSG_RESULT ++ lit ":" ++ stdout ++ lit "|||" ++ stderr.

(** One turn of the loop of [main_loop(sock)].  [token_file] is the
    content of the client's token file, [None] when there is no file.
    The result tells whether the loop goes on. *)
Definition main_loop_step (sock : socket) (token_file : option str)
  : bool * socket * option str :=
  match recv_message sock with
  | (Raise _, sock') => (false, sock', token_file)
  | (Ret None, sock') => (false, sock', token_file)
  | (Ret (Some message), sock') =>
      if startswith message MSG_TOKEN_STATUS then
        match split message (lit ":") (Some 1%nat) with
        | _ :: status :: _ =>
            if str_eqb status TOKEN_REVOKED
            then (false, sock', token_file)
            else if str_eqb status (lit "deleted")
            then (false, sock', if os_remove_ok then None else token_file)
            else (true, sock', token_file)
        | _ => (true, sock', token_file)
        end
      else if startswith message MSG_CMD then
        match split message (lit ":") (Some 1%nat) with
        | _ :: command :: _ =>
            let (stdout, stderr) := execute_command command in
            let (ok, sock'') :=
              send_message sock' (MStr (result_message stdout stderr)) in
            (ok, sock'', token_file)
        | _ => (false, sock', token_file)
        end
      else (true, sock', token_file)
  end.

End Client.

(** ** Vocabulary of the further statements *)

(** A Unicode scalar value: a code point that is not a surrogate. *)
Definition scalar (c : Z) : Prop :=
  0 <= c < 1114112 /\ ~ 55296 <= c <= 57343.

(** A lower-case hexadecimal digit. *)
Definition hex_char (c : Z) : Prop := 48 <= c <= 57 \/ 97 <= c <= 102.

(** No two rows of the table have the same hostname. *)
Definition unique_hostnames (db : token_manager.table) : Prop :=
  NoDup (map token_manager.hostname db).

(** No two entries of the registry have the same key. *)
Definition unique_keys (d : registry) : Prop := NoDup (map fst d).

(** Ascending and descending lists of timestamps. *)
Fixpoint ascending (l : list Z) : Prop :=
  match l with
  | [] => True
  | x :: r => (forall y, In y r -> x <= y) /\ ascending r
  end.

Fixpoint descending (l : list Z) : Prop :=
  match l with
  | [] => True
  | x :: r => (forall y, In y r -> y <= x) /\ descending r
  end.

Module Scenario2.

(** A world where nothing is stored and [text] is arriving on every
    socket. *)
Definition world_receiving (db : token_manager.table) (text : str) : world :=
  mkWorld db [] (fun _ => fresh_socket [frame (bytes_of text)]) [] 0.

(** The first request of [hostA], and a status check for it. *)
Definition request_A : str :=
  MSG_TOKEN_REQUEST ++ lit ":" ++ Scenario.hostA ++ lit ":" ++ Scenario.ipA.
Definition check_A : str :=
  MSG_TOKEN_REQUEST ++ lit ":" ++ Scenario.hostA ++ lit ":"
    ++ lit "status_check".

(** [hostA] is registered on socket 1, where [text] is arriving. *)
Definition world_serving (text : str) : world :=
  mkWorld [Scenario.row_approved]
    [(Scenario.hostA, mkClient Scenario.sid1 1 Scenario.addr1)]
    (fun _ => fresh_socket [frame (bytes_of text)]) [] 0.

(** An endpoint whose commands print their own text. *)
Definition echo (command : str) : str * str := (command, []).

End Scenario2.

(** * Properties *)

(** ** Strings and slices *)

Lemma str_eqb_eq (a b : str) : str_eqb a b = true <-> a = b.
Proof.
  revert b; induction a as [|x a IH]; intros [|y b]; simpl;
    try (split; [discriminate | discriminate]); try tauto.
  rewrite andb_true_iff, Z.eqb_eq, IH.
  split; [intros [-> ->]; reflexivity | intros H; inversion H; auto].
Qed.

Lemma str_eqb_refl (a : str) : str_eqb a a = true.
Proof. apply str_eqb_eq; reflexivity. Qed.

Lemma str_eqb_neq (a b : str) : str_eqb a b = false <-> a <> b.
Proof.
  destruct (str_eqb a b) eqn:E.
  - apply str_eqb_eq in E. split; [discriminate | congruence].
  - split; [|reflexivity]. intros _ H. apply str_eqb_eq in H. congruence.
Qed.

Lemma len_nil {A} : len (@nil A) = 0.
Proof. reflexivity. Qed.

Lemma len_cons {A} (x : A) l : len (x :: l) = 1 + len l.
Proof. unfold len. simpl List.length. lia. Qed.

Lemma len_app {A} (l1 l2 : list A) : len (l1 ++ l2) = len l1 + len l2.
Proof. unfold len. rewrite length_app. lia. Qed.

Lemma len_nonneg {A} (l : list A) : 0 <= len l.
Proof. unfold len. lia. Qed.

Lemma take_nonpos {A} k (l : list A) : k <= 0 -> take k l = [].
Proof.
  intros H. destruct l; cbn [take drop app]; [reflexivity|].
  destruct (Z.leb_spec k 0); [reflexivity | lia].
Qed.

Lemma drop_nonpos {A} k (l : list A) : k <= 0 -> drop k l = l.
Proof.
  intros H. destruct l; cbn [take drop app]; [reflexivity|].
  destruct (Z.leb_spec k 0); [reflexivity | lia].
Qed.

Lemma take_all {A} k (l : list A) : len l <= k -> take k l = l.
Proof.
  revert k; induction l as [|x l IH]; intros k H; cbn [take drop app]; [reflexivity|].
  rewrite len_cons in H. pose proof (len_nonneg l).
  destruct (Z.leb_spec k 0); [lia|]. rewrite IH by lia. reflexivity.
Qed.

Lemma drop_all {A} k (l : list A) : len l <= k -> drop k l = [].
Proof.
  revert k; induction l as [|x l IH]; intros k H; cbn [take drop app]; [reflexivity|].
  rewrite len_cons in H. pose proof (len_nonneg l).
  destruct (Z.leb_spec k 0); [lia|]. apply IH; lia.
Qed.

Lemma take_app_le {A} k (l1 l2 : list A) :
  len l1 <= k -> take k (l1 ++ l2) = l1 ++ take (k - len l1) l2.
Proof.
  revert k; induction l1 as [|x l1 IH]; intros k H; cbn [take drop app].
  - rewrite len_nil, Z.sub_0_r. reflexivity.
  - rewrite len_cons in *. pose proof (len_nonneg l1).
    destruct (Z.leb_spec k 0); [lia|]. rewrite IH by lia.
    replace (k - 1 - len l1) with (k - (1 + len l1)) by lia. reflexivity.
Qed.

Lemma drop_app_le {A} k (l1 l2 : list A) :
  len l1 <= k -> drop k (l1 ++ l2) = drop (k - len l1) l2.
Proof.
  revert k; induction l1 as [|x l1 IH]; intros k H; cbn [take drop app].
  - rewrite len_nil, Z.sub_0_r. reflexivity.
  - rewrite len_cons in *. pose proof (len_nonneg l1).
    destruct (Z.leb_spec k 0); [lia|]. rewrite IH by lia.
    replace (k - 1 - len l1) with (k - (1 + len l1)) by lia. reflexivity.
Qed.

Lemma take_app_gt {A} k (l1 l2 : list A) :
  k <= len l1 -> take k (l1 ++ l2) = take k l1.
Proof.
  revert k; induction l1 as [|x l1 IH]; intros k H; cbn [take drop app].
  - rewrite len_nil in H. apply take_nonpos; assumption.
  - rewrite len_cons in H.
    destruct (Z.leb_spec k 0); [reflexivity|]. rewrite IH by lia.
    reflexivity.
Qed.

Lemma drop_app_gt {A} k (l1 l2 : list A) :
  k <= len l1 -> drop k (l1 ++ l2) = drop k l1 ++ l2.
Proof.
  revert k; induction l1 as [|x l1 IH]; intros k H; cbn [take drop app].
  - rewrite len_nil in H. apply drop_nonpos; assumption.
  - rewrite len_cons in H.
    destruct (Z.leb_spec k 0); [reflexivity|]. apply IH; lia.
Qed.

Lemma take_drop {A} k (l : list A) : take k l ++ drop k l = l.
Proof.
  revert k; induction l as [|x l IH]; intros k; cbn [take drop app]; [reflexivity|].
  destruct (Z.leb_spec k 0); cbn [take drop app]; [reflexivity|]. rewrite IH. reflexivity.
Qed.

Lemma len_take {A} k (l : list A) : 0 <= k <= len l -> len (take k l) = k.
Proof.
  revert k; induction l as [|x l IH]; intros k H; cbn [take drop app].
  - rewrite len_nil in *. lia.
  - rewrite len_cons in H. destruct (Z.leb_spec k 0).
    + rewrite len_nil. lia.
    + rewrite len_cons, IH by lia. lia.
Qed.

(** ** Bytes and the length header *)

Lemma Z_of_byte_range (b : byte) : 0 <= Z_of_byte b < 256.
Proof.
  unfold Z_of_byte. pose proof (Byte.to_N_bounded b). lia.
Qed.

Lemma byte_of_Z_of_byte (b : byte) : byte_of_Z (Z_of_byte b) = b.
Proof.
  unfold byte_of_Z. pose proof (Z_of_byte_range b).
  rewrite Z.mod_small by assumption.
  unfold Z_of_byte. rewrite N2Z.id, Byte.of_to_N. reflexivity.
Qed.

Lemma Z_of_byte_of_Z (z : Z) : Z_of_byte (byte_of_Z z) = z mod 256.
Proof.
  unfold byte_of_Z, Z_of_byte.
  pose proof (Z.mod_pos_bound z 256 ltac:(lia)) as Hm.
  destruct (Byte.of_N (Z.to_N (z mod 256))) as [b|] eqn:E.
  - apply Byte.to_of_N in E. rewrite E. lia.
  - apply Byte.of_N_None_iff in E. lia.
Qed.

Lemma Z_of_byte_small (z : Z) :
  0 <= z < 256 -> Z_of_byte (byte_of_Z z) = z.
Proof. intros H. rewrite Z_of_byte_of_Z. apply Z.mod_small; assumption. Qed.

Lemma Z_of_byte_inj (a b : byte) : Z_of_byte a = Z_of_byte b -> a = b.
Proof.
  intros H. rewrite <- (byte_of_Z_of_byte a), <- (byte_of_Z_of_byte b).
  rewrite H. reflexivity.
Qed.

Lemma lor_shiftl_small (hi lo k : Z) :
  0 <= k -> 0 <= lo < 2 ^ k ->
  Z.lor (Z.shiftl hi k) lo = hi * 2 ^ k + lo.
Proof.
  intros Hk Hlo.
  assert (Hland : Z.land (Z.shiftl hi k) lo = 0).
  { apply Z.bits_inj'. intros n Hn. rewrite Z.land_spec, Z.bits_0.
    destruct (Z.ltb_spec n k).
    - rewrite Z.shiftl_spec_low by lia. reflexivity.
    - destruct (Z.eq_dec lo 0) as [->|Hne].
      + rewrite Z.bits_0. apply andb_false_r.
      + rewrite (Z.bits_above_log2 lo n); [apply andb_false_r | lia |].
        assert (Z.log2 lo < k) by (apply Z.log2_lt_pow2; lia). lia. }
  rewrite <- Z.lxor_lor by assumption.
  rewrite <- Z.add_nocarry_lxor by assumption.
  rewrite Z.shiftl_mul_pow2 by assumption. reflexivity.
Qed.

Lemma struct_pack_length (n : Z) (header : bytes) :
  struct_pack_I n = Ret header -> len header = 4.
Proof.
  unfold struct_pack_I.
  destruct ((0 <=? n) && (n <? 2 ^ 32)); [|discriminate].
  intros H; inversion H; reflexivity.
Qed.

Lemma struct_pack_ok (n : Z) :
  0 <= n < 2 ^ 32 -> exists header, struct_pack_I n = Ret header.
Proof.
  intros H. unfold struct_pack_I.
  destruct (Z.leb_spec 0 n); [|lia]. destruct (Z.ltb_spec n (2 ^ 32)); [|lia].
  simpl. eexists; reflexivity.
Qed.

Lemma struct_pack_overflow (n : Z) :
  2 ^ 32 <= n -> struct_pack_I n = Raise StructError.
Proof.
  intros H. unfold struct_pack_I.
  destruct (Z.ltb_spec n (2 ^ 32)); [lia|]. rewrite andb_false_r. reflexivity.
Qed.

(** The header is the big-endian rendering of the length: unpacking
    gives the length back. *)
Lemma struct_unpack_pack (n : Z) (header : bytes) :
  struct_pack_I n = Ret header -> struct_unpack_I header = Ret n.
Proof.
  unfold struct_pack_I.
  destruct (Z.leb_spec 0 n); [|discriminate].
  destruct (Z.ltb_spec n (2 ^ 32)); [|discriminate].
  simpl andb. cbv iota. intros Hh; inversion Hh; subst header; clear Hh.
  unfold struct_unpack_I. f_equal.
  rewrite !Z_of_byte_of_Z, !Z.shiftr_div_pow2 by lia.
  change (2 ^ 32) with 4294967296 in *.
  change (2 ^ 24) with 16777216. change (2 ^ 16) with 65536.
  change (2 ^ 8) with 256.
  pose proof (Z.mod_pos_bound n 256 ltac:(lia)).
  pose proof (Z.mod_pos_bound (n / 256) 256 ltac:(lia)).
  pose proof (Z.mod_pos_bound (n / 65536) 256 ltac:(lia)).
  pose proof (Z.mod_pos_bound (n / 16777216) 256 ltac:(lia)).
  rewrite (@lor_shiftl_small _ _ 8) by (change (2 ^ 8) with 256; lia).
  rewrite (@lor_shiftl_small _ _ 16) by (change (2 ^ 16) with 65536;
                                      change (2 ^ 8) with 256; lia).
  rewrite (@lor_shiftl_small _ _ 24) by (change (2 ^ 24) with 16777216;
    change (2 ^ 16) with 65536; change (2 ^ 8) with 256; lia).
  change (2 ^ 24) with 16777216. change (2 ^ 16) with 65536.
  change (2 ^ 8) with 256.
  assert (H16 : n / 65536 = n / 256 / 256)
    by (rewrite Z.div_div by lia; reflexivity).
  assert (H24 : n / 16777216 = n / 256 / 256 / 256)
    by (rewrite !Z.div_div by lia; reflexivity).
  rewrite H16, H24 in *.
  assert (n / 256 / 256 / 256 < 256)
    by (apply Z.div_lt_upper_bound; [lia|];
        apply Z.div_lt_upper_bound; [lia|];
        apply Z.div_lt_upper_bound; lia).
  rewrite (Z.mod_small (n / 256 / 256 / 256)) in *
    by (split; [repeat apply Z.div_pos; lia | assumption]).
  pose proof (Z.div_mod n 256 ltac:(lia)).
  pose proof (Z.div_mod (n / 256) 256 ltac:(lia)).
  pose proof (Z.div_mod (n / 256 / 256) 256 ltac:(lia)).
  lia.
Qed.

(** ** UTF-8: decoding what was encoded *)

Ltac zdm := Z.div_mod_to_equations; lia.

Lemma in_range_true (lo hi x : Z) : in_range lo hi x = true <-> lo <= x <= hi.
Proof. unfold in_range. rewrite andb_true_iff, !Z.leb_le. tauto. Qed.

Lemma in_range_false (lo hi x : Z) :
  in_range lo hi x = false <-> (x < lo \/ hi < x).
Proof.
  unfold in_range. rewrite andb_false_iff, !Z.leb_gt. tauto.
Qed.

Lemma utf8_decode_1 (b0 : byte) (r : bytes) :
  Z_of_byte b0 < 128 ->
  utf8_decode (b0 :: r) = Z_of_byte b0 :: utf8_decode r.
Proof.
  intros H. cbn [utf8_decode]. cbv zeta.
  destruct (Z.ltb_spec (Z_of_byte b0) 128); [reflexivity | lia].
Qed.

Lemma utf8_decode_2 (b0 b1 : byte) (r : bytes) :
  194 <= Z_of_byte b0 <= 223 -> 128 <= Z_of_byte b1 <= 191 ->
  utf8_decode (b0 :: b1 :: r)
  = ((Z_of_byte b0 - 192) * 64 + (Z_of_byte b1 - 128)) :: utf8_decode r.
Proof.
  intros H0 H1. cbn [utf8_decode]. cbv zeta.
  destruct (Z.ltb_spec (Z_of_byte b0) 128); [lia|].
  rewrite (proj2 (in_range_true 194 223 _)) by assumption.
  unfold is_cont. rewrite (proj2 (in_range_true 128 191 _)) by assumption.
  reflexivity.
Qed.

Lemma utf8_decode_3 (b0 b1 b2 : byte) (r : bytes) :
  224 <= Z_of_byte b0 <= 239 ->
  second_lo (Z_of_byte b0) <= Z_of_byte b1 <= second_hi (Z_of_byte b0) ->
  128 <= Z_of_byte b2 <= 191 ->
  utf8_decode (b0 :: b1 :: b2 :: r)
  = ((Z_of_byte b0 - 224) * 4096 + (Z_of_byte b1 - 128) * 64
     + (Z_of_byte b2 - 128)) :: utf8_decode r.
Proof.
  intros H0 H1 H2. cbn [utf8_decode]. cbv zeta.
  destruct (Z.ltb_spec (Z_of_byte b0) 128); [lia|].
  rewrite (proj2 (in_range_false 194 223 _)) by lia.
  rewrite (proj2 (in_range_true 224 239 _)) by assumption.
  rewrite (proj2 (in_range_true _ _ _)) by assumption.
  unfold is_cont. rewrite (proj2 (in_range_true 128 191 _)) by assumption.
  reflexivity.
Qed.

Lemma utf8_decode_4 (b0 b1 b2 b3 : byte) (r : bytes) :
  240 <= Z_of_byte b0 <= 244 ->
  second_lo (Z_of_byte b0) <= Z_of_byte b1 <= second_hi (Z_of_byte b0) ->
  128 <= Z_of_byte b2 <= 191 -> 128 <= Z_of_byte b3 <= 191 ->
  utf8_decode (b0 :: b1 :: b2 :: b3 :: r)
  = ((Z_of_byte b0 - 240) * 262144 + (Z_of_byte b1 - 128) * 4096
     + (Z_of_byte b2 - 128) * 64 + (Z_of_byte b3 - 128)) :: utf8_decode r.
Proof.
  intros H0 H1 H2 H3. cbn [utf8_decode]. cbv zeta.
  destruct (Z.ltb_spec (Z_of_byte b0) 128); [lia|].
  rewrite (proj2 (in_range_false 194 223 _)) by lia.
  rewrite (proj2 (in_range_false 224 239 _)) by lia.
  rewrite (proj2 (in_range_true 240 244 _)) by assumption.
  rewrite (proj2 (in_range_true _ _ _)) by assumption.
  unfold is_cont. rewrite !(proj2 (in_range_true 128 191 _)) by assumption.
  reflexivity.
Qed.

Lemma Ret_inj {A} (a b : A) : Ret a = Ret b -> a = b.
Proof. intros H; inversion H; reflexivity. Qed.

(** One encoded character decodes to itself, whatever follows. *)
Lemma utf8_decode_encode_cp (c : Z) (bc rest : bytes) :
  encode_cp c = Ret bc -> utf8_decode (bc ++ rest) = c :: utf8_decode rest.
Proof.
  unfold encode_cp.
  destruct (Z.ltb_spec c 0); [discriminate|].
  destruct (Z.ltb_spec c 128).
  { intros E; apply Ret_inj in E; subst bc. cbn [app].
    rewrite utf8_decode_1; rewrite Z_of_byte_small by lia; [reflexivity|lia]. }
  destruct (Z.ltb_spec c 2048).
  { intros E; apply Ret_inj in E; subst bc. cbn [app].
    rewrite utf8_decode_2; rewrite !Z_of_byte_small by zdm;
      [f_equal; zdm | zdm | zdm]. }
  destruct (Z.ltb_spec c 65536).
  { destruct (in_range 55296 57343 c) eqn:Hs; [discriminate|].
    apply in_range_false in Hs.
    intros E; apply Ret_inj in E; subst bc. cbn [app].
    rewrite utf8_decode_3; rewrite !Z_of_byte_small by zdm;
      [f_equal; zdm | zdm | | zdm].
    unfold second_lo, second_hi.
    destruct (Z.eqb_spec (224 + c / 4096) 224);
      destruct (Z.eqb_spec (224 + c / 4096) 240);
      destruct (Z.eqb_spec (224 + c / 4096) 237);
      destruct (Z.eqb_spec (224 + c / 4096) 244); zdm. }
  destruct (Z.ltb_spec c 1114112); [|discriminate].
  intros E; apply Ret_inj in E; subst bc. cbn [app].
  rewrite utf8_decode_4; rewrite !Z_of_byte_small by zdm;
    [f_equal; zdm | zdm | | zdm | zdm].
  unfold second_lo, second_hi.
  destruct (Z.eqb_spec (240 + c / 262144) 224);
    destruct (Z.eqb_spec (240 + c / 262144) 240);
    destruct (Z.eqb_spec (240 + c / 262144) 237);
    destruct (Z.eqb_spec (240 + c / 262144) 244); zdm.
Qed.

(** [s.encode('utf-8').decode('utf-8', errors='replace') == s]. *)
Lemma utf8_decode_encode (s : str) (b : bytes) :
  utf8_encode s = Ret b -> utf8_decode b = s.
Proof.
  revert b; induction s as [|c s IH]; intros b; cbn [utf8_encode].
  - intros E; inversion E; reflexivity.
  - destruct (encode_cp c) as [bc|] eqn:Ec; [|discriminate].
    cbn [bind]. destruct (utf8_encode s) as [bs|] eqn:Es; [|discriminate].
    cbn [bind]. intros E; inversion E; subst b; clear E.
    rewrite (utf8_decode_encode_cp c bc bs Ec). f_equal. apply IH. reflexivity.
Qed.

Lemma encode_cp_nonempty (c : Z) (bc : bytes) :
  encode_cp c = Ret bc -> bc <> [].
Proof.
  unfold encode_cp.
  repeat match goal with
         | |- context [if ?b then _ else _] => destruct b
         end; intros E; try discriminate; apply Ret_inj in E; subst bc;
    discriminate.
Qed.

(** ** [recv_exact] *)

Lemma recv_exact_loop_done (fuel : nat) (sock : socket) (n : Z) (data : bytes) :
  n <= len data ->
  recv_exact_loop fuel sock n data = Some (Ret (Some data), sock).
Proof.
  intros H. destruct fuel; cbn [recv_exact_loop];
    destruct (Z.ltb_spec (len data) n); try lia; reflexivity.
Qed.

Lemma drop_nonempty {A} (k : Z) (l : list A) : drop k l <> [] -> k < len l.
Proof.
  intros H. destruct (Z.lt_ge_cases k (len l)) as [|Hge]; [assumption|].
  exfalso. apply H. apply drop_all. lia.
Qed.

(** The loop never runs out of the fuel that [recv_exact] gives it. *)
Lemma recv_exact_loop_fuel (fuel : nat) :
  forall (sock : socket) (n : Z) (data : bytes),
    (List.length (inbound sock) < fuel)%nat ->
    recv_exact_loop fuel sock n data <> None.
Proof.
  induction fuel as [|fuel IH]; intros sock n data Hf; [inversion Hf|].
  cbn [recv_exact_loop].
  destruct (Z.ltb_spec (len data) n); [|discriminate].
  unfold recv. destruct (closed sock); [discriminate|].
  destruct (inbound sock) as [|[d| |msg] rest] eqn:Ein;
    try discriminate.
  destruct (take (n - len data) d) as [|c chunk] eqn:Et; [discriminate|].
  destruct (drop (n - len data) d) as [|m more] eqn:Ed.
  - apply IH. cbn [inbound]. simpl in Hf. lia.
  - rewrite recv_exact_loop_done; [discriminate|].
    assert (n - len data < len d)
      by (apply drop_nonempty; rewrite Ed; discriminate).
    rewrite len_app, <- Et, len_take by lia. lia.
Qed.

Lemma recv_exact_unfold (sock : socket) (n : Z) :
  recv_exact_loop (S (List.length (inbound sock))) sock n []
  = Some (recv_exact sock n).
Proof.
  unfold recv_exact.
  destruct (recv_exact_loop _ sock n []) eqn:E; [reflexivity|].
  exfalso. revert E. apply recv_exact_loop_fuel. lia.
Qed.

(** Reading [n] bytes from a stream that holds at least that many,
    however it is cut into segments. *)
Lemma recv_exact_loop_segments (segs : list bytes) :
  forall (fuel : nat) (sock : socket) (n : Z) (data : bytes),
    closed sock = false -> inbound sock = map Seg segs ->
    Forall nonempty segs -> (List.length segs < fuel)%nat ->
    len data <= n -> n - len data <= len (List.concat segs) ->
    exists segs',
      recv_exact_loop fuel sock n data
      = Some (Ret (Some (data ++ take (n - len data) (List.concat segs))),
              mkSocket (map Seg segs') (outbound sock) (send_fault sock)
                       false)
      /\ Forall nonempty segs'
      /\ List.concat segs' = drop (n - len data) (List.concat segs).
Proof.
  induction segs as [|d segs IH]; intros fuel sock n data Hc Hin Hne Hf Hle Hn.
  - cbn [List.concat] in *. rewrite len_nil in Hn.
    rewrite recv_exact_loop_done by lia.
    exists []. rewrite take_nonpos, drop_nonpos, app_nil_r by lia.
    destruct sock; cbn in *; subst. repeat split; constructor.
  - destruct (Z.eq_dec (len data) n) as [Heq|Hneq].
    { rewrite recv_exact_loop_done by lia.
      exists (d :: segs).
      rewrite take_nonpos, drop_nonpos, app_nil_r by lia.
      destruct sock; cbn in *; subst. repeat split; assumption. }
    destruct fuel as [|fuel]; [inversion Hf|].
    cbn [recv_exact_loop].
    destruct (Z.ltb_spec (len data) n); [|lia].
    unfold recv. rewrite Hc, Hin. cbn [map].
    inversion Hne as [|? ? Hd Hne']; subst.
    cbn [List.concat] in *.
    destruct (take (n - len data) d) as [|c chunk] eqn:Et.
    { exfalso. destruct d as [|x d]; [apply Hd; reflexivity|].
      cbn [take] in Et. destruct (Z.leb_spec (n - len data) 0);
        [lia | discriminate]. }
    rewrite <- Et.
    destruct (drop (n - len data) d) as [|m more] eqn:Ed.
    + assert (Hall : len d <= n - len data).
      { destruct (Z.le_gt_cases (len d) (n - len data)); [assumption|].
        exfalso. pose proof (take_drop (n - len data) d) as Htd.
        rewrite Ed, app_nil_r in Htd.
        pose proof (len_nonneg data).
        assert (len (take (n - len data) d) = n - len data)
          by (apply len_take; lia).
        rewrite Htd in *. lia. }
      rewrite (take_all _ d) by assumption.
      rewrite len_app in Hn.
      destruct (IH fuel (mkSocket (map Seg segs) (outbound sock)
                                  (send_fault sock) false)
                   n (data ++ d)) as (segs' & E & Hne'' & Hcat);
        try reflexivity; try assumption.
      * simpl in Hf. lia.
      * rewrite len_app. lia.
      * rewrite len_app. lia.
      * exists segs'. cbn [outbound send_fault] in E. rewrite E.
        rewrite len_app in *. repeat split; try assumption.
        -- rewrite take_app_le by assumption. rewrite <- app_assoc.
           replace (n - (len data + len d)) with (n - len data - len d)
             by lia. reflexivity.
        -- rewrite Hcat, drop_app_le by assumption.
           f_equal. lia.
    + assert (Hlt : n - len data < len d)
        by (apply drop_nonempty; rewrite Ed; discriminate).
      pose proof (len_nonneg data).
      rewrite recv_exact_loop_done
        by (rewrite len_app, len_take by lia; lia).
      exists ((m :: more) :: segs). cbn [map List.concat].
      rewrite take_app_gt, drop_app_gt, Ed by lia.
      repeat split.
      constructor; [discriminate | assumption].
Qed.

(** Reading [n] bytes from a stream that ends before: [None]. *)
Lemma recv_exact_loop_short (segs : list bytes) :
  forall (fuel : nat) (sock : socket) (n : Z) (data : bytes),
    closed sock = false -> inbound sock = map Seg segs ->
    (List.length segs < fuel)%nat ->
    len data + len (List.concat segs) < n ->
    exists sock', recv_exact_loop fuel sock n data = Some (Ret None, sock').
Proof.
  induction segs as [|d segs IH]; intros fuel sock n data Hc Hin Hf Hn;
    (destruct fuel as [|fuel]; [inversion Hf|]); cbn [recv_exact_loop];
    cbn [List.concat] in Hn; rewrite ?len_nil, ?len_app in Hn;
    pose proof (len_nonneg data);
    [| pose proof (len_nonneg (List.concat segs));
       pose proof (len_nonneg d)];
    (destruct (Z.ltb_spec (len data) n); [|lia]);
    unfold recv; rewrite Hc, Hin; cbn [map].
  - eexists; reflexivity.
  - rewrite (take_all _ d), (drop_all _ d) by lia.
    destruct d as [|x d]; [eexists; reflexivity|].
    apply IH; try reflexivity; try assumption.
    + simpl in Hf. lia.
    + rewrite len_app. lia.
Qed.

Lemma recv_exact_segments (segs : list bytes) (sock : socket) (n : Z) :
  closed sock = false -> inbound sock = map Seg segs ->
  Forall nonempty segs -> 0 <= n <= len (List.concat segs) ->
  exists segs',
    recv_exact sock n
    = (Ret (Some (take n (List.concat segs))),
       mkSocket (map Seg segs') (outbound sock) (send_fault sock) false)
    /\ Forall nonempty segs'
    /\ List.concat segs' = drop n (List.concat segs).
Proof.
  intros Hc Hin Hne Hn.
  destruct (recv_exact_loop_segments segs
              (S (List.length (inbound sock))) sock n [] Hc Hin Hne)
    as (segs' & E & H1 & H2).
  - rewrite Hin, length_map. lia.
  - rewrite len_nil. lia.
  - rewrite len_nil. lia.
  - rewrite recv_exact_unfold in E. rewrite len_nil, Z.sub_0_r in *.
    exists segs'. cbn [app] in E. inversion E. repeat split; assumption.
Qed.

Lemma recv_exact_short (segs : list bytes) (sock : socket) (n : Z) :
  closed sock = false -> inbound sock = map Seg segs ->
  len (List.concat segs) < n ->
  exists sock', recv_exact sock n = (Ret None, sock').
Proof.
  intros Hc Hin Hn.
  destruct (recv_exact_loop_short segs
              (S (List.length (inbound sock))) sock n [] Hc Hin)
    as (sock' & E).
  - rewrite Hin, length_map. lia.
  - rewrite len_nil. lia.
  - rewrite recv_exact_unfold in E. exists sock'. inversion E. reflexivity.
Qed.

(** ** [send_message] *)

Lemma send_message_sent (sock : socket) (m : message) (payload : bytes) :
  payload_of m = Ret payload -> len payload < 2 ^ 32 ->
  closed sock = false -> send_fault sock = None ->
  send_message sock m
  = (true, mkSocket (inbound sock) (outbound sock ++ frame payload)
                    (send_fault sock) (closed sock)).
Proof.
  intros Hp Hl Hc Hf. pose proof (len_nonneg payload).
  unfold send_message, send_message_try, frame. rewrite Hp.
  destruct (struct_pack_ok (len payload)) as [header Hh]; [lia|].
  rewrite Hh. unfold sendall. rewrite Hc, Hf. reflexivity.
Qed.

Lemma scalar_encodes (c : Z) :
  0 <= c < 1114112 -> ~ 55296 <= c <= 57343 ->
  exists b, encode_cp c = Ret b.
Proof.
  intros Hr Hs. unfold encode_cp.
  destruct (Z.ltb_spec c 0); [lia|].
  destruct (Z.ltb_spec c 128); [eexists; reflexivity|].
  destruct (Z.ltb_spec c 2048); [eexists; reflexivity|].
  destruct (Z.ltb_spec c 65536).
  - rewrite (proj2 (in_range_false 55296 57343 c)) by lia.
    eexists; reflexivity.
  - destruct (Z.ltb_spec c 1114112); [eexists; reflexivity | lia].
Qed.

Lemma scalars_encode (s : str) :
  Forall scalar s -> exists b, utf8_encode s = Ret b.
Proof.
  induction 1 as [|c s [Hr Hs] _ IH]; cbn [utf8_encode];
    [eexists; reflexivity|].
  destruct (scalar_encodes c Hr Hs) as [bc ->].
  destruct IH as [bs ->]. cbn [bind]. eexists; reflexivity.
Qed.

Lemma encode_cp_ok (c : Z) (b : bytes) :
  encode_cp c = Ret b ->
  scalar c
  /\ len b = (if c <? 128 then 1 else if c <? 2048 then 2
              else if c <? 65536 then 3 else 4)
  /\ ((c <? 128) = true -> b = [byte_of_Z c]).
Proof.
  unfold encode_cp, scalar.
  destruct (Z.ltb_spec c 0); [discriminate|].
  destruct (Z.ltb_spec c 128).
  { intros E. apply Ret_inj in E. subst b.
    repeat split; try lia; try reflexivity. }
  destruct (Z.ltb_spec c 2048).
  { intros E. apply Ret_inj in E. subst b.
    repeat split; try lia; try reflexivity; try discriminate. }
  destruct (Z.ltb_spec c 65536).
  { destruct (in_range 55296 57343 c) eqn:Er; [discriminate|].
    apply in_range_false in Er.
    intros E. apply Ret_inj in E. subst b.
    repeat split; try lia; try reflexivity; try discriminate. }
  destruct (Z.ltb_spec c 1114112); [|discriminate].
  intros E. apply Ret_inj in E. subst b.
  repeat split; try lia; try reflexivity; try discriminate.
Qed.

Lemma utf8_encode_ok (s : str) :
  forall b,
    utf8_encode s = Ret b ->
    Forall scalar s
    /\ len b
       = fold_right
           (fun c n => (if c <? 128 then 1 else if c <? 2048 then 2
                        else if c <? 65536 then 3 else 4) + n) 0 s
    /\ (is_ascii s = true -> b = map byte_of_Z s).
Proof.
  induction s as [|c s IH]; intros b; cbn [utf8_encode].
  - intros E. apply Ret_inj in E. subst b. repeat split. constructor.
  - destruct (encode_cp c) as [bc|e] eqn:Ec; [|discriminate].
    destruct (utf8_encode s) as [bs|e]; [|discriminate].
    cbn [bind]. intros E. apply Ret_inj in E. subst b.
    destruct (encode_cp_ok c bc Ec) as (Hc & Hl & Ha).
    destruct (IH bs eq_refl) as (Hs & Hls & Has).
    split; [constructor; assumption|]. split.
    + rewrite len_app, Hl, Hls. reflexivity.
    + cbn [is_ascii forallb map]. intros H.
      apply andb_true_iff in H. destruct H as [H1 H2].
      rewrite (Ha H1), (Has H2). reflexivity.
Qed.

(** C10.  [send_message] is total.  A text is sent as its UTF-8
    encoding: the bytes decode back to the text, there are one to four
    of them for each character according to its range, and an ASCII
    text is sent as its own characters.  When the transport works and
    the length fits the 4-byte header, the call writes the header,
    which is the big-endian length of the payload, followed by the
    payload, and returns [True]; in every other case, and for a text
    that does not encode (one with a surrogate), it returns [False] and
    writes nothing.  No branch raises.  The receive limit plays no
    part: a text or a byte string above [MAX_MESSAGE_SIZE] is framed
    and sent like any other. *)
Theorem send_message_total :
  (forall (sock : socket) (s : str),
      match utf8_encode s with
      | Ret payload =>
          Forall scalar s
          /\ utf8_decode payload = s
          /\ len payload
             = fold_right
                 (fun c n => (if c <? 128 then 1 else if c <? 2048 then 2
                              else if c <? 65536 then 3 else 4) + n) 0 s
          /\ (is_ascii s = true -> payload = map byte_of_Z s)
          /\ if closed sock
                || match send_fault sock with
                   | Some _ => true
                   | None => false
                   end
                || (2 ^ 32 <=? len payload)
             then send_message sock (MStr s) = (false, sock)
             else
               exists header,
                 struct_pack_I (len payload) = Ret header
                 /\ len header = 4
                 /\ struct_unpack_I header = Ret (len payload)
                 /\ send_message sock (MStr s)
                    = (true, mkSocket (inbound sock)
                                      (outbound sock ++ header ++ payload)
                                      (send_fault sock) (closed sock))
      | Raise _ =>
          ~ Forall scalar s /\ send_message sock (MStr s) = (false, sock)
      end)
  /\ (forall (sock : socket) (payload : bytes),
         if closed sock
            || match send_fault sock with Some _ => true | None => false end
            || (2 ^ 32 <=? len payload)
         then send_message sock (MBytes payload) = (false, sock)
         else
           exists header,
             struct_pack_I (len payload) = Ret header
             /\ len header = 4
             /\ struct_unpack_I header = Ret (len payload)
             /\ send_message sock (MBytes payload)
                = (true, mkSocket (inbound sock)
                                  (outbound sock ++ header ++ payload)
                                  (send_fault sock) (closed sock)))
  /\ (forall (sock : socket) (payload : bytes),
         closed sock = false -> send_fault sock = None ->
         MAX_MESSAGE_SIZE < len payload < 2 ^ 32 ->
         send_message sock (MBytes payload)
         = (true, mkSocket (inbound sock) (outbound sock ++ frame payload)
                           (send_fault sock) (closed sock))
         /\ len (frame payload) = 4 + len payload)
  /\ (forall (sock : socket) (s : str),
         closed sock = false -> send_fault sock = None ->
         is_ascii s = true -> Forall scalar s ->
         MAX_MESSAGE_SIZE < len s < 2 ^ 32 ->
         send_message sock (MStr s)
         = (true, mkSocket (inbound sock)
                           (outbound sock ++ frame (map byte_of_Z s))
                           (send_fault sock) (closed sock))
         /\ len (frame (map byte_of_Z s)) = 4 + len s).
Proof.
  assert (Hany : forall (sock : socket) (m : message) (payload : bytes),
             payload_of m = Ret payload ->
             if closed sock
                || match send_fault sock with
                   | Some _ => true
                   | None => false
                   end
                || (2 ^ 32 <=? len payload)
             then send_message sock m = (false, sock)
             else
               exists header,
                 struct_pack_I (len payload) = Ret header
                 /\ len header = 4
                 /\ struct_unpack_I header = Ret (len payload)
                 /\ send_message sock m
                    = (true, mkSocket (inbound sock)
                                      (outbound sock ++ header ++ payload)
                                      (send_fault sock) (closed sock))).
  { intros sock m payload Hp. unfold send_message, send_message_try.
    rewrite Hp. pose proof (len_nonneg payload).
    destruct (Z.leb_spec (2 ^ 32) (len payload)).
    + rewrite orb_true_r. rewrite struct_pack_overflow by assumption.
      reflexivity.
    + rewrite orb_false_r.
      destruct (struct_pack_ok (len payload)) as [header Hh]; [lia|].
      rewrite Hh. unfold sendall.
      destruct (closed sock); [reflexivity|].
      destruct (send_fault sock); [reflexivity|]. cbn [orb].
      exists header. repeat split.
      * apply (struct_pack_length _ _ Hh).
      * apply struct_unpack_pack; assumption. }
  assert (Hframe : forall payload : bytes,
             len payload < 2 ^ 32 -> len (frame payload) = 4 + len payload).
  { intros payload Hl. unfold frame.
    destruct (struct_pack_ok (len payload)) as [header Hh];
      [pose proof (len_nonneg payload); lia|].
    rewrite Hh, len_app, (struct_pack_length _ _ Hh). reflexivity. }
  split; [|split; [|split]].
  - intros sock s. destruct (utf8_encode s) as [payload|e] eqn:He.
    + destruct (utf8_encode_ok s payload He) as (Hs & Hl & Ha).
      split; [exact Hs|]. split; [exact (utf8_decode_encode s payload He)|].
      split; [exact Hl|]. split; [exact Ha|].
      apply (Hany sock (MStr s) payload). exact He.
    + split.
      * intros Hs. destruct (scalars_encode s Hs) as [b Hb]. congruence.
      * unfold send_message, send_message_try. cbn [payload_of].
        rewrite He. reflexivity.
  - intros sock payload. apply (Hany sock (MBytes payload)). reflexivity.
  - intros sock payload Hc Hf Hl. split.
    + apply send_message_sent; [reflexivity | lia | assumption..].
    + apply Hframe. lia.
  - intros sock s Hc Hf Ha Hs Hl.
    destruct (scalars_encode s Hs) as [b Hb].
    destruct (utf8_encode_ok s b Hb) as (_ & _ & Hmap).
    specialize (Hmap Ha). subst b.
    assert (Hlen : len (map byte_of_Z s) = len s)
      by (unfold len; rewrite length_map; reflexivity).
    split.
    + apply send_message_sent; [exact Hb | lia | assumption..].
    + rewrite Hframe by lia. rewrite Hlen. reflexivity.
Qed.

Lemma big_payload_len : len Scenario.big_payload = MAX_MESSAGE_SIZE + 1.
Proof.
  unfold len, Scenario.big_payload.
  rewrite repeat_length, Z2Nat.id; [reflexivity|].
  unfold MAX_MESSAGE_SIZE. lia.
Defined.

Lemma send_message_total_witness :
  send_message (fresh_socket []) (MStr [104; 233])
  = (true, mkSocket [] [x00; x00; x00; x03; x68; xc3; xa9] None false)
  /\ send_message (fresh_socket []) (MBytes Scenario.big_payload)
     = (true, mkSocket [] ([] ++ frame Scenario.big_payload) None false)
  /\ len (frame Scenario.big_payload) = 4 + len Scenario.big_payload.
Proof.
  split.
  - pose proof (proj1 send_message_total (fresh_socket []) [104; 233]) as H.
    change (utf8_encode [104; 233]) with (Ret [x68; xc3; xa9]) in H.
    cbv iota in H. destruct H as (_ & _ & _ & _ & H).
    change (closed (fresh_socket [])
            || match send_fault (fresh_socket []) with
               | Some _ => true
               | None => false
               end
            || (2 ^ 32 <=? len [x68; xc3; xa9])) with false in H.
    cbv iota in H. destruct H as (header & Hh & _ & _ & Hs).
    rewrite Hs.
    change (struct_pack_I (len [x68; xc3; xa9]))
      with (Ret [x00; x00; x00; x03]) in Hh.
    apply Ret_inj in Hh. subst header. reflexivity.
  - refine (proj1 (proj2 (proj2 send_message_total)) (fresh_socket [])
              Scenario.big_payload eq_refl eq_refl _).
    rewrite big_payload_len. unfold MAX_MESSAGE_SIZE. lia.
Defined.

(** ** [recv_message] *)

Lemma struct_unpack_len (header : bytes) (n : Z) :
  struct_unpack_I header = Ret n -> len header = 4 /\ header <> [].
Proof.
  destruct header as [|b0 [|b1 [|b2 [|b3 [|b4 r]]]]]; try discriminate.
  intros _. split; [reflexivity | discriminate].
Qed.

(** The header has arrived and declares more than the limit. *)
Lemma recv_message_try_oversized (sock : socket) (segs : list bytes)
    (header rest : bytes) (n : Z) :
  closed sock = false -> inbound sock = map Seg segs ->
  Forall nonempty segs -> List.concat segs = header ++ rest ->
  struct_unpack_I header = Ret n -> MAX_MESSAGE_SIZE < n ->
  exists segs',
    recv_message_try sock
    = (Raise (Exception (oversize_text n)),
       mkSocket (map Seg segs') (outbound sock) (send_fault sock) false)
    /\ List.concat segs' = rest.
Proof.
  intros Hc Hin Hne Hcat Hu Hn.
  destruct (struct_unpack_len _ _ Hu) as [H4 Hnil].
  destruct (recv_exact_segments segs sock 4 Hc Hin Hne)
    as (segs' & E & Hne' & Hcat').
  { rewrite Hcat, len_app, H4. pose proof (len_nonneg rest). lia. }
  rewrite Hcat, take_app_le, drop_app_le in * by lia.
  rewrite H4 in *. rewrite take_nonpos, drop_nonpos, app_nil_r in * by lia.
  unfold recv_message_try. rewrite E.
  destruct header as [|b0 header]; [congruence|].
  rewrite Hu. destruct (Z.gtb_spec n MAX_MESSAGE_SIZE); [|lia].
  exists segs'. split; [reflexivity | assumption].
Qed.

(** The header has arrived, declares [n] bytes within the limit, and
    the stream ends before [n] bytes of payload. *)
Lemma recv_message_try_cut (sock : socket) (segs : list bytes)
    (header rest : bytes) (n : Z) :
  closed sock = false -> inbound sock = map Seg segs ->
  Forall nonempty segs -> List.concat segs = header ++ rest ->
  struct_unpack_I header = Ret n -> n <= MAX_MESSAGE_SIZE -> len rest < n ->
  exists sock', recv_message_try sock = (Ret None, sock').
Proof.
  intros Hc Hin Hne Hcat Hu Hn Hr.
  destruct (struct_unpack_len _ _ Hu) as [H4 Hnil].
  destruct (recv_exact_segments segs sock 4 Hc Hin Hne)
    as (segs' & E & Hne' & Hcat').
  { rewrite Hcat, len_app, H4. pose proof (len_nonneg rest). lia. }
  rewrite Hcat, take_app_le, drop_app_le in * by lia.
  rewrite H4 in *. rewrite take_nonpos, drop_nonpos, app_nil_r in * by lia.
  unfold recv_message_try. rewrite E.
  destruct header as [|b0 header]; [congruence|].
  rewrite Hu. destruct (Z.gtb_spec n MAX_MESSAGE_SIZE); [lia|].
  destruct (recv_exact_short segs'
              (mkSocket (map Seg segs') (outbound sock) (send_fault sock)
                        false) n) as (sock' & E');
    [reflexivity | reflexivity | rewrite Hcat'; assumption |].
  rewrite E'. exists sock'. reflexivity.
Qed.

(** A whole frame has arrived: the payload is decoded. *)
Lemma recv_message_frame (sock : socket) (segs : list bytes)
    (payload extra : bytes) :
  closed sock = false -> inbound sock = map Seg segs ->
  Forall nonempty segs -> 0 < len payload <= MAX_MESSAGE_SIZE ->
  List.concat segs = frame payload ++ extra ->
  exists segs',
    recv_message sock
    = (Ret (Some (utf8_decode payload)),
       mkSocket (map Seg segs') (outbound sock) (send_fault sock) false)
    /\ List.concat segs' = extra.
Proof.
  intros Hc Hin Hne Hl Hcat. unfold frame in Hcat.
  destruct (struct_pack_ok (len payload)) as [header Hh];
    [unfold MAX_MESSAGE_SIZE in Hl; lia|].
  rewrite Hh in Hcat. pose proof (struct_pack_length _ _ Hh) as H4.
  pose proof (struct_unpack_pack _ _ Hh) as Hu.
  pose proof (len_nonneg extra).
  destruct (recv_exact_segments segs sock 4 Hc Hin Hne)
    as (segs1 & E1 & Hne1 & Hcat1).
  { rewrite Hcat, !len_app, H4. lia. }
  rewrite Hcat, <- app_assoc, take_app_le, drop_app_le in * by lia.
  rewrite H4 in *. rewrite take_nonpos, drop_nonpos, app_nil_r in * by lia.
  destruct (recv_exact_segments segs1
              (mkSocket (map Seg segs1) (outbound sock) (send_fault sock)
                        false) (len payload))
    as (segs2 & E2 & Hne2 & Hcat2);
    [reflexivity | reflexivity | assumption
     | rewrite Hcat1, len_app; lia |].
  rewrite Hcat1 in E2, Hcat2.
  rewrite take_app_le, Z.sub_diag, take_nonpos, app_nil_r in E2 by lia.
  rewrite drop_app_le, Z.sub_diag, drop_nonpos in Hcat2 by lia.
  unfold recv_message, recv_message_try. rewrite E1.
  destruct header as [|b0 header]; [discriminate|].
  rewrite Hu. destruct (Z.gtb_spec (len payload) MAX_MESSAGE_SIZE); [lia|].
  rewrite E2.
  destruct payload as [|p0 payload]; [exfalso; cbv [len List.length] in *; lia|].
  exists segs2. split; [reflexivity | assumption].
Qed.

(** A frame with an empty payload is received as [None], like a
    disconnection: [if not message_data] does not tell [b''] from
    [None]. *)
Lemma recv_message_empty_payload (extra : list bytes) :
  fst (recv_message (fresh_socket ([x00; x00; x00; x00] :: extra)))
  = Ret None.
Proof. reflexivity. Qed.

(** C4, as the code has it.  When the header declares more than
    [MAX_MESSAGE_SIZE], the [try] block raises the size exception
    before any byte of the payload is read (what follows the header is
    still in the stream), and [recv_message] turns it into [None].
    When the stream ends inside the payload, or inside the header,
    [recv_message] returns [None] as well: the caller sees the same
    value in both cases. *)
Theorem recv_message_oversized_or_cut (sock : socket) (segs : list bytes) :
  closed sock = false -> inbound sock = map Seg segs ->
  Forall nonempty segs ->
  (forall header rest n,
      List.concat segs = header ++ rest ->
      struct_unpack_I header = Ret n -> MAX_MESSAGE_SIZE < n ->
      exists segs',
        recv_message_try sock
        = (Raise (Exception (oversize_text n)),
           mkSocket (map Seg segs') (outbound sock) (send_fault sock) false)
        /\ recv_message sock
           = (Ret None,
              mkSocket (map Seg segs') (outbound sock) (send_fault sock)
                       false)
        /\ List.concat segs' = rest)
  /\ (forall header rest n,
         List.concat segs = header ++ rest ->
         struct_unpack_I header = Ret n -> n <= MAX_MESSAGE_SIZE ->
         len rest < n ->
         exists sock', recv_message_try sock = (Ret None, sock')
                       /\ recv_message sock = (Ret None, sock'))
  /\ (len (List.concat segs) < 4 ->
      exists sock', recv_message_try sock = (Ret None, sock')
                    /\ recv_message sock = (Ret None, sock')).
Proof.
  intros Hc Hin Hne. repeat split.
  - intros header rest n Hcat Hu Hn.
    destruct (recv_message_try_oversized sock segs header rest n)
      as (segs' & E & Hcat'); try assumption.
    exists segs'. unfold recv_message. rewrite E. repeat split; assumption.
  - intros header rest n Hcat Hu Hn Hr.
    destruct (recv_message_try_cut sock segs header rest n)
      as (sock' & E); try assumption.
    exists sock'. unfold recv_message. rewrite E. split; reflexivity.
  - intros Hs.
    destruct (recv_exact_short segs sock 4 Hc Hin Hs) as (sock' & E).
    exists sock'. unfold recv_message, recv_message_try. rewrite E.
    split; reflexivity.
Qed.

Lemma recv_message_oversized_or_cut_witness :
  (exists segs',
      recv_message_try Scenario.sock_oversized
      = (Raise (Exception (oversize_text 10485761)),
         mkSocket (map Seg segs') [] None false)
      /\ recv_message Scenario.sock_oversized
         = (Ret None, mkSocket (map Seg segs') [] None false)
      /\ List.concat segs' = [x41])
  /\ (exists sock', recv_message_try Scenario.sock_cut = (Ret None, sock')
                    /\ recv_message Scenario.sock_cut = (Ret None, sock')).
Proof.
  split.
  - apply (proj1 (recv_message_oversized_or_cut Scenario.sock_oversized
                    [[x00; xa0; x00; x01; x41]] eq_refl eq_refl
                    ltac:(repeat constructor; discriminate))
             [x00; xa0; x00; x01] [x41] 10485761);
      [reflexivity | reflexivity | reflexivity].
  - apply (proj1 (proj2 (recv_message_oversized_or_cut Scenario.sock_cut
                    [[x00; x00; x00; x05; x41]] eq_refl eq_refl
                    ltac:(repeat constructor; discriminate)))
             [x00; x00; x00; x05] [x41] 5);
      [reflexivity | reflexivity | discriminate | reflexivity].
Defined.

(** C4, the claim as stated fails: an oversized frame and a stream cut
    inside the payload give the caller the same outcome, [None]. *)
Lemma recv_message_oversized_same_as_cut :
  fst (recv_message Scenario.sock_oversized) = Ret None
  /\ fst (recv_message Scenario.sock_cut) = Ret None
  /\ ~ (fst (recv_message Scenario.sock_oversized)
        <> fst (recv_message Scenario.sock_cut)).
Proof.
  repeat split. intros H. apply H. reflexivity.
Qed.

(** ** Framing round trip *)

(** C6, as the code has it.  A payload of 1 to [MAX_MESSAGE_SIZE] bytes
    that is the UTF-8 encoding of a text [s], sent by [send_message]
    (as [bytes], or as the [str] itself) and read by [recv_message]
    from a stream that delivers the frame in any segmentation, comes
    out as [s]; what follows the frame stays in the stream. *)
Theorem framing_roundtrip (s : str) (payload : bytes) (m : message)
    (tx rx : socket) (segs : list bytes) (extra : bytes) :
  utf8_encode s = Ret payload -> payload_of m = Ret payload ->
  0 < len payload <= MAX_MESSAGE_SIZE ->
  closed tx = false -> send_fault tx = None ->
  closed rx = false -> inbound rx = map Seg segs -> Forall nonempty segs ->
  List.concat segs = frame payload ++ extra ->
  send_message tx m
  = (true, mkSocket (inbound tx) (outbound tx ++ frame payload)
                    (send_fault tx) (closed tx))
  /\ exists segs',
       recv_message rx
       = (Ret (Some s),
          mkSocket (map Seg segs') (outbound rx) (send_fault rx) false)
       /\ List.concat segs' = extra.
Proof.
  intros He Hp Hl Hct Hft Hcr Hin Hne Hcat. split.
  - apply send_message_sent; try assumption.
    unfold MAX_MESSAGE_SIZE in Hl. lia.
  - rewrite <- (utf8_decode_encode s payload He).
    apply (recv_message_frame rx segs payload extra); assumption.
Qed.

Lemma framing_roundtrip_witness :
  send_message (fresh_socket []) (MStr (lit "hi"))
  = (true, mkSocket [] ([] ++ frame [x68; x69]) None false)
  /\ exists segs',
       recv_message (fresh_socket [[x00; x00]; [x00; x02; x68]; [x69; x21]])
       = (Ret (Some (lit "hi")), mkSocket (map Seg segs') [] None false)
       /\ List.concat segs' = [x21].
Proof.
  apply (framing_roundtrip (lit "hi") [x68; x69] (MStr (lit "hi"))
           (fresh_socket [])
           (fresh_socket [[x00; x00]; [x00; x02; x68]; [x69; x21]])
           [[x00; x00]; [x00; x02; x68]; [x69; x21]] [x21]);
    try reflexivity.
  - split; [reflexivity | discriminate].
  - repeat constructor; discriminate.
Defined.

(** C6, the claim as stated fails.  The payload [b'\xff'] is sent as it
    is, and received as the text U+FFFD, whose encoding is three other
    bytes: the original bytes are not what comes out. *)
Lemma framing_roundtrip_not_bytes :
  send_message (fresh_socket []) (MBytes Scenario.payload_ff)
  = (true, mkSocket [] (frame Scenario.payload_ff) None false)
  /\ fst (recv_message (fresh_socket [frame Scenario.payload_ff]))
     = Ret (Some [REPLACEMENT])
  /\ utf8_encode [REPLACEMENT] = Ret [xef; xbf; xbd]
  /\ utf8_encode [REPLACEMENT] <> Ret Scenario.payload_ff.
Proof.
  repeat split. discriminate.
Qed.

(** ** The token table *)

Section Table.
Import token_manager.

Variable f : row -> row.
Hypothesis f_hostname : forall r, hostname (f r) = hostname r.

Lemma select_update_same (db : table) (h : str) :
  select_hostname (update_hostname f db h) h
  = option_map f (select_hostname db h).
Proof.
  induction db as [|r db IH]; cbn [update_hostname map select_hostname];
    [reflexivity|].
  destruct (str_eqb (hostname r) h) eqn:E.
  - rewrite f_hostname, E. reflexivity.
  - rewrite E. apply IH.
Qed.

Lemma select_update_other (db : table) (h h' : str) :
  h' <> h ->
  select_hostname (update_hostname f db h) h' = select_hostname db h'.
Proof.
  intros Hne.
  induction db as [|r db IH]; cbn [update_hostname map select_hostname];
    [reflexivity|].
  destruct (str_eqb (hostname r) h) eqn:E.
  - rewrite f_hostname. apply str_eqb_eq in E.
    destruct (str_eqb (hostname r) h') eqn:E';
      [apply str_eqb_eq in E'; congruence | apply IH].
  - destruct (str_eqb (hostname r) h'); [reflexivity | apply IH].
Qed.

Lemma update_absent (db : table) (h : str) :
  select_hostname db h = None -> update_hostname f db h = db.
Proof.
  induction db as [|r db IH]; cbn [update_hostname map select_hostname];
    [reflexivity|].
  destruct (str_eqb (hostname r) h); [discriminate|].
  intros H. f_equal. apply IH; assumption.
Qed.

End Table.

Section TableFacts.
Import token_manager.

Lemma select_hostname_key (db : table) (h : str) (r : row) :
  select_hostname db h = Some r -> hostname r = h.
Proof.
  induction db as [|x db IH]; cbn [select_hostname]; [discriminate|].
  destruct (str_eqb (hostname x) h) eqn:E; [|exact IH].
  intros [= <-]. apply str_eqb_eq; assumption.
Qed.

Lemma select_app_new (db : table) (r : row) :
  select_hostname db (hostname r) = None ->
  select_hostname (db ++ [r]) (hostname r) = Some r.
Proof.
  induction db as [|x db IH]; cbn [app select_hostname].
  - rewrite str_eqb_refl. reflexivity.
  - destruct (str_eqb (hostname x) (hostname r)); [discriminate | exact IH].
Qed.

Lemma select_app_other (db : table) (r : row) (h' : str) :
  h' <> hostname r ->
  select_hostname (db ++ [r]) h' = select_hostname db h'.
Proof.
  intros Hne. induction db as [|x db IH]; cbn [app select_hostname].
  - destruct (str_eqb (hostname r) h') eqn:E; [|reflexivity].
    apply str_eqb_eq in E. congruence.
  - destruct (str_eqb (hostname x) h'); [reflexivity | exact IH].
Qed.

Lemma rowcount_pos (db : table) (h : str) :
  (0 <? rowcount db h) = match select_hostname db h with
                         | Some _ => true
                         | None => false
                         end.
Proof.
  unfold rowcount.
  induction db as [|x db IH]; cbn [filter select_hostname]; [reflexivity|].
  destruct (str_eqb (hostname x) h); [|exact IH].
  rewrite len_cons. pose proof (len_nonneg (filter (fun r => str_eqb (hostname r) h) db)).
  destruct (Z.ltb_spec 0 (1 + len (filter (fun r => str_eqb (hostname r) h) db)));
    [reflexivity | lia].
Qed.

Lemma hex_digit_inj (a b : Z) :
  0 <= a < 16 -> 0 <= b < 16 -> hex_digit a = hex_digit b -> a = b.
Proof.
  unfold hex_digit. intros Ha Hb.
  destruct (Z.ltb_spec a 10); destruct (Z.ltb_spec b 10); lia.
Qed.

(** Two draws of entropy give the same token only if they are equal. *)
Lemma generate_token_inj (rnd rnd' : bytes) :
  generate_token rnd = generate_token rnd' -> rnd = rnd'.
Proof.
  unfold generate_token. revert rnd'.
  induction rnd as [|x rnd IH]; intros [|y rnd']; cbn [hexlify];
    try discriminate; [reflexivity|].
  intros H.
  assert (H1 : hex_digit (Z_of_byte x / 16) = hex_digit (Z_of_byte y / 16))
    by congruence.
  assert (H2 : hex_digit (Z_of_byte x mod 16)
               = hex_digit (Z_of_byte y mod 16)) by congruence.
  assert (H3 : hexlify rnd = hexlify rnd') by congruence.
  pose proof (Z_of_byte_range x). pose proof (Z_of_byte_range y).
  apply hex_digit_inj in H1; [|zdm|zdm].
  apply hex_digit_inj in H2; [|zdm|zdm].
  f_equal; [|apply IH; assumption].
  apply Z_of_byte_inj. zdm.
Qed.

(** C1.  [request_token] follows the lifecycle.
    - No record: one is created, pending, with the generated secret,
      which is returned; other records are untouched.
    - A record that is approved or pending: its secret and status are
      returned and the table is unchanged.
    - A record in any other status (revoked, denied): the generated
      secret replaces the old one, the status becomes pending, both
      [approved_at] and [revoked_at] are cleared, the new secret is
      returned, other records are untouched.  The new secret differs
      from the old one as soon as the entropy drawn differs from the
      entropy that produced the old one. *)
Theorem request_token_lifecycle (db : table) (h ip : str) (now : Z)
    (rnd : bytes) :
  (select_hostname db h = None ->
   exists db',
     request_token db h ip now rnd
     = ((true, Some (generate_token rnd), TOKEN_PENDING), db')
     /\ select_hostname db' h
        = Some (mkRow h (generate_token rnd) TOKEN_PENDING (Some ip) now
                      None None)
     /\ forall h', h' <> h -> select_hostname db' h' = select_hostname db h')
  /\ (forall r,
         select_hostname db h = Some r ->
         status r = TOKEN_APPROVED \/ status r = TOKEN_PENDING ->
         request_token db h ip now rnd
         = ((true, Some (token r), status r), db))
  /\ (forall r,
         select_hostname db h = Some r ->
         status r <> TOKEN_APPROVED -> status r <> TOKEN_PENDING ->
         exists db',
           request_token db h ip now rnd
           = ((true, Some (generate_token rnd), TOKEN_PENDING), db')
           /\ select_hostname db' h
              = Some (mkRow h (generate_token rnd) TOKEN_PENDING (Some ip)
                            now None None)
           /\ (forall h', h' <> h ->
                          select_hostname db' h' = select_hostname db h')
           /\ (forall rnd_old,
                  token r = generate_token rnd_old -> rnd <> rnd_old ->
                  generate_token rnd <> token r)).
Proof.
  repeat split.
  - intros Hsel. unfold request_token, insert. cbn [hostname].
    rewrite Hsel. eexists. split; [reflexivity|]. split.
    + apply (select_app_new db
               (mkRow h (generate_token rnd) (lit "pending") (Some ip) now
                      None None)). exact Hsel.
    + intros h' Hne. apply select_app_other. exact Hne.
  - intros r Hsel [Hs|Hs]; unfold request_token; rewrite Hsel, Hs;
      reflexivity.
  - intros r Hsel Ha Hp. unfold request_token. rewrite Hsel.
    apply str_eqb_neq in Ha. apply str_eqb_neq in Hp.
    unfold TOKEN_APPROVED, TOKEN_PENDING in *. rewrite Ha, Hp.
    eexists. split; [reflexivity|]. split; [|split].
    + rewrite select_update_same by reflexivity. rewrite Hsel.
      cbn [option_map]. rewrite (select_hostname_key db h r Hsel).
      reflexivity.
    + intros h' Hne. apply select_update_other; [reflexivity | exact Hne].
    + intros rnd_old Hold Hne Heq. apply Hne.
      apply generate_token_inj. congruence.
Qed.

End TableFacts.

Lemma request_token_lifecycle_witness :
  (exists db',
      token_manager.request_token [] Scenario.hostA Scenario.ipA 200
        Scenario.rnd2
      = ((true, Some (generate_token Scenario.rnd2), TOKEN_PENDING), db')
      /\ token_manager.select_hostname db' Scenario.hostA
         = Some (token_manager.mkRow Scenario.hostA
                   (generate_token Scenario.rnd2) TOKEN_PENDING
                   (Some Scenario.ipA) 200 None None)
      /\ forall h', h' <> Scenario.hostA ->
                    token_manager.select_hostname db' h'
                    = token_manager.select_hostname [] h')
  /\ token_manager.request_token [Scenario.row_approved] Scenario.hostA
       Scenario.ipA 200 Scenario.rnd2
     = ((true, Some Scenario.tokA, TOKEN_APPROVED), [Scenario.row_approved])
  /\ (exists db',
         token_manager.request_token [Scenario.row_revoked] Scenario.hostA
           Scenario.ipA 200 Scenario.rnd2
         = ((true, Some (generate_token Scenario.rnd2), TOKEN_PENDING), db')
         /\ token_manager.select_hostname db' Scenario.hostA
            = Some (token_manager.mkRow Scenario.hostA
                      (generate_token Scenario.rnd2) TOKEN_PENDING
                      (Some Scenario.ipA) 200 None None)
         /\ (forall h', h' <> Scenario.hostA ->
                        token_manager.select_hostname db' h'
                        = token_manager.select_hostname
                            [Scenario.row_revoked] h')
         /\ (forall rnd_old,
                token_manager.token Scenario.row_revoked
                = generate_token rnd_old ->
                Scenario.rnd2 <> rnd_old ->
                generate_token Scenario.rnd2
                <> token_manager.token Scenario.row_revoked)).
Proof.
  split; [|split].
  - apply (proj1 (request_token_lifecycle [] Scenario.hostA Scenario.ipA 200
                    Scenario.rnd2)). reflexivity.
  - apply (proj1 (proj2 (request_token_lifecycle [Scenario.row_approved]
                           Scenario.hostA Scenario.ipA 200 Scenario.rnd2))
             Scenario.row_approved); [reflexivity | left; reflexivity].
  - apply (proj2 (proj2 (request_token_lifecycle [Scenario.row_revoked]
                           Scenario.hostA Scenario.ipA 200 Scenario.rnd2))
             Scenario.row_revoked); [reflexivity | discriminate | discriminate].
Defined.

(** ** Deny and revoke *)

Section DenyRevoke.
Import token_manager.

(** C5, as the code has it.  [deny_token] and [revoke_token] carry no
    condition on the current status: on an existing record, whatever
    its status, the first sets the status to denied and the second
    sets it to revoked and stamps [revoked_at]; the secret and the
    other columns stay.  Without a record they return [False] and
    change nothing.  Records of other endpoints are never touched. *)
Theorem deny_revoke_any_status (db : table) (h : str) (now : Z) :
  (forall r,
      select_hostname db h = Some r ->
      fst (deny_token db h) = true
      /\ select_hostname (snd (deny_token db h)) h
         = Some (mkRow (hostname r) (token r) TOKEN_DENIED (ip_address r)
                       (requested_at r) (approved_at r) (revoked_at r))
      /\ fst (revoke_token db h now) = true
      /\ select_hostname (snd (revoke_token db h now)) h
         = Some (mkRow (hostname r) (token r) TOKEN_REVOKED (ip_address r)
                       (requested_at r) (approved_at r) (Some now)))
  /\ (select_hostname db h = None ->
      deny_token db h = (false, db) /\ revoke_token db h now = (false, db))
  /\ (forall h', h' <> h ->
         select_hostname (snd (deny_token db h)) h' = select_hostname db h'
         /\ select_hostname (snd (revoke_token db h now)) h'
            = select_hostname db h').
Proof.
  unfold deny_token, revoke_token. cbn [fst snd]. repeat split.
  - rewrite rowcount_pos, H. reflexivity.
  - rewrite select_update_same by reflexivity. rewrite H. reflexivity.
  - rewrite rowcount_pos, H. reflexivity.
  - rewrite select_update_same by reflexivity. rewrite H. reflexivity.
  - rewrite rowcount_pos, H, update_absent by assumption. reflexivity.
  - rewrite rowcount_pos, H, update_absent by assumption. reflexivity.
  - apply select_update_other; [reflexivity | assumption].
  - apply select_update_other; [reflexivity | assumption].
Qed.

End DenyRevoke.

Lemma deny_revoke_any_status_witness :
  fst (token_manager.deny_token [Scenario.row_revoked] Scenario.hostA) = true
  /\ token_manager.select_hostname
       (snd (token_manager.deny_token [Scenario.row_revoked] Scenario.hostA))
       Scenario.hostA
     = Some (token_manager.mkRow Scenario.hostA Scenario.tokA TOKEN_DENIED
               (Some Scenario.ipA) 100 (Some 110) (Some 120))
  /\ fst (token_manager.revoke_token [Scenario.row_revoked] Scenario.hostA
            300) = true
  /\ token_manager.select_hostname
       (snd (token_manager.revoke_token [Scenario.row_revoked]
               Scenario.hostA 300)) Scenario.hostA
     = Some (token_manager.mkRow Scenario.hostA Scenario.tokA TOKEN_REVOKED
               (Some Scenario.ipA) 100 (Some 110) (Some 300)).
Proof.
  apply (proj1 (deny_revoke_any_status [Scenario.row_revoked] Scenario.hostA
                  300) Scenario.row_revoked).
  reflexivity.
Defined.

(** C5, the claim as stated fails: an approved record is denied by
    [deny_token], and a pending or denied record is revoked by
    [revoke_token]; the status does not stay as it was. *)
Lemma deny_revoke_not_guarded :
  token_manager.get_token_by_hostname [Scenario.row_approved] Scenario.hostA
  = (Some Scenario.tokA, Some TOKEN_APPROVED)
  /\ token_manager.get_token_by_hostname
       (snd (token_manager.deny_token [Scenario.row_approved]
               Scenario.hostA)) Scenario.hostA
     = (Some Scenario.tokA, Some TOKEN_DENIED)
  /\ token_manager.get_token_by_hostname
       (snd (token_manager.revoke_token [Scenario.row_pending]
               Scenario.hostA 300)) Scenario.hostA
     = (Some Scenario.tokA, Some TOKEN_REVOKED)
  /\ token_manager.get_token_by_hostname
       (snd (token_manager.revoke_token [Scenario.row_denied]
               Scenario.hostA 300)) Scenario.hostA
     = (Some Scenario.tokA, Some TOKEN_REVOKED)
  /\ TOKEN_DENIED <> TOKEN_APPROVED
  /\ TOKEN_REVOKED <> TOKEN_PENDING
  /\ TOKEN_REVOKED <> TOKEN_DENIED.
Proof.
  repeat split; discriminate.
Qed.

(** ** Ordinals *)









(** ** Renewal *)

Section Renew.
Import token_manager.

(** C7.  [renew_token] acts on the hostname [h] that the target
    resolves to.  It renews only a record whose status is revoked: the
    status becomes approved, the secret and the other records stay as
    they are.  Without a record, or with a record in any other status,
    it reports a failure and leaves the world unchanged. *)
Theorem renew_token_only_revoked (w : world) (target : str) (now : Z)
    (x : option str) (h : str) :
  get_hostname_by_number (clients w) target = Ret x ->
  h = cli.or_target x target ->
  (select_hostname (tokens w) h = None ->
   cli.renew_token w target now = (Ret [cli.NoTokenFound target], w))
  /\ (forall r,
         select_hostname (tokens w) h = Some r ->
         status r <> TOKEN_REVOKED ->
         snd (cli.renew_token w target now) = w
         /\ (fst (cli.renew_token w target now)
             = Ret [cli.NoTokenFound target]
             \/ fst (cli.renew_token w target now)
                = Ret [cli.NotRevoked h (Some (status r))]))
  /\ (forall r,
         select_hostname (tokens w) h = Some r ->
         status r = TOKEN_REVOKED -> token r <> [] ->
         exists w',
           cli.renew_token w target now = (Ret [cli.TokenRenewed h], w')
           /\ select_hostname (tokens w') h
              = Some (mkRow (hostname r) (token r) TOKEN_APPROVED
                            (ip_address r) (requested_at r) (Some now)
                            (revoked_at r))
           /\ (forall h', h' <> h ->
                  select_hostname (tokens w') h'
                  = select_hostname (tokens w) h')
           /\ clients w' = clients w /\ sockets w' = sockets w)
  /\ (forall w',
         cli.renew_token w target now = (Ret [cli.TokenRenewed h], w') ->
         exists r, select_hostname (tokens w) h = Some r
                   /\ status r = TOKEN_REVOKED).
Proof.
  intros Ex ->. unfold cli.renew_token, get_token_by_hostname.
  rewrite Ex. set (h := cli.or_target x target). repeat split.
  - intros Hs. rewrite Hs. reflexivity.
  - rewrite H. cbn [truthy_opt].
    destruct (negb (truthy (token r))); [reflexivity|].
    apply str_eqb_neq in H0. unfold TOKEN_REVOKED in H0. rewrite H0.
    reflexivity.
  - rewrite H. cbn [truthy_opt].
    destruct (negb (truthy (token r))); [left; reflexivity|].
    apply str_eqb_neq in H0. unfold TOKEN_REVOKED in H0. rewrite H0.
    right. reflexivity.
  - intros r Hs Hst Htok. rewrite Hs. cbn [truthy_opt].
    destruct (token r) as [|c t] eqn:Et; [congruence|]. cbn [truthy negb].
    rewrite Hst. cbn [str_eqb]. unfold approve_token. rewrite Hs, Hst.
    eexists. split; [reflexivity|]. cbn [with_tokens tokens clients sockets].
    repeat split.
    + rewrite select_update_same by reflexivity. rewrite Hs.
      cbn [option_map]. rewrite Et. reflexivity.
    + intros h' Hne. apply select_update_other; [reflexivity | exact Hne].
  - intros w'. destruct (select_hostname (tokens w) h) as [r|] eqn:Hs;
      [|discriminate].
    cbn [truthy_opt]. destruct (negb (truthy (token r))); [discriminate|].
    destruct (str_eqb (status r) (lit "revoked")) eqn:Est;
      [|discriminate].
    intros _. exists r. split; [reflexivity|]. apply str_eqb_eq. exact Est.
Qed.

End Renew.

Lemma renew_token_only_revoked_witness :
  exists w',
    cli.renew_token (Scenario.world_of [Scenario.row_revoked])
      Scenario.hostA 300
    = (Ret [cli.TokenRenewed Scenario.hostA], w')
    /\ token_manager.select_hostname (tokens w') Scenario.hostA
       = Some (token_manager.mkRow Scenario.hostA Scenario.tokA
                 TOKEN_APPROVED (Some Scenario.ipA) 100 (Some 300)
                 (Some 120))
    /\ (forall h', h' <> Scenario.hostA ->
           token_manager.select_hostname (tokens w') h'
           = token_manager.select_hostname [Scenario.row_revoked] h')
    /\ clients w' = [] /\ sockets w' = (fun _ => fresh_socket []).
Proof.
  apply (proj1 (proj2 (proj2 (renew_token_only_revoked
                                (Scenario.world_of [Scenario.row_revoked])
                                Scenario.hostA 300 None Scenario.hostA
                                eq_refl eq_refl)))
           Scenario.row_revoked); [reflexivity | reflexivity | discriminate].
Defined.

(** ** Splitting a message on colons *)

Lemma split_go_zero (sep s cur : str) :
  split_go sep s cur 0 0 = [rev cur ++ s].
Proof.
  revert cur; induction s as [|c s IH]; intros cur; cbn [split_go].
  - rewrite app_nil_r. reflexivity.
  - rewrite IH. cbn [rev]. rewrite <- app_assoc. reflexivity.
Qed.

Lemma lit_colon : lit ":" = [58].
Proof. reflexivity. Qed.

Lemma startswith_nil (s : str) : startswith s [] = true.
Proof. destruct s; reflexivity. Qed.

Lemma split_go_colon (s rest cur : str) (k : nat) :
  ~ In 58 s ->
  split_go [58] (s ++ 58 :: rest) cur (S k) 0
  = (rev cur ++ s) :: split_go [58] rest [] k 0.
Proof.
  revert cur; induction s as [|c s IH]; intros cur Hin.
  - cbn [app split_go startswith]. rewrite Z.eqb_refl, startswith_nil.
    cbn [andb List.length Nat.sub]. rewrite app_nil_r. reflexivity.
  - cbn [app split_go startswith].
    destruct (Z.eqb_spec 58 c) as [E|Hne];
      [exfalso; apply Hin; left; symmetry; exact E|].
    cbn [andb]. rewrite IH.
    + cbn [rev]. rewrite <- app_assoc. reflexivity.
    + intros H. apply Hin. right. exact H.
Qed.

(** [f"{p0}:{h}:{tok}".split(':', 2)] when neither [p0] nor [h]
    contains a colon. *)
Lemma split_register (p0 h tok : str) :
  ~ In 58 p0 -> ~ In 58 h ->
  split (p0 ++ lit ":" ++ h ++ lit ":" ++ tok) (lit ":") (Some 2%nat)
  = [p0; h; tok].
Proof.
  intros H0 Hh. unfold split. rewrite lit_colon. cbn [app].
  rewrite split_go_colon by assumption.
  rewrite split_go_colon by assumption.
  rewrite split_go_zero. reflexivity.
Qed.

(** ** Registration *)

Section Registration.
Import token_manager.

Variables (w : world) (client_socket : nat) (client_address : str * Z).
Variables (session_id reg_message p0 h client_token : str).
Hypothesis Hsplit :
  split reg_message (lit ":") (Some 2%nat) = [p0; h; client_token].

Lemma handle_registration_no_record :
  select_hostname (tokens w) h = None ->
  handle_registration w client_socket client_address session_id reg_message
  = (Ret None, reply_and_close w client_socket TOKEN_INVALID).
Proof.
  intros Hs. unfold handle_registration, get_token_by_hostname.
  rewrite Hsplit, Hs. reflexivity.
Qed.

Lemma handle_registration_mismatch (r : row) :
  select_hostname (tokens w) h = Some r ->
  is_ascii (token r) = true -> is_ascii client_token = true ->
  token r <> client_token ->
  handle_registration w client_socket client_address session_id reg_message
  = (Ret None, reply_and_close w client_socket TOKEN_INVALID).
Proof.
  intros Hs Ha Hb Hne. unfold handle_registration, get_token_by_hostname.
  rewrite Hsplit, Hs.
  destruct (truthy (token r) && truthy (status r)); [|reflexivity].
  unfold compare_digest. rewrite Ha, Hb. cbn [andb].
  apply str_eqb_neq in Hne. rewrite Hne. reflexivity.
Qed.

Lemma handle_registration_match (r : row) :
  select_hostname (tokens w) h = Some r ->
  is_ascii client_token = true -> token r = client_token ->
  handle_registration w client_socket client_address session_id reg_message
  = if truthy (token r) && truthy (status r) then
      if str_eqb (status r) TOKEN_REVOKED
      then (Ret None, reply_and_close w client_socket TOKEN_REVOKED)
      else if str_eqb (status r) TOKEN_APPROVED
      then (Ret (Some h),
            with_clients w
              (dict.set (clients w) h
                 (mkClient session_id client_socket client_address)))
      else (Ret None, reply_and_close w client_socket TOKEN_INVALID)
    else (Ret None, reply_and_close w client_socket TOKEN_INVALID).
Proof.
  intros Hs Ha He. unfold handle_registration, get_token_by_hostname.
  rewrite Hsplit, Hs.
  destruct (truthy (token r) && truthy (status r)); [|reflexivity].
  unfold compare_digest. rewrite He, Ha. cbn [andb].
  rewrite str_eqb_refl. reflexivity.
Qed.

(** A presented secret that is not ASCII, against a stored record:
    [compare_digest] raises, nothing is sent by [handle_registration]. *)
Lemma handle_registration_non_ascii (r : row) :
  select_hostname (tokens w) h = Some r ->
  token r <> [] -> status r <> [] -> is_ascii client_token = false ->
  handle_registration w client_socket client_address session_id reg_message
  = (Raise TypeError, w).
Proof.
  intros Hs Ht Hst Ha. unfold handle_registration, get_token_by_hostname.
  rewrite Hsplit, Hs.
  destruct (token r); [congruence|]. destruct (status r); [congruence|].
  cbn [truthy andb]. unfold compare_digest. rewrite Ha, andb_false_r.
  reflexivity.
Qed.

End Registration.

(** What a refusal writes on a healthy socket. *)
Lemma reply_and_close_socket (w : world) (fd : nat) (st : str) (b : bytes) :
  utf8_encode (status_message st) = Ret b -> len b < 2 ^ 32 ->
  closed (sockets w fd) = false -> send_fault (sockets w fd) = None ->
  sockets (reply_and_close w fd st) fd
  = mkSocket (inbound (sockets w fd)) (outbound (sockets w fd) ++ frame b)
             None true
  /\ clients (reply_and_close w fd st) = clients w
  /\ tokens (reply_and_close w fd st) = tokens w.
Proof.
  intros He Hl Hc Hf. unfold reply_and_close, close_fd, send_to.
  rewrite (send_message_sent (sockets w fd) (MStr (status_message st)) b
             He Hl Hc Hf).
  cbn [snd with_socket sockets clients tokens]. unfold upd.
  rewrite !Nat.eqb_refl. unfold close.
  cbn [inbound outbound send_fault closed]. rewrite Hf.
  repeat split.
Qed.

Lemma register_no_colon : ~ In 58 MSG_REGISTER.
Proof.
  intros H. cbv in H.
  repeat (destruct H as [H|H]; [discriminate|]). exact H.
Qed.

(** ** The registry *)

Lemma dict_get_set_same (d : registry) (k : str) (v : client_info) :
  dict.get (dict.set d k v) k = Some v.
Proof.
  induction d as [|[k' v'] d IH]; cbn [dict.set dict.get].
  - rewrite str_eqb_refl. reflexivity.
  - destruct (str_eqb k' k) eqn:E; cbn [dict.get]; rewrite E;
      [reflexivity | exact IH].
Qed.


Lemma dict_get_del_same (d : registry) (k : str) :
  dict.get (dict.del d k) k = None.
Proof.
  unfold dict.del.
  induction d as [|[k' v'] d IH]; cbn [filter dict.get fst]; [reflexivity|].
  destruct (str_eqb k' k) eqn:E; cbn [negb]; [exact IH|].
  cbn [dict.get]. rewrite E. exact IH.
Qed.

Lemma dict_get_del_other (d : registry) (k k' : str) :
  k' <> k -> dict.get (dict.del d k) k' = dict.get d k'.
Proof.
  intros Hne. unfold dict.del.
  induction d as [|[k0 v0] d IH]; cbn [filter dict.get fst]; [reflexivity|].
  destruct (str_eqb k0 k) eqn:E; cbn [negb dict.get].
  - apply str_eqb_eq in E. subst k0.
    destruct (str_eqb k k') eqn:E'; [|exact IH].
    apply str_eqb_eq in E'. congruence.
  - destruct (str_eqb k0 k'); [reflexivity | exact IH].
Qed.


Section RegistrationTable.
Import token_manager.

(** C2, as the code has it.  For a message [REGISTER:h:tok] with an
    ASCII secret: without a record, with another secret, or with a
    status that is neither approved nor revoked, the handler sends
    [TOKEN_STATUS:invalid] and closes; with the right secret and status
    revoked it sends [TOKEN_STATUS:revoked] and closes; with the right
    secret and status approved it stores the connection in the registry
    under [h], replacing any entry, and leaves the socket open -- and
    untouched: no reply at all is written in that case. *)
Theorem handle_registration_table (w : world) (fd : nat) (addr : str * Z)
    (sid h tok : str) :
  ~ In 58 h -> is_ascii tok = true -> tok <> [] ->
  let hr := handle_registration w fd addr sid
              (MSG_REGISTER ++ lit ":" ++ h ++ lit ":" ++ tok) in
  (select_hostname (tokens w) h = None ->
   hr = (Ret None, reply_and_close w fd TOKEN_INVALID))
  /\ (forall r, select_hostname (tokens w) h = Some r ->
                is_ascii (token r) = true -> token r <> tok ->
                hr = (Ret None, reply_and_close w fd TOKEN_INVALID))
  /\ (forall r, select_hostname (tokens w) h = Some r -> token r = tok ->
                status r <> TOKEN_APPROVED -> status r <> TOKEN_REVOKED ->
                hr = (Ret None, reply_and_close w fd TOKEN_INVALID))
  /\ (forall r, select_hostname (tokens w) h = Some r -> token r = tok ->
                status r = TOKEN_REVOKED ->
                hr = (Ret None, reply_and_close w fd TOKEN_REVOKED))
  /\ (forall r, select_hostname (tokens w) h = Some r -> token r = tok ->
                status r = TOKEN_APPROVED ->
                hr = (Ret (Some h),
                      with_clients w
                        (dict.set (clients w) h (mkClient sid fd addr)))
                /\ sockets (snd hr) = sockets w
                /\ dict.get (clients (snd hr)) h
                   = Some (mkClient sid fd addr))
  /\ (closed (sockets w fd) = false -> send_fault (sockets w fd) = None ->
      forall st, st = TOKEN_INVALID \/ st = TOKEN_REVOKED ->
        sockets (reply_and_close w fd st) fd
        = mkSocket (inbound (sockets w fd))
            (outbound (sockets w fd) ++ frame (bytes_of (status_message st)))
            None true
        /\ clients (reply_and_close w fd st) = clients w).
Proof.
  intros Hh Ha Hne hr. subst hr.
  pose proof (split_register MSG_REGISTER h tok register_no_colon Hh)
    as Hsplit.
  split; [|split; [|split; [|split; [|split]]]].
  - intros Hs.
    apply (handle_registration_no_record w fd addr sid _
             MSG_REGISTER h tok Hsplit Hs).
  - intros r Hs Har Hr.
    apply (handle_registration_mismatch w fd addr sid _
             MSG_REGISTER h tok Hsplit r Hs Har Ha Hr).
  - intros r Hs Ht H1 H2.
    rewrite (handle_registration_match w fd addr sid _
               MSG_REGISTER h tok Hsplit r Hs Ha Ht).
    apply str_eqb_neq in H1. apply str_eqb_neq in H2. rewrite H1, H2.
    destruct (truthy (token r) && truthy (status r)); reflexivity.
  - intros r Hs Ht H1.
    rewrite (handle_registration_match w fd addr sid _
               MSG_REGISTER h tok Hsplit r Hs Ha Ht).
    rewrite Ht, H1. destruct tok; [congruence|]. reflexivity.
  - intros r Hs Ht H1.
    rewrite (handle_registration_match w fd addr sid _
               MSG_REGISTER h tok Hsplit r Hs Ha Ht).
    rewrite Ht, H1. destruct tok; [congruence|].
    cbn [truthy andb str_eqb]. split; [reflexivity|].
    cbn [snd with_clients sockets clients]. split; [reflexivity|].
    apply dict_get_set_same.
  - intros Hc Hf st [-> | ->].
    + destruct (reply_and_close_socket w fd TOKEN_INVALID
                  (bytes_of (status_message TOKEN_INVALID)))
        as (E1 & E2 & _); try assumption; try reflexivity.
      split; assumption.
    + destruct (reply_and_close_socket w fd TOKEN_REVOKED
                  (bytes_of (status_message TOKEN_REVOKED)))
        as (E1 & E2 & _); try assumption; try reflexivity.
      split; assumption.
Qed.

End RegistrationTable.

Lemma handle_registration_table_witness :
  handle_registration Scenario.world_reg 1 Scenario.addr1 Scenario.sid1
    Scenario.register_A
  = (Ret (Some Scenario.hostA),
     with_clients Scenario.world_reg
       (dict.set (clients Scenario.world_reg) Scenario.hostA
          (mkClient Scenario.sid1 1 Scenario.addr1)))
  /\ sockets (snd (handle_registration Scenario.world_reg 1 Scenario.addr1
                     Scenario.sid1 Scenario.register_A))
     = sockets Scenario.world_reg
  /\ dict.get (clients (snd (handle_registration Scenario.world_reg 1
                               Scenario.addr1 Scenario.sid1
                               Scenario.register_A))) Scenario.hostA
     = Some (mkClient Scenario.sid1 1 Scenario.addr1).
Proof.
  apply (proj1 (proj2 (proj2 (proj2 (proj2
           (handle_registration_table Scenario.world_reg 1 Scenario.addr1
              Scenario.sid1 Scenario.hostA Scenario.tokA
              ltac:(intros [H|[]]; discriminate) eq_refl
              ltac:(discriminate))))))
           Scenario.row_approved); reflexivity.
Defined.

(** C2 at the failing input: [hostA] is approved and registers with its
    secret.  The connection is registered and stays open, and the bytes
    written to it are still none: the peer gets no APPROVED reply. *)
Lemma handle_registration_approved_silent :
  fst (handle_registration Scenario.world_reg 1 Scenario.addr1
         Scenario.sid1 Scenario.register_A) = Ret (Some Scenario.hostA)
  /\ outbound (sockets (snd (handle_registration Scenario.world_reg 1
                               Scenario.addr1 Scenario.sid1
                               Scenario.register_A)) 1) = []
  /\ closed (sockets (snd (handle_registration Scenario.world_reg 1
                             Scenario.addr1 Scenario.sid1
                             Scenario.register_A)) 1) = false.
Proof. repeat split. Qed.

(** ** The idle handler and the dispatcher *)

Lemma steps_idle (n : nat) (w : world) (fd : nat) (h : str) :
  steps n w (Idle fd h) = (Idle fd h, w).
Proof. induction n as [|n IH]; cbn [steps step]; [reflexivity | exact IH]. Qed.

Lemma send_message_faulty (sock : socket) (m : message) (msg : str) :
  send_fault sock = Some msg -> send_message sock m = (false, sock).
Proof.
  intros Hf. unfold send_message, send_message_try.
  destruct (payload_of m) as [payload|e]; [|reflexivity].
  destruct (struct_pack_I (len payload)) as [header|e]; [|reflexivity].
  unfold sendall. destruct (closed sock); [reflexivity|].
  rewrite Hf. reflexivity.
Qed.

(** No step of a handler thread writes to the registry: the only
    writer is the registration itself. *)
Lemma clients_send_to (w : world) (fd : nat) (text : str) :
  clients (snd (send_to w fd text)) = clients w.
Proof. unfold send_to. destruct (send_message _ _). reflexivity. Qed.

Lemma clients_status_reply (w : world) (fd : nat) (h : str) :
  clients (snd (status_reply w fd h)) = clients w.
Proof.
  unfold status_reply.
  destruct (token_manager.get_token_by_hostname (tokens w) h) as [tok [st|]];
    [|apply clients_send_to].
  destruct (str_eqb st TOKEN_APPROVED); [apply clients_send_to|].
  destruct (str_eqb st TOKEN_DENIED); [apply clients_send_to|].
  destruct (str_eqb st TOKEN_PENDING); apply clients_send_to.
Qed.

Lemma clients_poll_once (w : world) (fd : nat) (h : str) :
  clients (snd (poll_once w fd h)) = clients w.
Proof.
  unfold poll_once.
  destruct (recv_message (sockets w fd)) as [[[[|c m]|]|e] s'];
    try reflexivity.
  destruct (startswith (c :: m) MSG_TOKEN_REQUEST); [|reflexivity].
  destruct (is_status_check _); [|reflexivity].
  rewrite clients_status_reply. reflexivity.
Qed.

Lemma clients_step (w : world) (t : thread) :
  clients (snd (step w t)) = clients w.
Proof.
  destruct t as [fd h|fd h|]; cbn [step snd]; try reflexivity.
  pose proof (clients_poll_once w fd h) as H.
  destruct (poll_once w fd h) as [[] w']; exact H.
Qed.

Lemma clients_steps (n : nat) :
  forall (w : world) (t : thread), clients (snd (steps n w t)) = clients w.
Proof.
  induction n as [|n IH]; intros w t; cbn [steps]; [reflexivity|].
  pose proof (clients_step w t) as H.
  destruct (step w t) as [t' w']. rewrite IH. exact H.
Qed.

(** C3, what the code does instead.  Once a handler is in its idle
    loop, it only sleeps: whatever happens to the transport, no number
    of its steps changes the world, so the registry entry of its
    endpoint stays.  After the transport has closed, a dispatch to that
    endpoint does find the entry; it fails on the send and returns
    ["Failed to send command"], not the not-found error.  No step of
    any other handler thread removes the entry either. *)
Theorem idle_handler_never_unregisters (w : world) (fd : nat)
    (h command : str) (info : client_info) (n : nat) :
  dict.get (clients w) h = Some info -> socket_fd info = fd ->
  let w' := with_socket w fd (transport_closed (sockets w fd)) in
  steps n w' (Idle fd h) = (Idle fd h, w')
  /\ dict.get (clients (snd (steps n w' (Idle fd h)))) h = Some info
  /\ fst (send_command_to_client (snd (steps n w' (Idle fd h))) h command)
     = (None, lit "Failed to send command")
  /\ fst (send_command_to_client (snd (steps n w' (Idle fd h))) h command)
     <> (None, NOT_FOUND)
  /\ forall t, dict.get (clients (snd (steps n w' t))) h = Some info.
Proof.
  intros Hg Hfd w'.
  assert (Hall : forall t,
             dict.get (clients (snd (steps n w' t))) h = Some info)
    by (intros t; rewrite clients_steps; exact Hg).
  rewrite steps_idle. cbn [snd].
  assert (E : fst (send_command_to_client w' h command)
              = (None, lit "Failed to send command")).
  { unfold send_command_to_client. subst w'. cbn [clients with_socket].
    rewrite Hg, Hfd. unfold send_to. cbn [sockets with_socket]. unfold upd.
    cbv beta. rewrite Nat.eqb_refl.
    rewrite (send_message_faulty _ _ (lit "Broken pipe")); reflexivity. }
  repeat split; try assumption. rewrite E. discriminate.
Qed.

Lemma idle_handler_never_unregisters_witness :
  fst (handle_client Scenario.world_reg 1 Scenario.addr1 Scenario.sid1 0 [])
  = Idle 1 Scenario.hostA
  /\ let w := snd (handle_client Scenario.world_reg 1 Scenario.addr1
                     Scenario.sid1 0 []) in
     let w' := with_socket w 1 (transport_closed (sockets w 1)) in
     steps 1000 w' (Idle 1 Scenario.hostA) = (Idle 1 Scenario.hostA, w')
     /\ dict.get (clients (snd (steps 1000 w' (Idle 1 Scenario.hostA))))
          Scenario.hostA
        = Some (mkClient Scenario.sid1 1 Scenario.addr1)
     /\ fst (send_command_to_client
               (snd (steps 1000 w' (Idle 1 Scenario.hostA)))
               Scenario.hostA (lit "echo hi"))
        = (None, lit "Failed to send command")
     /\ fst (send_command_to_client
               (snd (steps 1000 w' (Idle 1 Scenario.hostA)))
               Scenario.hostA (lit "echo hi"))
        <> (None, NOT_FOUND)
     /\ forall t,
          dict.get (clients (snd (steps 1000 w' t))) Scenario.hostA
          = Some (mkClient Scenario.sid1 1 Scenario.addr1).
Proof.
  split; [reflexivity|].
  apply (idle_handler_never_unregisters
           (snd (handle_client Scenario.world_reg 1 Scenario.addr1
                   Scenario.sid1 0 []))
           1 Scenario.hostA (lit "echo hi")
           (mkClient Scenario.sid1 1 Scenario.addr1) 1000);
    reflexivity.
Defined.

(** ** Teardown *)







(** * Further properties *)

(** ** [recv_exact] on any socket *)

Lemma len_take_le {A} (k : Z) (l : list A) : 0 <= k -> len (take k l) <= k.
Proof.
  revert k; induction l as [|x l IH]; intros k Hk; cbn [take].
  - rewrite len_nil. exact Hk.
  - destruct (Z.leb_spec k 0); [rewrite len_nil; lia|].
    rewrite len_cons. specialize (IH (k - 1)). lia.
Qed.

Lemma recv_chunk (sock sock' : socket) (k : Z) (chunk : bytes) :
  0 <= k -> recv sock k = (Ret chunk, sock') ->
  len chunk <= k /\ outbound sock' = outbound sock
  /\ send_fault sock' = send_fault sock /\ closed sock' = closed sock.
Proof.
  intros Hk. unfold recv. destruct (closed sock) eqn:Ec; [discriminate|].
  destruct (inbound sock) as [|[d| |msg] rest]; try discriminate.
  - intros [= <- <-]. rewrite len_nil. auto.
  - intros [= <- <-]. cbn [outbound send_fault closed].
    split; [apply len_take_le; exact Hk | auto].
Qed.

Lemma recv_exact_loop_length (fuel : nat) :
  forall (sock sock' : socket) (n : Z) (data got : bytes),
    len data <= n ->
    recv_exact_loop fuel sock n data = Some (Ret (Some got), sock') ->
    len got = n /\ outbound sock' = outbound sock
    /\ send_fault sock' = send_fault sock /\ closed sock' = closed sock.
Proof.
  induction fuel as [|fuel IH]; intros sock sock' n data got Hle;
    cbn [recv_exact_loop];
    destruct (Z.ltb_spec (len data) n); try discriminate;
    try (intros [= <- <-]; repeat split; lia).
  destruct (recv sock (n - len data)) as [[chunk|e] s1] eqn:Er;
    [|discriminate].
  destruct (recv_chunk sock s1 (n - len data) chunk ltac:(lia) Er)
    as (Hc & Ho & Hf & Hcl).
  destruct chunk as [|c chunk]; [discriminate|].
  intros E. apply IH in E; [|rewrite len_app; lia].
  destruct E as (E1 & E2 & E3 & E4). repeat split; congruence.
Qed.

(** X1.  Whenever [recv_exact(sock, n)] returns data, it returns
    exactly [n] bytes, on any socket and however the bytes arrive; and
    reading never writes to the socket nor closes it. *)
Theorem recv_exact_exact_length (sock sock' : socket) (n : Z) (got : bytes) :
  0 <= n -> recv_exact sock n = (Ret (Some got), sock') ->
  len got = n /\ outbound sock' = outbound sock
  /\ send_fault sock' = send_fault sock /\ closed sock' = closed sock.
Proof.
  intros Hn E.
  apply (recv_exact_loop_length (S (List.length (inbound sock))) sock sock'
           n [] got); [rewrite len_nil; exact Hn|].
  rewrite recv_exact_unfold, E. reflexivity.
Qed.

Lemma recv_exact_exact_length_witness :
  len [x41; x42] = 2
  /\ outbound (mkSocket [Seg [x43]; Seg [x44]] [x01] None false) = [x01]
  /\ send_fault (mkSocket [Seg [x43]; Seg [x44]] [x01] None false) = None
  /\ closed (mkSocket [Seg [x43]; Seg [x44]] [x01] None false) = false.
Proof.
  apply (recv_exact_exact_length
           (mkSocket [Seg [x41]; Seg [x42; x43]; Seg [x44]] [x01] None false)
           (mkSocket [Seg [x43]; Seg [x44]] [x01] None false) 2 [x41; x42]);
    [lia | reflexivity].
Defined.

(** ** What [recv_message] can return *)

Lemma scalar_replacement : scalar REPLACEMENT.
Proof. unfold scalar, REPLACEMENT. lia. Qed.

Ltac range_cases :=
  repeat match goal with
         | H : in_range _ _ _ = true |- _ => apply in_range_true in H
         | H : in_range _ _ _ = false |- _ => apply in_range_false in H
         | H : is_cont _ = true |- _ =>
             unfold is_cont in H; apply in_range_true in H
         | H : is_cont _ = false |- _ => clear H
         end.

(** Every character that the decoder produces is a scalar value. *)
Lemma utf8_decode_scalar (n : nat) :
  forall b : bytes, (List.length b <= n)%nat -> Forall scalar (utf8_decode b).
Proof.
  induction n as [|n IH]; intros b Hn.
  { destruct b; [constructor | inversion Hn]. }
  destruct b as [|b0 r0]; [constructor|].
  cbn [List.length] in Hn. cbn [utf8_decode]. cbv zeta.
  pose proof (Z_of_byte_range b0) as R0.
  destruct (Z.ltb_spec (Z_of_byte b0) 128).
  { constructor; [unfold scalar; lia | apply IH; lia]. }
  assert (Hrep : forall l : bytes, (List.length l <= n)%nat ->
                   Forall scalar (REPLACEMENT :: utf8_decode l))
    by (intros l Hl; constructor; [apply scalar_replacement | apply IH; exact Hl]).
  assert (Hone : Forall scalar [REPLACEMENT])
    by (constructor; [apply scalar_replacement | constructor]).
  destruct (in_range 194 223 (Z_of_byte b0)) eqn:E2.
  { destruct r0 as [|b1 r1]; [exact Hone|]. cbn [List.length] in Hn.
    pose proof (Z_of_byte_range b1).
    destruct (is_cont b1) eqn:C1; [|apply Hrep; cbn [List.length]; lia].
    range_cases. constructor; [|apply IH; lia].
    unfold scalar, low6. lia. }
  destruct (in_range 224 239 (Z_of_byte b0)) eqn:E3.
  { destruct r0 as [|b1 r1]; [exact Hone|]. cbn [List.length] in Hn.
    pose proof (Z_of_byte_range b1).
    destruct (in_range _ _ (Z_of_byte b1)) eqn:S1;
      [|apply Hrep; cbn [List.length]; lia].
    destruct r1 as [|b2 r2]; [exact Hone|]. cbn [List.length] in Hn.
    pose proof (Z_of_byte_range b2).
    destruct (is_cont b2) eqn:C2; [|apply Hrep; cbn [List.length]; lia].
    range_cases. constructor; [|apply IH; lia].
    unfold scalar, low6. unfold second_lo, second_hi in S1.
    destruct (Z.eqb_spec (Z_of_byte b0) 224);
      destruct (Z.eqb_spec (Z_of_byte b0) 240);
      destruct (Z.eqb_spec (Z_of_byte b0) 237);
      destruct (Z.eqb_spec (Z_of_byte b0) 244); lia. }
  destruct (in_range 240 244 (Z_of_byte b0)) eqn:E4;
    [|apply Hrep; lia].
  destruct r0 as [|b1 r1]; [exact Hone|]. cbn [List.length] in Hn.
  pose proof (Z_of_byte_range b1).
  destruct (in_range _ _ (Z_of_byte b1)) eqn:S1;
    [|apply Hrep; cbn [List.length]; lia].
  destruct r1 as [|b2 r2]; [exact Hone|]. cbn [List.length] in Hn.
  pose proof (Z_of_byte_range b2).
  destruct (is_cont b2) eqn:C2; [|apply Hrep; cbn [List.length]; lia].
  destruct r2 as [|b3 r3]; [exact Hone|]. cbn [List.length] in Hn.
  pose proof (Z_of_byte_range b3).
  destruct (is_cont b3) eqn:C3; [|apply Hrep; cbn [List.length]; lia].
  range_cases. constructor; [|apply IH; lia].
  unfold scalar, low6. unfold second_lo, second_hi in S1.
  destruct (Z.eqb_spec (Z_of_byte b0) 224);
    destruct (Z.eqb_spec (Z_of_byte b0) 240);
    destruct (Z.eqb_spec (Z_of_byte b0) 237);
    destruct (Z.eqb_spec (Z_of_byte b0) 244); lia.
Qed.

Lemma utf8_decode_nonempty (b : bytes) : b <> [] -> utf8_decode b <> [].
Proof.
  destruct b as [|b0 r0]; [congruence|]. intros _.
  cbn [utf8_decode]. cbv zeta.
  repeat match goal with
         | |- (if ?c then _ else _) <> [] => destruct c
         | |- match ?l with [] => _ | _ :: _ => _ end <> [] => destruct l
         end; discriminate.
Qed.

Lemma recv_message_inversion (sock sock' : socket) (s : str) :
  recv_message sock = (Ret (Some s), sock') ->
  exists payload, payload <> [] /\ s = utf8_decode payload.
Proof.
  unfold recv_message, recv_message_try.
  destruct (recv_exact sock 4) as [[[[|h0 hd]|]|e] s1];
    try (destruct e; discriminate); try discriminate.
  destruct (struct_unpack_I (h0 :: hd)) as [n|e];
    [|destruct e; discriminate].
  destruct (n >? MAX_MESSAGE_SIZE); [discriminate|].
  destruct (recv_exact s1 n) as [[[[|p0 pd]|]|e] s2];
    try (destruct e; discriminate); try discriminate.
  intros [= <- <-]. exists (p0 :: pd). split; [discriminate | reflexivity].
Qed.

(** X2.  A text returned by [recv_message] is never empty and can
    always be encoded again: whatever bytes the peer sent, passing the
    received text to [send_message] cannot fail on the encoding. *)
Theorem recv_message_text_resendable (sock sock' : socket) (s : str) :
  recv_message sock = (Ret (Some s), sock') ->
  s <> [] /\ exists b, payload_of (MStr s) = Ret b.
Proof.
  intros E. destruct (recv_message_inversion sock sock' s E)
    as (payload & Hne & ->).
  split; [apply utf8_decode_nonempty; exact Hne|].
  cbn [payload_of]. apply scalars_encode.
  apply (utf8_decode_scalar (List.length payload)). lia.
Qed.

Lemma recv_message_text_resendable_witness :
  [REPLACEMENT; 65] <> []
  /\ exists b, payload_of (MStr [REPLACEMENT; 65]) = Ret b.
Proof.
  apply (recv_message_text_resendable
           (fresh_socket [[x00; x00; x00; x02; xff; x41]])
           (mkSocket [] [] None false) [REPLACEMENT; 65]).
  reflexivity.
Defined.

(** ** Consecutive frames *)

Lemma recv_message_frame_rest (sock : socket) (segs : list bytes)
    (payload extra : bytes) :
  closed sock = false -> inbound sock = map Seg segs ->
  Forall nonempty segs -> 0 < len payload <= MAX_MESSAGE_SIZE ->
  List.concat segs = frame payload ++ extra ->
  exists segs',
    recv_message sock
    = (Ret (Some (utf8_decode payload)),
       mkSocket (map Seg segs') (outbound sock) (send_fault sock) false)
    /\ Forall nonempty segs' /\ List.concat segs' = extra.
Proof.
  intros Hc Hin Hne Hl Hcat. unfold frame in Hcat.
  destruct (struct_pack_ok (len payload)) as [header Hh];
    [unfold MAX_MESSAGE_SIZE in Hl; lia|].
  rewrite Hh in Hcat. pose proof (struct_pack_length _ _ Hh) as H4.
  pose proof (struct_unpack_pack _ _ Hh) as Hu.
  pose proof (len_nonneg extra).
  destruct (recv_exact_segments segs sock 4 Hc Hin Hne)
    as (segs1 & E1 & Hne1 & Hcat1).
  { rewrite Hcat, !len_app, H4. lia. }
  rewrite Hcat, <- app_assoc, take_app_le, drop_app_le in * by lia.
  rewrite H4 in *. rewrite take_nonpos, drop_nonpos, app_nil_r in * by lia.
  destruct (recv_exact_segments segs1
              (mkSocket (map Seg segs1) (outbound sock) (send_fault sock)
                        false) (len payload))
    as (segs2 & E2 & Hne2 & Hcat2);
    [reflexivity | reflexivity | assumption
     | rewrite Hcat1, len_app; lia |].
  rewrite Hcat1 in E2, Hcat2.
  rewrite take_app_le, Z.sub_diag, take_nonpos, app_nil_r in E2 by lia.
  rewrite drop_app_le, Z.sub_diag, drop_nonpos in Hcat2 by lia.
  unfold recv_message, recv_message_try. rewrite E1.
  destruct header as [|b0 header]; [discriminate|].
  rewrite Hu. destruct (Z.gtb_spec (len payload) MAX_MESSAGE_SIZE); [lia|].
  rewrite E2.
  destruct payload as [|p0 payload];
    [exfalso; cbv [len List.length] in *; lia|].
  exists segs2. repeat split; assumption.
Qed.

(** X3.  Frames are self-delimiting.  When two frames arrive back to
    back, cut into segments in any way, the first [recv_message] call
    returns the first payload and the second call the second one; what
    follows stays in the stream. *)
Theorem recv_message_in_order (sock : socket) (segs : list bytes)
    (p1 p2 extra : bytes) :
  closed sock = false -> inbound sock = map Seg segs ->
  Forall nonempty segs ->
  0 < len p1 <= MAX_MESSAGE_SIZE -> 0 < len p2 <= MAX_MESSAGE_SIZE ->
  List.concat segs = frame p1 ++ frame p2 ++ extra ->
  exists sock1 sock2 segs2,
    recv_message sock = (Ret (Some (utf8_decode p1)), sock1)
    /\ recv_message sock1 = (Ret (Some (utf8_decode p2)), sock2)
    /\ inbound sock2 = map Seg segs2 /\ List.concat segs2 = extra.
Proof.
  intros Hc Hin Hne H1 H2 Hcat.
  destruct (recv_message_frame_rest sock segs p1 (frame p2 ++ extra))
    as (segs1 & E1 & Hne1 & Hcat1); try assumption.
  destruct (recv_message_frame_rest
              (mkSocket (map Seg segs1) (outbound sock) (send_fault sock)
                        false) segs1 p2 extra)
    as (segs2 & E2 & Hne2 & Hcat2); try assumption; try reflexivity.
  eexists. eexists. exists segs2.
  split; [exact E1|]. split; [exact E2|]. split; [reflexivity | exact Hcat2].
Qed.

Lemma recv_message_in_order_witness :
  exists sock1 sock2 segs2,
    recv_message
      (fresh_socket [[x00; x00; x00]; [x01; x41; x00; x00]; [x00; x02; x42];
                     [x43; x44]])
    = (Ret (Some (utf8_decode [x41])), sock1)
    /\ recv_message sock1 = (Ret (Some (utf8_decode [x42; x43])), sock2)
    /\ inbound sock2 = map Seg segs2 /\ List.concat segs2 = [x44].
Proof.
  apply (recv_message_in_order
           (fresh_socket [[x00; x00; x00]; [x01; x41; x00; x00];
                          [x00; x02; x42]; [x43; x44]])
           [[x00; x00; x00]; [x01; x41; x00; x00]; [x00; x02; x42];
            [x43; x44]] [x41] [x42; x43] [x44]);
    try reflexivity.
  - repeat constructor; discriminate.
  - split; [reflexivity | discriminate].
  - split; [reflexivity | discriminate].
Defined.

(** ** Generated secrets *)

Lemma hex_digit_char (d : Z) : 0 <= d < 16 -> hex_char (hex_digit d).
Proof.
  intros H. unfold hex_char, hex_digit.
  destruct (Z.ltb_spec d 10); lia.
Qed.

(** X4.  A generated secret has two characters for each byte of
    entropy (64 for the 32 bytes drawn), all of them lower-case
    hexadecimal digits; so it is ASCII and [compare_digest] accepts
    it. *)
Theorem generate_token_shape (rnd : bytes) :
  len (generate_token rnd) = 2 * len rnd
  /\ Forall hex_char (generate_token rnd)
  /\ is_ascii (generate_token rnd) = true.
Proof.
  unfold generate_token. induction rnd as [|x rnd (IH1 & IH2 & IH3)].
  - repeat split. constructor.
  - cbn [hexlify]. pose proof (Z_of_byte_range x).
    assert (Hh : hex_char (hex_digit (Z_of_byte x / 16)))
      by (apply hex_digit_char; zdm).
    assert (Hl : hex_char (hex_digit (Z_of_byte x mod 16)))
      by (apply hex_digit_char; zdm).
    repeat split.
    + rewrite !len_cons, IH1. lia.
    + constructor; [exact Hh|]. constructor; [exact Hl | exact IH2].
    + cbn [is_ascii forallb]. unfold hex_char in Hh, Hl.
      destruct (Z.ltb_spec (hex_digit (Z_of_byte x / 16)) 128); [|lia].
      destruct (Z.ltb_spec (hex_digit (Z_of_byte x mod 16)) 128); [|lia].
      exact IH3.
Qed.

(** ** The table keeps one row per hostname *)

Section Unique.
Import token_manager.

Lemma map_hostname_update (f : row -> row) (db : table) (h : str) :
  (forall r, hostname (f r) = hostname r) ->
  map hostname (update_hostname f db h) = map hostname db.
Proof.
  intros Hf. unfold update_hostname. rewrite map_map. apply map_ext.
  intros r. destruct (str_eqb (hostname r) h); [apply Hf | reflexivity].
Qed.

Lemma select_none_not_in (db : table) (h : str) :
  select_hostname db h = None -> ~ In h (map hostname db).
Proof.
  induction db as [|r db IH]; cbn [select_hostname map In]; [tauto|].
  destruct (str_eqb (hostname r) h) eqn:E; [discriminate|].
  apply str_eqb_neq in E. intros Hs [H|H]; [congruence | exact (IH Hs H)].
Qed.

(** Dropping entries keeps the keys of the others distinct. *)
Lemma filter_keeps_distinct {K V} (key : V -> K) (keep : V -> bool) :
  forall rows : list V,
    NoDup (map key rows) -> NoDup (map key (filter keep rows)).
Proof.
  intros rows. induction rows as [|a l IH]; cbn [map filter];
    [intros; constructor|].
  intros H. inversion H as [|? ? Hn Hd]; subst.
  destruct (keep a); [|apply IH; exact Hd].
  cbn [map]. constructor; [|apply IH; exact Hd].
  intros Hin. apply Hn. apply in_map_iff in Hin.
  destruct Hin as (x & Hx & Hf). apply filter_In in Hf.
  apply in_map_iff. exists x. tauto.
Qed.

Lemma unique_insert (db db' : table) (r : row) :
  unique_hostnames db -> insert db r = Some db' -> unique_hostnames db'.
Proof.
  unfold insert, unique_hostnames. intros Hu.
  destruct (select_hostname db (hostname r)) eqn:Hs; [discriminate|].
  intros [= <-]. rewrite map_app. cbn [map].
  apply NoDup_app; [exact Hu | repeat constructor; intros [] |].
  intros x Hx [<-|[]]. exact (select_none_not_in db _ Hs Hx).
Qed.

(** X5.  Every operation of the token store keeps the hostnames of the
    table distinct: requesting, approving, denying, revoking, deleting
    and adding a token by hand. *)
Theorem unique_hostnames_kept (db : table) (h ip : str) (now : Z)
    (rnd : bytes) :
  unique_hostnames db ->
  unique_hostnames (snd (request_token db h ip now rnd))
  /\ unique_hostnames (snd (approve_token db h now))
  /\ unique_hostnames (snd (deny_token db h))
  /\ unique_hostnames (snd (revoke_token db h now))
  /\ unique_hostnames (snd (delete_token db h))
  /\ unique_hostnames (snd (add_token_manual db h now rnd)).
Proof.
  intros Hu.
  assert (Hupd : forall f, (forall r, hostname (f r) = hostname r) ->
                   unique_hostnames (update_hostname f db h))
    by (intros f Hf; unfold unique_hostnames;
        rewrite map_hostname_update by exact Hf; exact Hu).
  repeat split.
  - unfold request_token. destruct (select_hostname db h) as [r|].
    + destruct (str_eqb (status r) (lit "approved")); [exact Hu|].
      destruct (str_eqb (status r) (lit "pending")); [exact Hu|].
      apply Hupd. reflexivity.
    + destruct (insert db _) as [db'|] eqn:Ei; [|exact Hu].
      exact (unique_insert db db' _ Hu Ei).
  - unfold approve_token. destruct (select_hostname db h) as [r|];
      [|exact Hu].
    destruct (str_eqb (status r) (lit "approved")); [exact Hu|].
    apply Hupd. reflexivity.
  - apply Hupd. reflexivity.
  - apply Hupd. reflexivity.
  - unfold delete_token, unique_hostnames. cbn [snd].
    apply filter_keeps_distinct. exact Hu.
  - unfold add_token_manual. destruct (select_hostname db h) as [r|].
    + cbn [snd]. destruct (negb _); [apply Hupd; reflexivity | exact Hu].
    + destruct (insert db _) as [db'|] eqn:Ei; [|exact Hu].
      exact (unique_insert db db' _ Hu Ei).
Qed.

(** ** Requesting a token *)

(** X6.  [request_token] never returns its error triple: it always
    succeeds, the status it returns is approved or pending, and the
    secret and status it returns are the ones that a lookup of the
    hostname finds afterwards. *)
Theorem request_token_returns_stored (db : table) (h ip : str) (now : Z)
    (rnd : bytes) :
  exists tok st,
    fst (request_token db h ip now rnd) = (true, Some tok, st)
    /\ (st = TOKEN_APPROVED \/ st = TOKEN_PENDING)
    /\ get_token_by_hostname (snd (request_token db h ip now rnd)) h
       = (Some tok, Some st).
Proof.
  unfold request_token, get_token_by_hostname.
  destruct (select_hostname db h) as [r|] eqn:Hs.
  - destruct (str_eqb (status r) (lit "approved")) eqn:Ea.
    { apply str_eqb_eq in Ea. exists (token r), (lit "approved").
      cbn [fst snd]. rewrite Hs, Ea. auto. }
    destruct (str_eqb (status r) (lit "pending")) eqn:Ep.
    { apply str_eqb_eq in Ep. exists (token r), (lit "pending").
      cbn [fst snd]. rewrite Hs, Ep. auto. }
    exists (generate_token rnd), (lit "pending"). cbn [fst snd].
    rewrite select_update_same by reflexivity. rewrite Hs. auto.
  - unfold insert. cbn [hostname]. rewrite Hs.
    exists (generate_token rnd), (lit "pending"). cbn [fst snd].
    pose proof (select_app_new db
                  (mkRow h (generate_token rnd) (lit "pending") (Some ip) now
                         None None) Hs) as E.
    cbn [hostname] in E. rewrite E. auto.
Qed.

(** ** Approving *)

(** X7.  [approve_token] on a missing hostname fails and changes
    nothing.  On an existing record, whatever its status, it returns
    the stored secret and the record is approved with that same secret
    afterwards; approving again returns the same secret and leaves the
    table as it is; records of other hostnames are never touched. *)
Theorem approve_token_idempotent (db : table) (h : str) (now now' : Z) :
  (select_hostname db h = None ->
   approve_token db h now = ((false, None), db))
  /\ (forall r,
         select_hostname db h = Some r ->
         fst (approve_token db h now) = (true, Some (token r))
         /\ get_token_by_hostname (snd (approve_token db h now)) h
            = (Some (token r), Some TOKEN_APPROVED)
         /\ approve_token (snd (approve_token db h now)) h now'
            = ((true, Some (token r)), snd (approve_token db h now)))
  /\ (forall h', h' <> h ->
         select_hostname (snd (approve_token db h now)) h'
         = select_hostname db h').
Proof.
  split; [|split].
  - intros Hs. unfold approve_token. rewrite Hs. reflexivity.
  - intros r Hs.
    destruct (str_eqb (status r) (lit "approved")) eqn:Ea.
    + assert (E : approve_token db h now = ((true, Some (token r)), db))
        by (unfold approve_token; rewrite Hs, Ea; reflexivity).
      rewrite E. cbn [fst snd]. split; [reflexivity|]. split.
      * unfold get_token_by_hostname. rewrite Hs.
        apply str_eqb_eq in Ea. rewrite Ea. reflexivity.
      * unfold approve_token. rewrite Hs, Ea. reflexivity.
    + assert (E : approve_token db h now
                  = ((true, Some (token r)),
                     update_hostname
                       (fun r => mkRow (hostname r) (token r)
                                   (lit "approved") (ip_address r)
                                   (requested_at r) (Some now)
                                   (revoked_at r)) db h))
        by (unfold approve_token; rewrite Hs, Ea; reflexivity).
      rewrite E. cbn [fst snd]. split; [reflexivity|]. split.
      * unfold get_token_by_hostname.
        rewrite select_update_same by reflexivity. rewrite Hs. reflexivity.
      * unfold approve_token.
        rewrite select_update_same by reflexivity. rewrite Hs.
        cbn [option_map status token]. rewrite str_eqb_refl. reflexivity.
  - intros h' Hne. unfold approve_token.
    destruct (select_hostname db h) as [r|]; [|reflexivity].
    destruct (str_eqb (status r) (lit "approved")); [reflexivity|].
    cbn [snd]. apply select_update_other; [reflexivity | exact Hne].
Qed.

(** ** Deleting *)

Lemma select_filter_other (db : table) (h h' : str) :
  h' <> h ->
  select_hostname (filter (fun r => negb (str_eqb (hostname r) h)) db) h'
  = select_hostname db h'.
Proof.
  intros Hne. induction db as [|r db IH]; cbn [filter select_hostname];
    [reflexivity|].
  destruct (str_eqb (hostname r) h) eqn:E; cbn [negb select_hostname].
  - apply str_eqb_eq in E.
    destruct (str_eqb (hostname r) h') eqn:E'; [|exact IH].
    apply str_eqb_eq in E'. congruence.
  - destruct (str_eqb (hostname r) h'); [reflexivity | exact IH].
Qed.

Lemma select_filter_same (db : table) (h : str) :
  select_hostname (filter (fun r => negb (str_eqb (hostname r) h)) db) h
  = None.
Proof.
  induction db as [|r db IH]; cbn [filter select_hostname]; [reflexivity|].
  destruct (str_eqb (hostname r) h) eqn:E; cbn [negb select_hostname];
    [exact IH|]. rewrite E. exact IH.
Qed.

(** X8.  [delete_token] reports whether a record existed; afterwards a
    lookup of the hostname finds nothing, the other records are as
    before, and the next request of that endpoint starts over: a new
    pending record with the newly generated secret. *)
Theorem delete_token_forgets (db : table) (h : str) :
  fst (delete_token db h)
  = match select_hostname db h with Some _ => true | None => false end
  /\ get_token_by_hostname (snd (delete_token db h)) h = (None, None)
  /\ (forall h', h' <> h ->
         select_hostname (snd (delete_token db h)) h'
         = select_hostname db h')
  /\ (forall ip now rnd,
         fst (request_token (snd (delete_token db h)) h ip now rnd)
         = (true, Some (generate_token rnd), TOKEN_PENDING)).
Proof.
  unfold delete_token, get_token_by_hostname. cbn [fst snd].
  split; [apply rowcount_pos|].
  rewrite select_filter_same.
  split; [reflexivity|]. split; [intros h' Hne; apply select_filter_other; exact Hne|].
  intros ip now rnd. unfold request_token, insert. cbn [hostname].
  rewrite select_filter_same. reflexivity.
Qed.

End Unique.

Lemma unique_hostnames_kept_witness :
  unique_hostnames
    (snd (token_manager.request_token
            [Scenario.row_revoked; Scenario.row_five] Scenario.hostA
            Scenario.ipA 200 Scenario.rnd2))
  /\ unique_hostnames
       (snd (token_manager.approve_token
               [Scenario.row_revoked; Scenario.row_five] Scenario.hostA 200))
  /\ unique_hostnames
       (snd (token_manager.deny_token
               [Scenario.row_revoked; Scenario.row_five] Scenario.hostA))
  /\ unique_hostnames
       (snd (token_manager.revoke_token
               [Scenario.row_revoked; Scenario.row_five] Scenario.hostA 200))
  /\ unique_hostnames
       (snd (token_manager.delete_token
               [Scenario.row_revoked; Scenario.row_five] Scenario.hostA))
  /\ unique_hostnames
       (snd (add_token_manual
               [Scenario.row_revoked; Scenario.row_five] Scenario.hostA 200
               Scenario.rnd2)).
Proof.
  apply (unique_hostnames_kept [Scenario.row_revoked; Scenario.row_five]
           Scenario.hostA Scenario.ipA 200 Scenario.rnd2).
  repeat constructor; cbn; intuition discriminate.
Defined.

Lemma approve_token_idempotent_witness :
  fst (token_manager.approve_token [Scenario.row_revoked] Scenario.hostA 300)
  = (true, Some Scenario.tokA)
  /\ token_manager.get_token_by_hostname
       (snd (token_manager.approve_token [Scenario.row_revoked]
               Scenario.hostA 300)) Scenario.hostA
     = (Some Scenario.tokA, Some TOKEN_APPROVED)
  /\ token_manager.approve_token
       (snd (token_manager.approve_token [Scenario.row_revoked]
               Scenario.hostA 300)) Scenario.hostA 400
     = ((true, Some Scenario.tokA),
        snd (token_manager.approve_token [Scenario.row_revoked]
               Scenario.hostA 300)).
Proof.
  apply (proj1 (proj2 (approve_token_idempotent [Scenario.row_revoked]
                         Scenario.hostA 300 400)) Scenario.row_revoked).
  reflexivity.
Defined.

(** ** The ordered listings *)

Section Listings.
Import token_manager.

Lemma In_insert_by_time (r x : row) (l : list row) :
  In x (insert_by_time r l) <-> x = r \/ In x l.
Proof.
  induction l as [|y l IH]; cbn [insert_by_time In]; [intuition|].
  destruct (requested_at r <=? requested_at y); cbn [In]; [intuition|].
  rewrite IH. intuition.
Qed.

Lemma In_order_by_requested_at (x : row) (l : list row) :
  In x (order_by_requested_at l) <-> In x l.
Proof.
  unfold order_by_requested_at.
  induction l as [|y l IH]; cbn [fold_right In]; [tauto|].
  rewrite In_insert_by_time, IH. intuition.
Qed.

Lemma length_insert_by_time (r : row) (l : list row) :
  List.length (insert_by_time r l) = S (List.length l).
Proof.
  induction l as [|y l IH]; cbn [insert_by_time List.length]; [reflexivity|].
  destruct (requested_at r <=? requested_at y); cbn [List.length];
    [reflexivity | rewrite IH; reflexivity].
Qed.

Lemma length_order_by_requested_at (l : list row) :
  List.length (order_by_requested_at l) = List.length l.
Proof.
  unfold order_by_requested_at.
  induction l as [|y l IH]; cbn [fold_right List.length]; [reflexivity|].
  rewrite length_insert_by_time, IH. reflexivity.
Qed.

Lemma ascending_insert_by_time (r : row) (l : list row) :
  ascending (map requested_at l) ->
  ascending (map requested_at (insert_by_time r l)).
Proof.
  induction l as [|y l IH]; cbn [insert_by_time map ascending].
  - intros _. split; [intros ? []| exact I].
  - intros [Hy Hl]. destruct (Z.leb_spec (requested_at r) (requested_at y)).
    + cbn [map ascending]. split; [|split; assumption].
      intros z [<-|Hz]; [assumption|]. specialize (Hy z Hz). lia.
    + cbn [map ascending]. split; [|apply IH; exact Hl].
      intros z Hz. apply in_map_iff in Hz. destruct Hz as (x & <- & Hx).
      apply (proj1 (In_insert_by_time _ _ _)) in Hx. destruct Hx as [->|Hx]; [lia|].
      apply Hy. apply in_map. exact Hx.
Qed.

Lemma ascending_order_by_requested_at (l : list row) :
  ascending (map requested_at (order_by_requested_at l)).
Proof.
  unfold order_by_requested_at.
  induction l as [|y l IH]; cbn [fold_right]; [exact I|].
  apply ascending_insert_by_time. exact IH.
Qed.

Lemma In_get_pending_requests (db : table) (h : str) (ip : option str)
    (t : Z) :
  In (h, ip, t) (get_pending_requests db)
  <-> exists r, In r db /\ status r = TOKEN_PENDING
                /\ hostname r = h /\ ip_address r = ip
                /\ requested_at r = t.
Proof.
  unfold get_pending_requests. rewrite in_map_iff. split.
  - intros (r & E & Hr). apply (proj1 (In_order_by_requested_at _ _)) in Hr.
    apply filter_In in Hr. destruct Hr as [Hr Hs].
    apply str_eqb_eq in Hs. exists r. inversion E. auto.
  - intros (r & Hr & Hs & <- & <- & <-). exists r. split; [reflexivity|].
    apply (proj2 (In_order_by_requested_at _ _)). apply filter_In.
    split; [exact Hr | apply str_eqb_eq; exact Hs].
Qed.

(** X9.  [get_pending_requests] lists exactly the rows whose status is
    pending, each once, in ascending order of request time. *)
Theorem get_pending_requests_sorted (db : table) :
  ascending (map snd (get_pending_requests db))
  /\ len (get_pending_requests db)
     = len (filter (fun r => str_eqb (status r) TOKEN_PENDING) db)
  /\ forall h ip t,
       In (h, ip, t) (get_pending_requests db)
       <-> exists r, In r db /\ status r = TOKEN_PENDING
                     /\ hostname r = h /\ ip_address r = ip
                     /\ requested_at r = t.
Proof.
  split; [|split].
  - unfold get_pending_requests. rewrite map_map. cbn [snd].
    apply ascending_order_by_requested_at.
  - unfold get_pending_requests, len.
    rewrite length_map, length_order_by_requested_at. reflexivity.
  - apply In_get_pending_requests.
Qed.

Lemma In_insert_by_time_desc (r x : row) (l : list row) :
  In x (insert_by_time_desc r l) <-> x = r \/ In x l.
Proof.
  induction l as [|y l IH]; cbn [insert_by_time_desc In]; [intuition|].
  destruct (requested_at y <=? requested_at r); cbn [In]; [intuition|].
  rewrite IH. intuition.
Qed.

Lemma length_insert_by_time_desc (r : row) (l : list row) :
  List.length (insert_by_time_desc r l) = S (List.length l).
Proof.
  induction l as [|y l IH]; cbn [insert_by_time_desc List.length];
    [reflexivity|].
  destruct (requested_at y <=? requested_at r); cbn [List.length];
    [reflexivity | rewrite IH; reflexivity].
Qed.

Lemma descending_insert_by_time_desc (r : row) (l : list row) :
  descending (map requested_at l) ->
  descending (map requested_at (insert_by_time_desc r l)).
Proof.
  induction l as [|y l IH]; cbn [insert_by_time_desc map descending].
  - intros _. split; [intros ? []| exact I].
  - intros [Hy Hl]. destruct (Z.leb_spec (requested_at y) (requested_at r)).
    + cbn [map descending]. split; [|split; assumption].
      intros z [<-|Hz]; [assumption|]. specialize (Hy z Hz). lia.
    + cbn [map descending]. split; [|apply IH; exact Hl].
      intros z Hz. apply in_map_iff in Hz. destruct Hz as (x & <- & Hx).
      apply (proj1 (In_insert_by_time_desc _ _ _)) in Hx. destruct Hx as [->|Hx]; [lia|].
      apply Hy. apply in_map. exact Hx.
Qed.

(** X10.  [get_all_tokens] lists every row of the table once, latest
    request first, with the status each row has. *)
Theorem get_all_tokens_sorted (db : table) :
  descending (map (fun e => snd (fst (fst e))) (get_all_tokens db))
  /\ len (get_all_tokens db) = len db
  /\ forall h st,
       (exists ip t a v, In (h, st, ip, t, a, v) (get_all_tokens db))
       <-> exists r, In r db /\ hostname r = h /\ status r = st.
Proof.
  unfold get_all_tokens.
  assert (Hin : forall x, In x (fold_right insert_by_time_desc [] db)
                          <-> In x db).
  { intros x. induction db as [|y l IH]; cbn [fold_right In]; [tauto|].
    rewrite In_insert_by_time_desc, IH. intuition. }
  split; [|split].
  - rewrite map_map. cbn [fst snd].
    induction db as [|y l IH]; cbn [fold_right]; [exact I|].
    apply descending_insert_by_time_desc. apply IH.
    intros x. clear IH Hin.
    induction l as [|z l IH]; cbn [fold_right In]; [tauto|].
    rewrite In_insert_by_time_desc, IH. intuition.
  - unfold len. rewrite length_map. f_equal. clear Hin.
    induction db as [|y l IH]; cbn [fold_right List.length]; [reflexivity|].
    rewrite length_insert_by_time_desc, IH. reflexivity.
  - intros h st. split.
    + intros (ip & t & a & v & H). apply in_map_iff in H.
      destruct H as (r & E & Hr). apply (proj1 (Hin _)) in Hr.
      exists r. inversion E. auto.
    + intros (r & Hr & <- & <-).
      exists (ip_address r), (requested_at r), (approved_at r),
        (revoked_at r).
      apply in_map_iff. exists r. split; [reflexivity | apply (proj2 (Hin _)); exact Hr].
Qed.

Lemma unique_select (db : table) (r : row) :
  unique_hostnames db -> In r db -> select_hostname db (hostname r) = Some r.
Proof.
  unfold unique_hostnames.
  induction db as [|x db IH]; cbn [map In select_hostname]; [tauto|].
  intros Hu [->|Hr].
  - rewrite str_eqb_refl. reflexivity.
  - inversion Hu as [|? ? Hn Hd]; subst.
    destruct (str_eqb (hostname x) (hostname r)) eqn:E; [|apply IH; assumption].
    apply str_eqb_eq in E. exfalso. apply Hn. rewrite E.
    apply in_map. exact Hr.
Qed.

(** X11.  A number between 1 and the count of pending requests resolves
    to the hostname at that place of the pending list, which belongs to
    a row whose status is pending; in a table with distinct hostnames,
    a lookup of that hostname finds this very row. *)
Theorem pending_number_resolves (db : table) (number : str) (n : Z) :
  Builtins.int number = Ret n ->
  1 <= n <= len (get_pending_requests db) ->
  exists r,
    cli.get_pending_hostname_by_number db number = Ret (Some (hostname r))
    /\ nth_error (get_pending_requests db) (Z.to_nat (n - 1))
       = Some (hostname r, ip_address r, requested_at r)
    /\ In r db /\ status r = TOKEN_PENDING
    /\ (unique_hostnames db -> select_hostname db (hostname r) = Some r).
Proof.
  intros Hi Hn. unfold cli.get_pending_hostname_by_number.
  rewrite Hi. cbn [bind].
  destruct (Z.leb_spec 1 n); [|lia].
  destruct (Z.leb_spec n (len (get_pending_requests db))); [|lia].
  cbn [andb]. unfold cli.index.
  destruct (nth_error (get_pending_requests db) (Z.to_nat (n - 1)))
    as [[[h ip] t]|] eqn:En.
  - pose proof (nth_error_In _ _ En) as Hin.
    apply (proj1 (In_get_pending_requests db _ _ _)) in Hin.
    destruct Hin as (r & Hr & Hs & <- & <- & <-).
    exists r. cbn [bind fst]. repeat split; try assumption.
    intros Hu. apply unique_select; assumption.
  - exfalso. apply nth_error_None in En. unfold len in *. lia.
Qed.

End Listings.

Lemma pending_number_resolves_witness :
  exists r,
    cli.get_pending_hostname_by_number
      [Scenario.row_approved; Scenario.row_five] (lit "1")
    = Ret (Some (token_manager.hostname r))
    /\ nth_error (token_manager.get_pending_requests
                    [Scenario.row_approved; Scenario.row_five])
         (Z.to_nat (1 - 1))
       = Some (token_manager.hostname r, token_manager.ip_address r,
               token_manager.requested_at r)
    /\ In r [Scenario.row_approved; Scenario.row_five]
    /\ token_manager.status r = TOKEN_PENDING
    /\ (unique_hostnames [Scenario.row_approved; Scenario.row_five] ->
        token_manager.select_hostname
          [Scenario.row_approved; Scenario.row_five]
          (token_manager.hostname r) = Some r).
Proof.
  apply (pending_number_resolves [Scenario.row_approved; Scenario.row_five]
           (lit "1") 1); [reflexivity|].
  split; [lia | reflexivity].
Defined.

(** ** Who gets into the registry *)

Lemma tokens_send_to (w : world) (fd : nat) (text : str) :
  tokens (snd (send_to w fd text)) = tokens w.
Proof. unfold send_to. destruct (send_message _ _). reflexivity. Qed.

Lemma sockets_send_to_other (w : world) (fd fd' : nat) (text : str) :
  fd' <> fd -> sockets (snd (send_to w fd text)) fd' = sockets w fd'.
Proof.
  intros Hne. unfold send_to. destruct (send_message _ _).
  cbn [snd with_socket sockets]. unfold upd.
  destruct (Nat.eqb_spec fd' fd); [congruence | reflexivity].
Qed.

Section Soundness.
Import token_manager.

(** X12.  [handle_registration] returns a hostname only when the table
    holds, under that hostname, an approved record whose secret is the
    one presented; the world then differs from the one before by the
    registry entry alone.  In every other case the registry is as it
    was.  The token table is never written. *)
Theorem handle_registration_sound (w : world) (fd : nat) (addr : str * Z)
    (sid msg : str) :
  (forall h w',
      handle_registration w fd addr sid msg = (Ret (Some h), w') ->
      exists p0 tok r,
        split msg (lit ":") (Some 2%nat) = [p0; h; tok]
        /\ select_hostname (tokens w) h = Some r
        /\ token r = tok /\ tok <> [] /\ status r = TOKEN_APPROVED
        /\ w' = with_clients w
                  (dict.set (clients w) h (mkClient sid fd addr)))
  /\ ((forall h, fst (handle_registration w fd addr sid msg)
                 <> Ret (Some h)) ->
      clients (snd (handle_registration w fd addr sid msg)) = clients w)
  /\ tokens (snd (handle_registration w fd addr sid msg)) = tokens w.
Proof.
  unfold handle_registration, get_token_by_hostname.
  assert (Hrej : forall st,
             clients (close_fd (snd (send_to w fd (status_message st))) fd)
             = clients w
             /\ tokens (close_fd (snd (send_to w fd (status_message st))) fd)
                = tokens w).
  { intros st. unfold close_fd. cbn [with_socket clients tokens].
    rewrite clients_send_to, tokens_send_to. auto. }
  assert (Hno : forall (res : py (option str)) (w1 : world),
             (forall h, res <> Ret (Some h)) ->
             clients w1 = clients w -> tokens w1 = tokens w ->
             (forall h w', (res, w1) = (Ret (Some h), w') ->
                exists p0 tok r,
                  split msg (lit ":") (Some 2%nat) = [p0; h; tok]
                  /\ select_hostname (tokens w) h = Some r
                  /\ token r = tok /\ tok <> [] /\ status r = TOKEN_APPROVED
                  /\ w' = with_clients w
                            (dict.set (clients w) h (mkClient sid fd addr)))
             /\ ((forall h, fst (res, w1) <> Ret (Some h)) ->
                 clients (snd (res, w1)) = clients w)
             /\ tokens (snd (res, w1)) = tokens w).
  { intros res w1 Hres Hc Ht. split; [|split].
    - intros h w' [= E _]. exfalso. exact (Hres h E).
    - intros _. exact Hc.
    - exact Ht. }
  destruct (split msg (lit ":") (Some 2%nat)) as [|p0 [|h [|tok [|x l]]]]
    eqn:Hsplit;
    try (apply Hno; [discriminate | reflexivity | reflexivity]).
  destruct (select_hostname (tokens w) h) as [r|] eqn:Hs;
    [|apply Hno; [discriminate | apply Hrej | apply Hrej]].
  destruct (token r) as [|c t] eqn:Et;
    [apply Hno; [discriminate | apply Hrej | apply Hrej]|].
  destruct (status r) as [|c' t'] eqn:Est;
    [apply Hno; [discriminate | apply Hrej | apply Hrej]|].
  cbn [truthy andb].
  destruct (compare_digest (c :: t) tok) as [[]|e] eqn:Ec;
    [| apply Hno; [discriminate | apply Hrej | apply Hrej]
     | apply Hno; [discriminate | reflexivity | reflexivity]].
  destruct (str_eqb (c' :: t') (lit "revoked")) eqn:Er;
    [apply Hno; [discriminate | apply Hrej | apply Hrej]|].
  destruct (str_eqb (c' :: t') (lit "approved")) eqn:Ea;
    [|apply Hno; [discriminate | apply Hrej | apply Hrej]].
  split; [|split].
  - intros h' w' [= <- <-]. exists p0, tok, r.
    unfold compare_digest in Ec.
    destruct (is_ascii (c :: t) && is_ascii tok); [|discriminate].
    apply Ret_inj in Ec. apply str_eqb_eq in Ec. apply str_eqb_eq in Ea.
    repeat split; try assumption; try congruence.
    rewrite Est. exact Ea.
  - intros H. exfalso. apply (H h). reflexivity.
  - reflexivity.
Qed.

(** X13.  [validate_client_token] answers [True] exactly when the table
    holds an approved record with the presented secret (an ASCII one:
    the comparison raises otherwise); and [handle_registration], which
    does not call it, accepts a non-empty secret in exactly the same
    cases. *)
Theorem validate_client_token_accepts (w : world) (fd : nat)
    (addr : str * Z) (sid h tok : str) :
  (validate_client_token (tokens w) h tok = Ret true
   <-> exists r, select_hostname (tokens w) h = Some r /\ token r = tok
                 /\ is_ascii tok = true /\ status r = TOKEN_APPROVED)
  /\ (~ In 58 h -> tok <> [] ->
      (validate_client_token (tokens w) h tok = Ret true
       <-> fst (handle_registration w fd addr sid
                  (MSG_REGISTER ++ lit ":" ++ h ++ lit ":" ++ tok))
           = Ret (Some h))).
Proof.
  assert (Hv : validate_client_token (tokens w) h tok = Ret true
               <-> exists r, select_hostname (tokens w) h = Some r
                             /\ token r = tok /\ is_ascii tok = true
                             /\ status r = TOKEN_APPROVED).
  { unfold validate_client_token, compare_digest.
    destruct (select_hostname (tokens w) h) as [r|].
    - split.
      + destruct (is_ascii (token r)) eqn:A1; [|discriminate].
        destruct (is_ascii tok) eqn:A2; [|discriminate].
        cbn [andb bind]. intros E. apply Ret_inj in E.
        apply andb_true_iff in E. destruct E as [E1 E2].
        apply str_eqb_eq in E1. apply str_eqb_eq in E2. exists r. auto.
      + intros (r' & [= <-] & Ht & Ha & Hst).
        rewrite Ht, Ha, Hst. cbn [andb bind].
        rewrite !str_eqb_refl. reflexivity.
    - split; [discriminate | intros (r & [=] & _)]. }
  split; [exact Hv|]. intros Hh Hne. rewrite Hv.
  pose proof (split_register MSG_REGISTER h tok register_no_colon Hh)
    as Hsplit.
  split.
  - intros (r & Hs & Ht & Ha & Hst).
    rewrite (handle_registration_match w fd addr sid _ MSG_REGISTER h tok
               Hsplit r Hs Ha Ht).
    rewrite Ht, Hst. destruct tok; [congruence|]. reflexivity.
  - intros E. unfold handle_registration, get_token_by_hostname in E.
    rewrite Hsplit in E.
    destruct (select_hostname (tokens w) h) as [r|]; [|discriminate].
    destruct (truthy (token r) && truthy (status r)); [|discriminate].
    unfold compare_digest in E.
    destruct (is_ascii (token r)) eqn:A1; [|discriminate].
    destruct (is_ascii tok) eqn:A2; [|discriminate].
    cbn [andb] in E.
    destruct (str_eqb (token r) tok) eqn:Et; [|discriminate].
    destruct (str_eqb (status r) (lit "revoked")); [discriminate|].
    destruct (str_eqb (status r) (lit "approved")) eqn:Ea; [|discriminate].
    apply str_eqb_eq in Et. apply str_eqb_eq in Ea. exists r. auto.
Qed.

(** X14.  [add_token_manual] always succeeds and leaves the hostname
    approved: an existing record keeps its secret, whatever its status
    was, and a missing one is created with the generated secret; other
    records are not touched. *)
Theorem add_token_manual_approves (db : table) (h : str) (now : Z)
    (rnd : bytes) :
  exists tok,
    fst (add_token_manual db h now rnd) = (true, Some tok)
    /\ get_token_by_hostname (snd (add_token_manual db h now rnd)) h
       = (Some tok, Some TOKEN_APPROVED)
    /\ tok = match select_hostname db h with
             | Some r => token r
             | None => generate_token rnd
             end
    /\ forall h', h' <> h ->
         select_hostname (snd (add_token_manual db h now rnd)) h'
         = select_hostname db h'.
Proof.
  unfold add_token_manual, get_token_by_hostname.
  destruct (select_hostname db h) as [r|] eqn:Hs.
  - exists (token r). cbn [fst snd]. split; [reflexivity|].
    destruct (str_eqb (status r) (lit "approved")) eqn:Ea; cbn [negb].
    + apply str_eqb_eq in Ea. rewrite Hs, Ea. auto.
    + rewrite select_update_same by reflexivity. rewrite Hs.
      split; [reflexivity|]. split; [reflexivity|].
      intros h' Hne. apply select_update_other; [reflexivity | exact Hne].
  - unfold insert. cbn [hostname]. rewrite Hs.
    exists (generate_token rnd). cbn [fst snd].
    pose proof (select_app_new db
                  (mkRow h (generate_token rnd) (lit "approved") None now
                         (Some now) None) Hs) as E.
    cbn [hostname] in E. rewrite E.
    split; [reflexivity|]. split; [reflexivity|]. split; [reflexivity|].
    intros h' Hne.
    apply (select_app_other db
             (mkRow h (generate_token rnd) (lit "approved") None now
                    (Some now) None) h' Hne).
Qed.

End Soundness.

Lemma validate_client_token_accepts_witness :
  validate_client_token (tokens Scenario.world_reg) Scenario.hostA
    Scenario.tokA = Ret true
  <-> fst (handle_registration Scenario.world_reg 1 Scenario.addr1
             Scenario.sid1 Scenario.register_A) = Ret (Some Scenario.hostA).
Proof.
  apply (proj2 (validate_client_token_accepts Scenario.world_reg 1
                  Scenario.addr1 Scenario.sid1 Scenario.hostA
                  Scenario.tokA)).
  - intros [H|[]]; discriminate.
  - discriminate.
Defined.

(** ** Receiving only reads *)

Lemma recv_keeps (sock : socket) (k : Z) :
  outbound (snd (recv sock k)) = outbound sock
  /\ send_fault (snd (recv sock k)) = send_fault sock
  /\ closed (snd (recv sock k)) = closed sock.
Proof.
  unfold recv. destruct (closed sock) eqn:Ec; [auto|].
  destruct (inbound sock) as [|[d| |msg] rest]; cbn; auto.
Qed.

Lemma recv_exact_loop_keeps (fuel : nat) :
  forall (sock : socket) (n : Z) (data : bytes) r,
    recv_exact_loop fuel sock n data = Some r ->
    outbound (snd r) = outbound sock
    /\ send_fault (snd r) = send_fault sock
    /\ closed (snd r) = closed sock.
Proof.
  induction fuel as [|fuel IH]; intros sock n data r; cbn [recv_exact_loop];
    destruct (len data <? n); try discriminate;
    try (intros [= <-]; auto).
  pose proof (recv_keeps sock (n - len data)) as (K1 & K2 & K3).
  destruct (recv sock (n - len data)) as [[[|c chunk]|e] s1];
    cbn [snd] in *.
  - intros [= <-]. auto.
  - intros E. apply IH in E. destruct E as (E1 & E2 & E3).
    repeat split; congruence.
  - intros [= <-]. auto.
Qed.

Lemma recv_exact_keeps (sock : socket) (n : Z) :
  outbound (snd (recv_exact sock n)) = outbound sock
  /\ send_fault (snd (recv_exact sock n)) = send_fault sock
  /\ closed (snd (recv_exact sock n)) = closed sock.
Proof.
  apply (recv_exact_loop_keeps (S (List.length (inbound sock))) sock n []).
  apply recv_exact_unfold.
Qed.

Lemma recv_message_keeps (sock : socket) :
  outbound (snd (recv_message sock)) = outbound sock
  /\ send_fault (snd (recv_message sock)) = send_fault sock
  /\ closed (snd (recv_message sock)) = closed sock.
Proof.
  assert (H : outbound (snd (recv_message_try sock)) = outbound sock
              /\ send_fault (snd (recv_message_try sock)) = send_fault sock
              /\ closed (snd (recv_message_try sock)) = closed sock).
  { unfold recv_message_try.
    pose proof (recv_exact_keeps sock 4) as K.
    destruct (recv_exact sock 4) as [[[[|h0 hd]|]|e] s1]; cbn [snd] in *;
      try exact K.
    destruct (struct_unpack_I (h0 :: hd)) as [n|e]; [|exact K].
    destruct (n >? MAX_MESSAGE_SIZE); [exact K|].
    pose proof (recv_exact_keeps s1 n) as K'.
    destruct K as (K1 & K2 & K3).
    destruct (recv_exact s1 n) as [[[[|p0 pd]|]|e] s2]; cbn [snd] in *;
      destruct K' as (K1' & K2' & K3'); repeat split; congruence. }
  unfold recv_message.
  destruct (recv_message_try sock) as [[v|[]] s']; exact H.
Qed.

(** ** The first message *)

(** X15.  When the first message of a connection is neither a token
    request nor a registration (or does not come at all), the handler
    ends at once: it writes nothing to the socket and closes it, and
    the token table, the registry, the notification queue and all the
    other sockets are as before. *)
Theorem handle_client_rejects_unknown (w : world) (fd : nat)
    (addr : str * Z) (sid : str) (now : Z) (rnd : bytes) :
  (forall m, fst (recv_message (sockets w fd)) = Ret (Some m) ->
             startswith m MSG_TOKEN_REQUEST = false
             /\ startswith m MSG_REGISTER = false) ->
  fst (handle_client w fd addr sid now rnd) = Exited
  /\ tokens (snd (handle_client w fd addr sid now rnd)) = tokens w
  /\ clients (snd (handle_client w fd addr sid now rnd)) = clients w
  /\ notification_queue (snd (handle_client w fd addr sid now rnd))
     = notification_queue w
  /\ outbound (sockets (snd (handle_client w fd addr sid now rnd)) fd)
     = outbound (sockets w fd)
  /\ closed (sockets (snd (handle_client w fd addr sid now rnd)) fd) = true
  /\ forall fd', fd' <> fd ->
       sockets (snd (handle_client w fd addr sid now rnd)) fd'
       = sockets w fd'.
Proof.
  intros H. unfold handle_client.
  pose proof (recv_message_keeps (sockets w fd)) as (K & _ & _).
  destruct (recv_message (sockets w fd)) as [[[m|]|e] s'] eqn:Er;
    cbn [fst snd] in *.
  - destruct (H m eq_refl) as [H1 H2].
    assert (Hgoal :
      fst (Exited,
           handle_client_finally (close_fd (with_socket w fd s') fd) fd None)
      = Exited
      /\ tokens (handle_client_finally (close_fd (with_socket w fd s') fd)
                   fd None) = tokens w
      /\ clients (handle_client_finally (close_fd (with_socket w fd s') fd)
                    fd None) = clients w
      /\ notification_queue
           (handle_client_finally (close_fd (with_socket w fd s') fd) fd None)
         = notification_queue w
      /\ outbound (sockets (handle_client_finally
                              (close_fd (with_socket w fd s') fd) fd None) fd)
         = outbound (sockets w fd)
      /\ closed (sockets (handle_client_finally
                            (close_fd (with_socket w fd s') fd) fd None) fd)
         = true
      /\ forall fd', fd' <> fd ->
           sockets (handle_client_finally
                      (close_fd (with_socket w fd s') fd) fd None) fd'
           = sockets w fd').
    { unfold handle_client_finally, close_fd.
      cbn [fst with_socket tokens clients notification_queue sockets].
      unfold upd. cbv beta. rewrite !Nat.eqb_refl.
      cbn [close outbound closed]. repeat split; try assumption.
      intros fd' Hne. destruct (Nat.eqb_spec fd' fd); [congruence|].
      reflexivity. }
    destruct m as [|c m]; [exact Hgoal|].
    rewrite H1, H2. exact Hgoal.
  - unfold handle_client_finally, close_fd.
    cbn [fst snd with_socket tokens clients notification_queue sockets].
    unfold upd. cbv beta. rewrite !Nat.eqb_refl.
    cbn [close outbound closed]. repeat split; try assumption.
    intros fd' Hne. destruct (Nat.eqb_spec fd' fd); [congruence|].
    reflexivity.
  - unfold handle_client_finally, close_fd.
    cbn [fst snd with_socket tokens clients notification_queue sockets].
    unfold upd. cbv beta. rewrite !Nat.eqb_refl.
    cbn [close outbound closed]. repeat split; try assumption.
    intros fd' Hne. destruct (Nat.eqb_spec fd' fd); [congruence|].
    reflexivity.
Qed.

Lemma handle_client_rejects_unknown_witness :
  fst (handle_client (Scenario2.world_receiving [] (lit "HELLO")) 1
         Scenario.addr1 Scenario.sid1 0 []) = Exited
  /\ tokens (snd (handle_client (Scenario2.world_receiving [] (lit "HELLO"))
                    1 Scenario.addr1 Scenario.sid1 0 [])) = []
  /\ clients (snd (handle_client (Scenario2.world_receiving [] (lit "HELLO"))
                     1 Scenario.addr1 Scenario.sid1 0 [])) = []
  /\ notification_queue
       (snd (handle_client (Scenario2.world_receiving [] (lit "HELLO")) 1
               Scenario.addr1 Scenario.sid1 0 [])) = []
  /\ outbound (sockets (snd (handle_client
                               (Scenario2.world_receiving [] (lit "HELLO")) 1
                               Scenario.addr1 Scenario.sid1 0 [])) 1) = []
  /\ closed (sockets (snd (handle_client
                             (Scenario2.world_receiving [] (lit "HELLO")) 1
                             Scenario.addr1 Scenario.sid1 0 [])) 1) = true
  /\ forall fd', fd' <> 1%nat ->
       sockets (snd (handle_client
                       (Scenario2.world_receiving [] (lit "HELLO")) 1
                       Scenario.addr1 Scenario.sid1 0 [])) fd'
       = fresh_socket [frame (bytes_of (lit "HELLO"))].
Proof.
  apply (handle_client_rejects_unknown
           (Scenario2.world_receiving [] (lit "HELLO")) 1 Scenario.addr1
           Scenario.sid1 0 []).
  intros m E. vm_compute in E. apply Ret_inj in E. injection E as <-.
  split; reflexivity.
Defined.

(** ** Token requests *)

Lemma token_request_no_colon : ~ In 58 MSG_TOKEN_REQUEST.
Proof.
  intros H. cbv in H.
  repeat (destruct H as [H|H]; [discriminate|]). exact H.
Qed.

Lemma send_to_healthy (w : world) (fd : nat) (text : str) (b : bytes) :
  utf8_encode text = Ret b -> len b < 2 ^ 32 ->
  closed (sockets w fd) = false -> send_fault (sockets w fd) = None ->
  send_to w fd text
  = (true,
     with_socket w fd
       (mkSocket (inbound (sockets w fd)) (outbound (sockets w fd) ++ frame b)
                 None false)).
Proof.
  intros He Hl Hc Hf. unfold send_to.
  rewrite (send_message_sent (sockets w fd) (MStr text) b He Hl Hc Hf).
  rewrite Hf, Hc. reflexivity.
Qed.

Section TokenRequests.
Import token_manager.

Variables (w : world) (fd : nat) (addr : str * Z) (h ip : str).
Variables (now : Z) (rnd : bytes).
Hypothesis Hh : ~ In 58 h.

(** X16.  A token request [TOKEN_REQUEST:h:ip] (not a status check)
    runs [request_token] on the table and enters the polling loop.
    Whenever the resulting status is pending -- a new record, a
    re-request after denial or revocation, but also a repeated request
    of a record that was already pending -- one notification is queued
    and the counter goes up by one; when it is approved, nothing is
    queued.  The registry is not touched. *)
Theorem handle_token_request_notifies :
  str_eqb ip (lit "status_check") = false ->
  let req := request_token (tokens w) h ip now rnd in
  let res := handle_token_request w fd addr
               (MSG_TOKEN_REQUEST ++ lit ":" ++ h ++ lit ":" ++ ip)
               now rnd in
  fst res = Some h
  /\ tokens (snd res) = snd req
  /\ clients (snd res) = clients w
  /\ (snd (fst req) = TOKEN_PENDING ->
      notification_queue (snd res)
      = notification_queue w ++ [mkNotification h ip now]
      /\ pending_count (snd res) = pending_count w + 1)
  /\ (snd (fst req) = TOKEN_APPROVED ->
      notification_queue (snd res) = notification_queue w
      /\ pending_count (snd res) = pending_count w).
Proof.
  intros Hip req res. subst req res. unfold handle_token_request.
  rewrite (split_register MSG_TOKEN_REQUEST h ip token_request_no_colon Hh).
  cbn [is_status_check]. rewrite Hip.
  assert (Hok : fst (fst (fst (request_token (tokens w) h ip now rnd)))
                = true).
  { unfold request_token. destruct (select_hostname (tokens w) h) as [r|] eqn:Hs.
    - destruct (str_eqb (status r) (lit "approved")); [reflexivity|].
      destruct (str_eqb (status r) (lit "pending")); reflexivity.
    - unfold insert. cbn [hostname]. rewrite Hs. reflexivity. }
  destruct (request_token (tokens w) h ip now rnd) as [[[ok tok] st] db].
  cbn [fst snd] in *. subst ok.
  assert (Hq : forall (w0 : world) (text : str),
             notification_queue (snd (send_to w0 fd text))
             = notification_queue w0
             /\ pending_count (snd (send_to w0 fd text)) = pending_count w0)
    by (intros w0 text; unfold send_to; destruct (send_message _ _);
        split; reflexivity).
  destruct (str_eqb st TOKEN_APPROVED) eqn:Ea.
  - apply str_eqb_eq in Ea. subst st. cbn [fst snd].
    rewrite tokens_send_to, clients_send_to.
    repeat split; try discriminate; try reflexivity;
      rewrite ?(proj1 (Hq _ _)), ?(proj2 (Hq _ _)); reflexivity.
  - destruct (str_eqb st TOKEN_PENDING) eqn:Ep.
    + apply str_eqb_eq in Ep. subst st. cbn [fst snd].
      rewrite tokens_send_to, clients_send_to.
      repeat split; try discriminate; try reflexivity;
        rewrite ?(proj1 (Hq _ _)), ?(proj2 (Hq _ _)); reflexivity.
    + cbn [fst snd]. apply str_eqb_neq in Ea. apply str_eqb_neq in Ep.
      repeat split; congruence.
Qed.

(** X17.  A connection whose first message is a status check,
    [TOKEN_REQUEST:h:status_check], is answered from the table without
    any proof of identity: when the record of [h] is approved, the
    reply written to the socket carries its secret.  The polling loop
    is not entered; table, registry and queue are unchanged. *)
Theorem status_check_discloses_secret (r : row) (reply : bytes) :
  select_hostname (tokens w) h = Some r -> status r = TOKEN_APPROVED ->
  utf8_encode (status_message TOKEN_APPROVED ++ lit ":" ++ token r)
  = Ret reply ->
  len reply < 2 ^ 32 ->
  closed (sockets w fd) = false -> send_fault (sockets w fd) = None ->
  handle_token_request w fd addr
    (MSG_TOKEN_REQUEST ++ lit ":" ++ h ++ lit ":" ++ lit "status_check")
    now rnd
  = (None,
     with_socket w fd
       (mkSocket (inbound (sockets w fd))
                 (outbound (sockets w fd) ++ frame reply) None false)).
Proof.
  intros Hs Hst He Hl Hc Hf. unfold handle_token_request.
  rewrite (split_register MSG_TOKEN_REQUEST h (lit "status_check")
             token_request_no_colon Hh).
  cbn [is_status_check]. rewrite str_eqb_refl.
  unfold status_reply, get_token_by_hostname. rewrite Hs, Hst.
  rewrite str_eqb_refl. cbn [fmt_opt].
  rewrite (send_to_healthy w fd _ reply He Hl Hc Hf). reflexivity.
Qed.

End TokenRequests.

Lemma handle_token_request_notifies_witness :
  fst (handle_token_request (Scenario.world_of [Scenario.row_pending]) 1
         Scenario.addr1 Scenario2.request_A 500 Scenario.rnd2)
  = Some Scenario.hostA
  /\ tokens (snd (handle_token_request
                    (Scenario.world_of [Scenario.row_pending]) 1
                    Scenario.addr1 Scenario2.request_A 500 Scenario.rnd2))
     = snd (token_manager.request_token [Scenario.row_pending]
              Scenario.hostA Scenario.ipA 500 Scenario.rnd2)
  /\ clients (snd (handle_token_request
                     (Scenario.world_of [Scenario.row_pending]) 1
                     Scenario.addr1 Scenario2.request_A 500 Scenario.rnd2))
     = []
  /\ (snd (fst (token_manager.request_token [Scenario.row_pending]
                  Scenario.hostA Scenario.ipA 500 Scenario.rnd2))
      = TOKEN_PENDING ->
      notification_queue
        (snd (handle_token_request
                (Scenario.world_of [Scenario.row_pending]) 1
                Scenario.addr1 Scenario2.request_A 500 Scenario.rnd2))
      = [] ++ [mkNotification Scenario.hostA Scenario.ipA 500]
      /\ pending_count
           (snd (handle_token_request
                   (Scenario.world_of [Scenario.row_pending]) 1
                   Scenario.addr1 Scenario2.request_A 500 Scenario.rnd2))
         = 0 + 1)
  /\ (snd (fst (token_manager.request_token [Scenario.row_pending]
                  Scenario.hostA Scenario.ipA 500 Scenario.rnd2))
      = TOKEN_APPROVED ->
      notification_queue
        (snd (handle_token_request
                (Scenario.world_of [Scenario.row_pending]) 1
                Scenario.addr1 Scenario2.request_A 500 Scenario.rnd2))
      = []
      /\ pending_count
           (snd (handle_token_request
                   (Scenario.world_of [Scenario.row_pending]) 1
                   Scenario.addr1 Scenario2.request_A 500 Scenario.rnd2))
         = 0).
Proof.
  apply (handle_token_request_notifies
           (Scenario.world_of [Scenario.row_pending]) 1 Scenario.addr1
           Scenario.hostA Scenario.ipA 500 Scenario.rnd2).
  - intros [H|[]]; discriminate.
  - reflexivity.
Defined.

Lemma status_check_discloses_secret_witness :
  handle_token_request (Scenario.world_of [Scenario.row_approved]) 1
    Scenario.addr1 Scenario2.check_A 500 Scenario.rnd2
  = (None,
     with_socket (Scenario.world_of [Scenario.row_approved]) 1
       (mkSocket [] ([] ++ frame (bytes_of (status_message TOKEN_APPROVED
                                            ++ lit ":" ++ Scenario.tokA)))
                 None false)).
Proof.
  apply (status_check_discloses_secret
           (Scenario.world_of [Scenario.row_approved]) 1 Scenario.addr1
           Scenario.hostA 500 Scenario.rnd2
           ltac:(intros [H|[]]; discriminate) Scenario.row_approved
           (bytes_of (status_message TOKEN_APPROVED ++ lit ":"
                      ++ Scenario.tokA)));
    reflexivity.
Defined.

(** ** Polling *)

Lemma sockets_with_socket (w : world) (fd : nat) (s : socket) :
  sockets (with_socket w fd s) fd = s.
Proof.
  cbn [with_socket sockets]. unfold upd. rewrite Nat.eqb_refl. reflexivity.
Qed.

Lemma startswith_app (p rest : str) : startswith (p ++ rest) p = true.
Proof.
  induction p as [|c p IH]; cbn [app startswith].
  - apply startswith_nil.
  - rewrite Z.eqb_refl, IH. reflexivity.
Qed.

Section Polling.
Import token_manager.

Variables (w : world) (fd : nat) (h h' : str) (r : row).
Variables (segs : list bytes) (mb extra : bytes).
Hypothesis Hc : closed (sockets w fd) = false.
Hypothesis Hf : send_fault (sockets w fd) = None.
Hypothesis Hin : inbound (sockets w fd) = map Seg segs.
Hypothesis Hne : Forall nonempty segs.
Hypothesis Hh' : ~ In 58 h'.
Hypothesis Hm :
  utf8_encode (MSG_TOKEN_REQUEST ++ lit ":" ++ h' ++ lit ":"
               ++ lit "status_check") = Ret mb.
Hypothesis Hl : 0 < len mb <= MAX_MESSAGE_SIZE.
Hypothesis Hcat : List.concat segs = frame mb ++ extra.
Hypothesis Hs : select_hostname (tokens w) h = Some r.

Lemma poll_once_status_check :
  exists segs',
    List.concat segs' = extra
    /\ poll_once w fd h
       = status_reply
           (with_socket w fd
              (mkSocket (map Seg segs') (outbound (sockets w fd)) None false))
           fd h.
Proof.
  destruct (recv_message_frame (sockets w fd) segs mb extra Hc Hin Hne Hl Hcat)
    as (segs' & E & Hcat').
  rewrite (utf8_decode_encode _ _ Hm), Hf in E.
  exists segs'. split; [exact Hcat'|].
  unfold poll_once. rewrite E.
  change (MSG_TOKEN_REQUEST ++ lit ":" ++ h' ++ lit ":" ++ lit "status_check")
    with (MSG_TOKEN_REQUEST
            ++ (lit ":" ++ h' ++ lit ":" ++ lit "status_check")) at 1 2.
  destruct (MSG_TOKEN_REQUEST ++ lit ":" ++ h' ++ lit ":" ++ lit "status_check")
    as [|c m] eqn:Em; [discriminate|].
  rewrite <- Em.
  rewrite startswith_app.
  rewrite (split_register MSG_TOKEN_REQUEST h' (lit "status_check")
             token_request_no_colon Hh').
  cbn [is_status_check]. rewrite str_eqb_refl. reflexivity.
Qed.

(** X18.  One turn of the polling loop on a status check.  The status
    looked up is that of the hostname of the first request, whatever
    hostname the check itself names.  While the record is pending, the
    reply is [TOKEN_STATUS:pending] and the loop goes on; once it is
    approved, the reply carries the secret and the loop ends; when it
    is denied, the reply says so and the loop ends. *)
Theorem poll_once_answers :
  (status r = TOKEN_PENDING ->
   fst (poll_once w fd h) = true
   /\ outbound (sockets (snd (poll_once w fd h)) fd)
      = outbound (sockets w fd)
          ++ frame (bytes_of (status_message TOKEN_PENDING)))
  /\ (status r = TOKEN_DENIED ->
      fst (poll_once w fd h) = false
      /\ outbound (sockets (snd (poll_once w fd h)) fd)
         = outbound (sockets w fd)
             ++ frame (bytes_of (status_message TOKEN_DENIED)))
  /\ (status r = TOKEN_APPROVED ->
      forall reply,
        utf8_encode (status_message TOKEN_APPROVED ++ lit ":" ++ token r)
        = Ret reply ->
        len reply < 2 ^ 32 ->
        fst (poll_once w fd h) = false
        /\ outbound (sockets (snd (poll_once w fd h)) fd)
           = outbound (sockets w fd) ++ frame reply).
Proof.
  destruct poll_once_status_check as (segs' & _ & ->).
  unfold status_reply, get_token_by_hostname.
  cbn [with_socket tokens]. rewrite Hs.
  split; [|split].
  - intros ->. change (str_eqb TOKEN_PENDING TOKEN_APPROVED) with false.
    change (str_eqb TOKEN_PENDING TOKEN_DENIED) with false.
    rewrite str_eqb_refl. cbn [fst snd].
    rewrite (send_to_healthy _ fd _
               (bytes_of (status_message TOKEN_PENDING)));
      try (rewrite sockets_with_socket; reflexivity); try reflexivity.
    cbn [snd]. rewrite !sockets_with_socket. split; reflexivity.
  - intros ->. change (str_eqb TOKEN_DENIED TOKEN_APPROVED) with false.
    rewrite str_eqb_refl. cbn [fst snd].
    rewrite (send_to_healthy _ fd _
               (bytes_of (status_message TOKEN_DENIED)));
      try (rewrite sockets_with_socket; reflexivity); try reflexivity.
    cbn [snd]. rewrite !sockets_with_socket. split; reflexivity.
  - intros -> reply He Hlr. rewrite str_eqb_refl. cbn [fst snd fmt_opt].
    rewrite (send_to_healthy _ fd _ reply He Hlr);
      try (rewrite sockets_with_socket; reflexivity).
    cbn [snd]. rewrite !sockets_with_socket. split; reflexivity.
Qed.

End Polling.

Lemma poll_once_answers_witness :
  fst (poll_once (Scenario2.world_receiving [Scenario.row_approved]
                    Scenario2.check_A) 1 Scenario.hostA) = false
  /\ outbound (sockets (snd (poll_once
                               (Scenario2.world_receiving
                                  [Scenario.row_approved] Scenario2.check_A)
                               1 Scenario.hostA)) 1)
     = [] ++ frame (bytes_of (status_message TOKEN_APPROVED ++ lit ":"
                              ++ Scenario.tokA)).
Proof.
  apply (proj2 (proj2
           (poll_once_answers
              (Scenario2.world_receiving [Scenario.row_approved]
                 Scenario2.check_A) 1 Scenario.hostA Scenario.hostA
              Scenario.row_approved [frame (bytes_of Scenario2.check_A)]
              (bytes_of Scenario2.check_A) [] eq_refl eq_refl eq_refl
              ltac:(constructor; [intro H; vm_compute in H; discriminate H
                                 | constructor])
              ltac:(intros [H|[]]; discriminate) eq_refl
              ltac:(split; [reflexivity | discriminate]) eq_refl eq_refl))
           eq_refl
           (bytes_of (status_message TOKEN_APPROVED ++ lit ":"
                      ++ Scenario.tokA)) eq_refl eq_refl).
Defined.

(** ** Operator commands and the registry *)

(** X19.  No operator command on tokens adds or removes a registry
    entry: approve, deny, revoke, delete and renew all leave the
    [clients] dictionary as it is.  Revoking or deleting a connected
    endpoint only sends it a notice. *)
Theorem cli_commands_keep_registry (w : world) (target confirm : str)
    (now : Z) :
  clients (snd (cli.approve_token w target now)) = clients w
  /\ clients (snd (cli.deny_token w target)) = clients w
  /\ clients (snd (cli.revoke_token w target now)) = clients w
  /\ clients (snd (cli.delete_token w target confirm)) = clients w
  /\ clients (snd (cli.renew_token w target now)) = clients w.
Proof.
  repeat split.
  - unfold cli.approve_token.
    destruct (cli.get_pending_hostname_by_number _ _); [|reflexivity].
    destruct (token_manager.approve_token _ _ _) as [[[] tok] db];
      reflexivity.
  - unfold cli.deny_token.
    destruct (cli.get_pending_hostname_by_number _ _); [|reflexivity].
    destruct (token_manager.deny_token _ _) as [[] db]; reflexivity.
  - unfold cli.revoke_token.
    destruct (get_hostname_by_number _ _); [|reflexivity].
    destruct (token_manager.revoke_token _ _ _) as [[] db]; [|reflexivity].
    cbn [with_tokens clients].
    destruct (dict.get _ _); [|reflexivity].
    cbn [snd]. rewrite clients_send_to. reflexivity.
  - unfold cli.delete_token.
    destruct (get_hostname_by_number _ _); [|reflexivity].
    destruct (token_manager.get_token_by_hostname _ _) as [tok st].
    destruct (negb (truthy_opt tok)); [reflexivity|].
    destruct (negb (str_eqb confirm (lit "yes"))); [reflexivity|].
    destruct (dict.get _ _).
    + pose proof (clients_send_to w (socket_fd c)
                    (status_message (lit "deleted"))) as E.
      pose proof (tokens_send_to w (socket_fd c)
                    (status_message (lit "deleted"))) as E'.
      destruct (send_to w (socket_fd c) (status_message (lit "deleted")))
        as [ok w1]. cbn [snd] in *.
      destruct (token_manager.delete_token _ _) as [[] db]; exact E.
    + destruct (token_manager.delete_token _ _) as [[] db]; reflexivity.
  - unfold cli.renew_token.
    destruct (get_hostname_by_number _ _); [|reflexivity].
    destruct (token_manager.get_token_by_hostname _ _) as [tok st].
    destruct (negb (truthy_opt tok)); [reflexivity|].
    destruct (negb _); [reflexivity|].
    destruct (token_manager.approve_token _ _ _) as [[[] tok'] db];
      reflexivity.
Qed.

Section RevokeRenew.
Import token_manager.

Variables (w : world) (h tok : str) (r : row) (now : Z).
Hypothesis Hs : select_hostname (tokens w) h = Some r.
Hypothesis Hres : get_hostname_by_number (clients w) h = Ret None.



Hypothesis Hh : ~ In 58 h.
Hypothesis Htok : token r = tok.
Hypothesis Hne : tok <> [].
Hypothesis Ha : is_ascii tok = true.
Hypothesis Hst : status r = TOKEN_APPROVED.


End RevokeRenew.



(** ** Deleting from the console *)

Section Delete.
Import token_manager.

(** X22.  [delete_token] of the console deletes nothing unless the
    operator answers [yes]: with any other answer the world is exactly
    as before.  With [yes], and a record for the hostname that the
    target resolves to, the record is gone afterwards. *)
Theorem cli_delete_needs_confirmation (w : world) (target confirm : str) :
  (confirm <> lit "yes" -> snd (cli.delete_token w target confirm) = w)
  /\ (forall x h r,
         confirm = lit "yes" ->
         get_hostname_by_number (clients w) target = Ret x ->
         h = cli.or_target x target ->
         select_hostname (tokens w) h = Some r -> token r <> [] ->
         (exists kick,
             fst (cli.delete_token w target confirm)
             = Ret (kick ++ [cli.TokenDeleted h]))
         /\ get_token_by_hostname
              (tokens (snd (cli.delete_token w target confirm))) h
            = (None, None)).
Proof.
  split.
  - intros Hc. unfold cli.delete_token.
    destruct (get_hostname_by_number _ _); [|reflexivity].
    destruct (get_token_by_hostname _ _) as [tok st].
    destruct (negb (truthy_opt tok)); [reflexivity|].
    apply str_eqb_neq in Hc. rewrite Hc. reflexivity.
  - intros x h r -> Hx -> Hs Ht.
    set (h := cli.or_target x target) in *.
    assert (ED : cli.delete_token w target (lit "yes")
                 = let (kick, w1) :=
                     match dict.get (clients w) h with
                     | Some client_info =>
                         ([cli.Kicked h],
                          snd (send_to w (socket_fd client_info)
                                 (status_message (lit "deleted"))))
                     | None => ([], w)
                     end in
                   match delete_token (tokens w1) h with
                   | (true, db) =>
                       (Ret (kick ++ [cli.TokenDeleted h]), with_tokens w1 db)
                   | (false, db) =>
                       (Ret (kick ++ [cli.DeleteFailed h]), with_tokens w1 db)
                   end).
    { unfold cli.delete_token. rewrite Hx. fold h.
      unfold get_token_by_hostname. rewrite Hs.
      destruct (token r) as [|c t] eqn:Et; [congruence|]. reflexivity. }
    rewrite ED. clear ED.
    assert (Hdel : forall w1 : world,
               tokens w1 = tokens w ->
               forall kick,
               (exists kick0,
                   fst (let (b, db) := delete_token (tokens w1) h in
                        if b
                        then (Ret (kick ++ [cli.TokenDeleted h]),
                              with_tokens w1 db)
                        else (Ret (kick ++ [cli.DeleteFailed h]),
                              with_tokens w1 db))
                   = Ret (kick0 ++ [cli.TokenDeleted h]))
               /\ get_token_by_hostname
                    (tokens (snd (let (b, db) := delete_token (tokens w1) h in
                                  if b
                                  then (Ret (kick ++ [cli.TokenDeleted h]),
                                        with_tokens w1 db)
                                  else (Ret (kick ++ [cli.DeleteFailed h]),
                                        with_tokens w1 db)))) h
                  = (None, None)).
    { intros w1 E kick. rewrite E. unfold delete_token.
      rewrite rowcount_pos, Hs. cbn [fst snd with_tokens tokens].
      split; [exists kick; reflexivity|].
      unfold get_token_by_hostname. rewrite select_filter_same.
      reflexivity. }
    destruct (dict.get (clients w) h) as [info|].
    + pose proof (tokens_send_to w (socket_fd info)
                    (status_message (lit "deleted"))) as E.
      destruct (send_to w (socket_fd info) (status_message (lit "deleted")))
        as [ok w1]. cbn [snd] in E |- *.
      exact (Hdel w1 E [cli.Kicked h]).
    + exact (Hdel w eq_refl []).
Qed.

End Delete.

Lemma cli_delete_needs_confirmation_witness :
  snd (cli.delete_token (Scenario.world_of [Scenario.row_approved])
         Scenario.hostA (lit "y"))
  = Scenario.world_of [Scenario.row_approved].
Proof.
  apply (proj1 (cli_delete_needs_confirmation
                  (Scenario.world_of [Scenario.row_approved]) Scenario.hostA
                  (lit "y"))).
  discriminate.
Defined.

(** ** Client numbers *)

Lemma find_enumerate (d : registry) :
  forall i n,
    i <= n < i + len d ->
    find (fun e => fst (fst e) =? n) (enumerate i d)
    = option_map (fun e => (n, fst e, snd e))
        (nth_error d (Z.to_nat (n - i))).
Proof.
  induction d as [|[k v] d IH]; intros i n H.
  - rewrite len_nil in H. lia.
  - rewrite len_cons in H. cbn [enumerate find fst].
    destruct (Z.eqb_spec i n) as [->|Hne].
    + rewrite Z.sub_diag. reflexivity.
    + rewrite IH by lia.
      replace (Z.to_nat (n - i)) with (S (Z.to_nat (n - (i + 1)))) by lia.
      reflexivity.
Qed.

Lemma find_enumerate_keys (d d' : registry) :
  map fst d = map fst d' ->
  forall i n,
    option_map (fun e => snd (fst e))
      (find (fun e => fst (fst e) =? n) (enumerate i d))
    = option_map (fun e => snd (fst e))
        (find (fun e => fst (fst e) =? n) (enumerate i d')).
Proof.
  revert d'. induction d as [|[k v] d IH]; intros [|[k' v'] d'] E;
    try discriminate; [reflexivity|].
  cbn [map fst] in E. injection E as -> E.
  intros i n. cbn [enumerate find fst].
  destruct (i =? n); [reflexivity | apply IH; exact E].
Qed.

Lemma dict_set_keys (d : registry) (k : str) (v : client_info) :
  dict.mem d k = true -> map fst (dict.set d k v) = map fst d.
Proof.
  unfold dict.mem. induction d as [|[k' v'] d IH]; cbn [dict.get dict.set];
    [discriminate|].
  destruct (str_eqb k' k); [reflexivity|].
  intros H. cbn [map fst]. f_equal. apply IH. exact H.
Qed.

Lemma dict_set_new (d : registry) (k : str) (v : client_info) :
  dict.mem d k = false -> dict.set d k v = d ++ [(k, v)].
Proof.
  unfold dict.mem. induction d as [|[k' v'] d IH]; cbn [dict.get dict.set app];
    [reflexivity|].
  destruct (str_eqb k' k); [discriminate|].
  intros H. f_equal. apply IH. exact H.
Qed.

Lemma dict_get_none_not_in (d : registry) (k : str) :
  dict.get d k = None -> ~ In k (map fst d).
Proof.
  induction d as [|[k' v'] d IH]; cbn [dict.get map fst In]; [tauto|].
  destruct (str_eqb k' k) eqn:E; [discriminate|].
  apply str_eqb_neq in E. intros H [H'|H']; [congruence | exact (IH H H')].
Qed.

(** X23.  Client numbers follow the order of first registration.  A
    number from 1 to the count of clients resolves to the hostname at
    that place of the registry.  A hostname that registers again keeps
    its place, so every number resolves as before; a new hostname goes
    last.  Registering and removing keep the hostnames distinct. *)
Theorem client_numbers_follow_insertion (d : registry) (k : str)
    (v : client_info) :
  (forall number n,
      Builtins.int number = Ret n -> 1 <= n <= len d ->
      get_hostname_by_number d number
      = Ret (option_map fst (nth_error d (Z.to_nat (n - 1)))))
  /\ (dict.mem d k = true ->
      forall number,
        get_hostname_by_number (dict.set d k v) number
        = get_hostname_by_number d number)
  /\ (dict.mem d k = false -> dict.set d k v = d ++ [(k, v)])
  /\ (unique_keys d ->
      unique_keys (dict.set d k v) /\ unique_keys (dict.del d k)).
Proof.
  split; [|split; [|split]].
  - intros number n Hi Hn. unfold get_hostname_by_number, get_clients_list.
    rewrite Hi. cbn [bind]. rewrite find_enumerate by lia.
    destruct (nth_error d (Z.to_nat (n - 1))) as [[h info]|]; reflexivity.
  - intros Hm number. unfold get_hostname_by_number, get_clients_list.
    destruct (Builtins.int number) as [n|e]; [|reflexivity]. cbn [bind].
    pose proof (find_enumerate_keys (dict.set d k v) d
                  (dict_set_keys d k v Hm) 1 n) as E.
    destruct (find _ (enumerate 1 (dict.set d k v))) as [[[i h] info]|];
      destruct (find _ (enumerate 1 d)) as [[[i' h'] info']|];
      cbn [option_map fst snd] in E; congruence.
  - apply dict_set_new.
  - intros Hu. split.
    + unfold unique_keys in *. destruct (dict.mem d k) eqn:Hm.
      * rewrite dict_set_keys by exact Hm. exact Hu.
      * rewrite dict_set_new by exact Hm. rewrite map_app. cbn [map fst].
        apply NoDup_app; [exact Hu | repeat constructor; intros [] |].
        intros x Hx [<-|[]]. unfold dict.mem in Hm.
        destruct (dict.get d k) eqn:Eg; [discriminate|].
        exact (dict_get_none_not_in d k Eg Hx).
    + unfold unique_keys, dict.del in *. apply filter_keeps_distinct. exact Hu.
Qed.

(** The number may be written with any decimal digits that [int]
    reads, here a full-width two between spaces. *)
Lemma client_numbers_follow_insertion_witness :
  get_hostname_by_number
    [(Scenario.hostA, mkClient Scenario.sid1 1 Scenario.addr1);
     (lit "B", mkClient Scenario.sid2 2 Scenario.addr2)]
    [32; 65298; 160]
  = Ret (Some (lit "B")).
Proof.
  apply (proj1 (client_numbers_follow_insertion
                  [(Scenario.hostA, mkClient Scenario.sid1 1 Scenario.addr1);
                   (lit "B", mkClient Scenario.sid2 2 Scenario.addr2)]
                  Scenario.hostA (mkClient Scenario.sid1 1 Scenario.addr1))
           [32; 65298; 160] 2).
  - reflexivity.
  - vm_compute. split; discriminate.
Defined.

(** ** The dispatcher *)

Lemma lit_bars : lit "|||" = [124; 124; 124].
Proof. reflexivity. Qed.

Lemma split_go_no_bar (a rest cur : str) (k : nat) :
  ~ In 124 a ->
  split_go (lit "|||") (a ++ rest) cur k 0
  = split_go (lit "|||") rest (rev a ++ cur) k 0.
Proof.
  rewrite lit_bars. revert cur.
  induction a as [|c a IH]; intros cur Ha; [reflexivity|].
  assert (Hc : (124 =? c) = false).
  { apply Z.eqb_neq. intros E. apply Ha. left. symmetry. exact E. }
  assert (Ha' : ~ In 124 a) by (intros H; apply Ha; right; exact H).
  cbn [app split_go startswith]. rewrite Hc. cbn [andb].
  cbn [rev]. rewrite <- app_assoc. cbn [app].
  destruct k as [|k]; apply IH; exact Ha'.
Qed.

Lemma split_go_bars (b cur : str) (k : nat) :
  split_go (lit "|||") (lit "|||" ++ b) cur (S k) 0
  = rev cur :: split_go (lit "|||") b [] k 0.
Proof.
  rewrite lit_bars. cbn [app split_go startswith List.length Nat.sub].
  rewrite Z.eqb_refl. cbn [andb].
  destruct b as [|c b]; reflexivity.
Qed.

Lemma split_go_last (b cur : str) (k : nat) :
  ~ In 124 b -> split_go (lit "|||") b cur k 0 = [rev cur ++ b].
Proof.
  intros Hb. rewrite <- (app_nil_r b) at 1.
  rewrite split_go_no_bar by exact Hb. cbn [split_go].
  rewrite rev_app_distr, rev_involutive. reflexivity.
Qed.

(** The fields of [f"{stdout}|||{stderr}".split('|||')]. *)
Lemma split_result_data (out err : str) :
  ~ In 124 out ->
  (~ In 124 err ->
   split (out ++ lit "|||" ++ err) (lit "|||") None = [out; err])
  /\ (forall e1 e2,
         err = e1 ++ lit "|||" ++ e2 -> ~ In 124 e1 ->
         exists more,
           split (out ++ lit "|||" ++ err) (lit "|||") None
           = out :: e1 :: more).
Proof.
  intros Ho. unfold split.
  assert (Hk : forall err',
             List.length (out ++ lit "|||" ++ err')
             = S (List.length out + 2 + List.length err')%nat).
  { intros err'. rewrite !length_app. cbn [lit List.length]. lia. }
  split.
  - intros He. rewrite Hk, split_go_no_bar by exact Ho.
    rewrite split_go_bars, split_go_last by exact He.
    rewrite app_nil_r, rev_involutive. reflexivity.
  - intros e1 e2 -> He. rewrite Hk, split_go_no_bar by exact Ho.
    rewrite split_go_bars, app_nil_r.
    rewrite !length_app. cbn [lit List.length].
    replace (List.length out + 2
             + (List.length e1 + (3 + List.length e2)))%nat
      with (S (List.length out + 4 + List.length e1 + List.length e2))%nat
      by lia.
    rewrite split_go_no_bar by exact He. rewrite split_go_bars.
    rewrite app_nil_r, !rev_involutive. eexists. reflexivity.
Qed.

Lemma result_no_colon : ~ In 58 MSG_RESULT.
Proof.
  intros H. cbv in H.
  repeat (destruct H as [H|H]; [discriminate|]). exact H.
Qed.

Lemma cmd_no_colon : ~ In 58 MSG_CMD.
Proof.
  intros H. cbv in H.
  repeat (destruct H as [H|H]; [discriminate|]). exact H.
Qed.

Lemma status_no_colon : ~ In 58 MSG_TOKEN_STATUS.
Proof.
  intros H. cbv in H.
  repeat (destruct H as [H|H]; [discriminate|]). exact H.
Qed.

(** [(tag + ':' + rest).split(':', 1)] for a tag without a colon. *)
Lemma split_tag (tag rest : str) :
  ~ In 58 tag ->
  split (tag ++ lit ":" ++ rest) (lit ":") (Some 1%nat) = [tag; rest].
Proof.
  intros Ht. unfold split. rewrite lit_colon. cbn [app].
  rewrite split_go_colon by exact Ht. rewrite split_go_zero. reflexivity.
Qed.

Lemma encoded_nonempty (s : str) (b : bytes) :
  utf8_encode s = Ret b -> s <> [] -> 0 < len b.
Proof.
  intros He Hs. destruct b as [|x b].
  - apply utf8_decode_encode in He. cbn in He. congruence.
  - rewrite len_cons. pose proof (len_nonneg b). lia.
Qed.

Lemma clients_with_socket (w : world) (fd : nat) (s : socket) :
  clients (with_socket w fd s) = clients w.
Proof. reflexivity. Qed.

Section Dispatch.

Variables (w : world) (h command : str) (info : client_info).
Variables (out err : str) (segs : list bytes) (request reply extra : bytes).

Hypothesis Hreg : dict.get (clients w) h = Some info.
Hypothesis Hopen : closed (sockets w (socket_fd info)) = false.
Hypothesis Hsend : send_fault (sockets w (socket_fd info)) = None.
Hypothesis Hreq : utf8_encode (MSG_CMD ++ lit ":" ++ command) = Ret request.
Hypothesis Hlen : len request < 2 ^ 32.
Hypothesis Hin : inbound (sockets w (socket_fd info)) = map Seg segs.
Hypothesis Hsegs : Forall nonempty segs.
Hypothesis Hrep : utf8_encode (result_message out err) = Ret reply.
Hypothesis Hmax : len reply <= MAX_MESSAGE_SIZE.
Hypothesis Hcat : List.concat segs = frame reply ++ extra.
Hypothesis Hout : ~ In 124 out.

Lemma dispatch_parts :
  exists w',
    send_command_to_client w h command
    = (match split (out ++ lit "|||" ++ err) (lit "|||") None with
       | [] => (Some [], [])
       | [stdout] => (Some stdout, [])
       | stdout :: stderr :: _ => (Some stdout, stderr)
       end, w')
    /\ outbound (sockets w' (socket_fd info))
       = outbound (sockets w (socket_fd info)) ++ frame request.
Proof.
  unfold send_command_to_client. rewrite Hreg. cbv zeta.
  rewrite (send_to_healthy w (socket_fd info) _ request Hreq Hlen Hopen Hsend).
  rewrite sockets_with_socket.
  assert (Hpos : 0 < len reply).
  { apply (encoded_nonempty _ _ Hrep). unfold result_message. discriminate. }
  destruct (recv_message_frame
              (mkSocket (inbound (sockets w (socket_fd info)))
                 (outbound (sockets w (socket_fd info)) ++ frame request)
                 None false)
              segs reply extra eq_refl Hin Hsegs (conj Hpos Hmax) Hcat)
    as (segs' & Er & _).
  rewrite Er. rewrite (utf8_decode_encode _ _ Hrep).
  unfold result_message at 1. rewrite startswith_app. cbn [negb].
  unfold result_message. rewrite (split_tag _ _ result_no_colon).
  eexists. split.
  - destruct (split (out ++ lit "|||" ++ err) (lit "|||") None)
      as [|a [|b l]]; reflexivity.
  - destruct (split (out ++ lit "|||" ++ err) (lit "|||") None)
      as [|a [|b l]]; cbn [snd]; rewrite sockets_with_socket; reflexivity.
Qed.

(** X24.  A command sent to a registered, healthy endpoint is written
    as one frame [CMD:command], and the answer frame
    [RESULT:out|||err] comes back to the operator as [(out, err)],
    provided neither text contains a vertical bar.  When the error
    text itself contains [|||], the operator gets only what is before
    it. *)
Theorem send_command_returns_output :
  (~ In 124 err ->
   fst (send_command_to_client w h command) = (Some out, err))
  /\ (forall e1 e2,
         err = e1 ++ lit "|||" ++ e2 -> ~ In 124 e1 ->
         fst (send_command_to_client w h command) = (Some out, e1))
  /\ outbound (sockets (snd (send_command_to_client w h command))
                 (socket_fd info))
     = outbound (sockets w (socket_fd info)) ++ frame request.
Proof.
  destruct dispatch_parts as (w' & E & Ho). rewrite E. cbn [fst snd].
  destruct (split_result_data out err Hout) as [H1 H2].
  split; [|split].
  - intros He. rewrite (H1 He). reflexivity.
  - intros e1 e2 E1 He. destruct (H2 e1 e2 E1 He) as (more & Em).
    rewrite Em. reflexivity.
  - exact Ho.
Qed.

End Dispatch.

Lemma send_command_returns_output_witness :
  fst (send_command_to_client
         (Scenario2.world_serving (result_message (lit "ok") (lit "no")))
         Scenario.hostA (lit "id"))
  = (Some (lit "ok"), lit "no").
Proof.
  refine (proj1 (send_command_returns_output
                   (Scenario2.world_serving
                      (result_message (lit "ok") (lit "no")))
                   Scenario.hostA (lit "id")
                   (mkClient Scenario.sid1 1 Scenario.addr1)
                   (lit "ok") (lit "no")
                   [frame (bytes_of (result_message (lit "ok") (lit "no")))]
                   (bytes_of (MSG_CMD ++ lit ":" ++ lit "id"))
                   (bytes_of (result_message (lit "ok") (lit "no"))) []
                   eq_refl eq_refl eq_refl eq_refl _ eq_refl _ eq_refl _
                   eq_refl _) _).
  - vm_compute. reflexivity.
  - repeat constructor. discriminate.
  - vm_compute. discriminate.
  - cbv. intros H. repeat (destruct H as [H|H]; [discriminate|]). exact H.
  - cbv. intros H. repeat (destruct H as [H|H]; [discriminate|]). exact H.
Defined.

Lemma send_message_keeps_closed (sock : socket) (m : message) :
  closed (snd (send_message sock m)) = closed sock.
Proof.
  unfold send_message, send_message_try.
  destruct (payload_of m) as [payload|e]; [|reflexivity].
  destruct (struct_pack_I (len payload)) as [header|e]; [|reflexivity].
  unfold sendall. destruct (closed sock) eqn:Ec; [exact Ec|].
  destruct (send_fault sock); [exact Ec|reflexivity].
Qed.

Lemma send_message_closed (sock : socket) (m : message) :
  closed sock = true -> send_message sock m = (false, sock).
Proof.
  intros Hc. unfold send_message, send_message_try.
  destruct (payload_of m) as [payload|e]; [|reflexivity].
  destruct (struct_pack_I (len payload)) as [header|e]; [|reflexivity].
  unfold sendall. rewrite Hc. reflexivity.
Qed.

Lemma closed_with_socket (w : world) (fd fd' : nat) (s : socket) :
  closed s = closed (sockets w fd) ->
  closed (sockets (with_socket w fd s) fd') = closed (sockets w fd').
Proof.
  intros E. unfold with_socket, upd. cbn [sockets].
  destruct (Nat.eqb_spec fd' fd) as [->|_]; [exact E|reflexivity].
Qed.

Lemma closed_send_to (w : world) (fd fd' : nat) (text : str) :
  closed (sockets (snd (send_to w fd text)) fd') = closed (sockets w fd').
Proof.
  unfold send_to.
  pose proof (send_message_keeps_closed (sockets w fd) (MStr text)) as E.
  destruct (send_message (sockets w fd) (MStr text)) as [ok s'].
  cbn [snd] in *. apply closed_with_socket. exact E.
Qed.

Lemma send_command_frame (w : world) (h command : str) :
  clients (snd (send_command_to_client w h command)) = clients w
  /\ tokens (snd (send_command_to_client w h command)) = tokens w
  /\ forall fd,
       closed (sockets (snd (send_command_to_client w h command)) fd)
       = closed (sockets w fd).
Proof.
  unfold send_command_to_client.
  destruct (dict.get (clients w) h) as [info|];
    [|repeat split; reflexivity].
  cbv zeta.
  pose proof (clients_send_to w (socket_fd info)
                (MSG_CMD ++ lit ":" ++ command)) as Ec.
  pose proof (tokens_send_to w (socket_fd info)
                (MSG_CMD ++ lit ":" ++ command)) as Et.
  pose proof (fun fd => closed_send_to w (socket_fd info) fd
                          (MSG_CMD ++ lit ":" ++ command)) as Eo.
  destruct (send_to w (socket_fd info) (MSG_CMD ++ lit ":" ++ command))
    as [[|] w1]; cbn [snd] in Ec, Et, Eo;
    [|repeat split; try assumption; cbn [snd]; apply Eo].
  destruct (recv_message_keeps (sockets w1 (socket_fd info)))
    as (_ & _ & Hk).
  assert (Hall : let w2 := with_socket w1 (socket_fd info)
                             (snd (recv_message
                                     (sockets w1 (socket_fd info)))) in
                 clients w2 = clients w /\ tokens w2 = tokens w
                 /\ forall fd,
                      closed (sockets w2 fd) = closed (sockets w fd)).
  { cbv zeta. split; [exact Ec|]. split; [exact Et|].
    intros fd. rewrite closed_with_socket by exact Hk. apply Eo. }
  cbv zeta in Hall.
  destruct (recv_message (sockets w1 (socket_fd info)))
    as [[[response|]|e] s']; cbn [snd] in Hall.
  - destruct (negb (startswith response MSG_RESULT)); [exact Hall|].
    destruct (split response (lit ":") (Some 1%nat)) as [|p0 [|p1 l]];
      [exact Hall | exact Hall |].
    destruct (split p1 (lit "|||") None) as [|a [|b l']]; exact Hall.
  - exact Hall.
  - destruct e; exact Hall.
Qed.

(** X25.  The dispatcher never changes the registry or the token
    table and never closes a socket, whatever happens.  An unknown
    hostname is refused with the world untouched; a socket that is
    closed or broken gives [Failed to send command], and an endpoint
    that has hung up gives [No response from client]: in both cases
    the endpoint is still registered afterwards. *)
Theorem send_command_never_unregisters (w : world) (h command : str) :
  (clients (snd (send_command_to_client w h command)) = clients w
   /\ tokens (snd (send_command_to_client w h command)) = tokens w
   /\ forall fd,
        closed (sockets (snd (send_command_to_client w h command)) fd)
        = closed (sockets w fd))
  /\ (dict.get (clients w) h = None ->
      send_command_to_client w h command = ((None, NOT_FOUND), w))
  /\ (forall info,
         dict.get (clients w) h = Some info ->
         closed (sockets w (socket_fd info)) = true
         \/ send_fault (sockets w (socket_fd info)) <> None ->
         fst (send_command_to_client w h command)
         = (None, lit "Failed to send command"))
  /\ (forall info request,
         dict.get (clients w) h = Some info ->
         closed (sockets w (socket_fd info)) = false ->
         send_fault (sockets w (socket_fd info)) = None ->
         utf8_encode (MSG_CMD ++ lit ":" ++ command) = Ret request ->
         len request < 2 ^ 32 ->
         inbound (sockets w (socket_fd info)) = [] ->
         fst (send_command_to_client w h command)
         = (None, lit "No response from client (may be disconnected)")).
Proof.
  split; [apply send_command_frame|]. split; [|split].
  - intros Hg. unfold send_command_to_client. rewrite Hg. reflexivity.
  - intros info Hg Hbad. unfold send_command_to_client. rewrite Hg.
    cbv zeta. unfold send_to.
    destruct Hbad as [Hc|Hf].
    + rewrite send_message_closed by exact Hc. reflexivity.
    + destruct (send_fault (sockets w (socket_fd info))) as [msg|] eqn:Ef;
        [|congruence].
      rewrite (send_message_faulty _ _ msg Ef). reflexivity.
  - intros info request Hg Hc Hf Hreq Hlen Hin.
    unfold send_command_to_client. rewrite Hg. cbv zeta.
    rewrite (send_to_healthy w (socket_fd info) _ request Hreq Hlen Hc Hf).
    rewrite sockets_with_socket, Hin. reflexivity.
Qed.

(** ** The endpoint's command loop *)

Section ClientLoop.

Variable execute_command : str -> str * str.
Variable os_remove_ok : bool.
Variables (sock : socket) (token_file : option str).
Variables (segs : list bytes) (payload extra : bytes).

Hypothesis Hopen : closed sock = false.
Hypothesis Hin : inbound sock = map Seg segs.
Hypothesis Hsegs : Forall nonempty segs.
Hypothesis Hmax : len payload <= MAX_MESSAGE_SIZE.
Hypothesis Hcat : List.concat segs = frame payload ++ extra.

(** X26.  The endpoint answers a command frame with exactly one result
    frame and goes on.  The command is everything after the first
    colon, so a command that contains colons is run whole; the token
    file is not touched, and what follows the frame on the stream is
    still there to be read. *)
Theorem main_loop_step_answers (command : str) (reply : bytes) :
  utf8_encode (MSG_CMD ++ lit ":" ++ command) = Ret payload ->
  send_fault sock = None ->
  utf8_encode (result_message (fst (execute_command command))
                 (snd (execute_command command))) = Ret reply ->
  len reply < 2 ^ 32 ->
  exists sock' segs',
    main_loop_step execute_command os_remove_ok sock token_file
    = (true, sock', token_file)
    /\ outbound sock' = outbound sock ++ frame reply
    /\ inbound sock' = map Seg segs' /\ List.concat segs' = extra.
Proof.
  intros Hcmd Hsend Hrep Hlen.
  assert (Hpos : 0 < len payload).
  { apply (encoded_nonempty _ _ Hcmd). discriminate. }
  destruct (recv_message_frame sock segs payload extra Hopen Hin Hsegs
              (conj Hpos Hmax) Hcat) as (segs' & Er & Hrest).
  unfold main_loop_step. rewrite Er, (utf8_decode_encode _ _ Hcmd).
  change (startswith (MSG_CMD ++ lit ":" ++ command) MSG_TOKEN_STATUS)
    with false.
  cbv iota. rewrite startswith_app, (split_tag _ _ cmd_no_colon).
  destruct (execute_command command) as [stdout stderr].
  cbn [fst snd] in Hrep.
  rewrite (send_message_sent
             (mkSocket (map Seg segs') (outbound sock) (send_fault sock)
                false)
             (MStr (result_message stdout stderr)) reply
             Hrep Hlen eq_refl Hsend).
  eexists. exists segs'. cbn [inbound outbound].
  repeat split. exact Hrest.
Qed.

(** X27.  A status notice ends the loop when it says [revoked] or
    [deleted], and only [deleted] removes the token file (when the
    removal fails the file stays); after [revoked] the file is kept,
    so that the access can be renewed.  Any other status is ignored
    and the loop goes on.  Nothing is written to the socket. *)
Theorem main_loop_step_status (st : str) :
  utf8_encode (status_message st) = Ret payload ->
  outbound (snd (fst (main_loop_step execute_command os_remove_ok sock
                        token_file)))
  = outbound sock
  /\ (st = TOKEN_REVOKED ->
      fst (fst (main_loop_step execute_command os_remove_ok sock
                  token_file)) = false
      /\ snd (main_loop_step execute_command os_remove_ok sock token_file)
         = token_file)
  /\ (st = lit "deleted" ->
      fst (fst (main_loop_step execute_command os_remove_ok sock
                  token_file)) = false
      /\ snd (main_loop_step execute_command os_remove_ok sock token_file)
         = if os_remove_ok then None else token_file)
  /\ (st <> TOKEN_REVOKED -> st <> lit "deleted" ->
      fst (fst (main_loop_step execute_command os_remove_ok sock
                  token_file)) = true
      /\ snd (main_loop_step execute_command os_remove_ok sock token_file)
         = token_file).
Proof.
  intros Hst.
  assert (Hpos : 0 < len payload).
  { apply (encoded_nonempty _ _ Hst). discriminate. }
  destruct (recv_message_frame sock segs payload extra Hopen Hin Hsegs
              (conj Hpos Hmax) Hcat) as (segs' & Er & Hrest).
  unfold main_loop_step. rewrite Er, (utf8_decode_encode _ _ Hst).
  unfold status_message. rewrite startswith_app.
  rewrite (split_tag _ _ status_no_colon).
  split; [|split; [|split]].
  - destruct (str_eqb st TOKEN_REVOKED); [reflexivity|].
    destruct (str_eqb st (lit "deleted")); reflexivity.
  - intros ->. rewrite str_eqb_refl. split; reflexivity.
  - intros ->. split; reflexivity.
  - intros H1 H2. apply str_eqb_neq in H1, H2. rewrite H1, H2.
    split; reflexivity.
Qed.

End ClientLoop.

Lemma main_loop_step_answers_witness :
  exists sock' segs',
    main_loop_step Scenario2.echo true
      (fresh_socket [frame (bytes_of (MSG_CMD ++ lit ":" ++ lit "id"))])
      (Some Scenario.tokA)
    = (true, sock', Some Scenario.tokA)
    /\ outbound sock'
       = outbound
           (fresh_socket [frame (bytes_of (MSG_CMD ++ lit ":" ++ lit "id"))])
           ++ frame (bytes_of (result_message (lit "id") []))
    /\ inbound sock' = map Seg segs' /\ List.concat segs' = [].
Proof.
  refine (main_loop_step_answers Scenario2.echo true
            (fresh_socket [frame (bytes_of (MSG_CMD ++ lit ":" ++ lit "id"))])
            (Some Scenario.tokA)
            [frame (bytes_of (MSG_CMD ++ lit ":" ++ lit "id"))]
            (bytes_of (MSG_CMD ++ lit ":" ++ lit "id")) []
            eq_refl eq_refl _ _ eq_refl
            (lit "id") (bytes_of (result_message (lit "id") []))
            eq_refl eq_refl eq_refl _).
  - repeat constructor. discriminate.
  - vm_compute. discriminate.
  - vm_compute. reflexivity.
Defined.

Lemma main_loop_step_status_witness :
  fst (fst (main_loop_step Scenario2.echo true
              (fresh_socket
                 [frame (bytes_of (status_message TOKEN_REVOKED))])
              (Some Scenario.tokA))) = false
  /\ snd (main_loop_step Scenario2.echo true
            (fresh_socket [frame (bytes_of (status_message TOKEN_REVOKED))])
            (Some Scenario.tokA))
     = Some Scenario.tokA.
Proof.
  refine (proj1 (proj2 (main_loop_step_status Scenario2.echo true
            (fresh_socket [frame (bytes_of (status_message TOKEN_REVOKED))])
            (Some Scenario.tokA)
            [frame (bytes_of (status_message TOKEN_REVOKED))]
            (bytes_of (status_message TOKEN_REVOKED)) []
            eq_refl eq_refl _ _ eq_refl TOKEN_REVOKED eq_refl)) eq_refl).
  - repeat constructor. discriminate.
  - vm_compute. discriminate.
Defined.

(** ** The server address *)

Lemma existsb_colon (s : str) :
  existsb (fun c => c =? 58) s = true <-> In 58 s.
Proof.
  rewrite existsb_exists. split.
  - intros (c & Hc & E). apply Z.eqb_eq in E. subst c. exact Hc.
  - intros H. exists 58. split; [exact H|reflexivity].
Qed.

Lemma break_colon_app (a b : str) :
  ~ In 58 a -> break_colon (a ++ 58 :: b) = Some (a, b).
Proof.
  induction a as [|c a IH]; intros Ha; cbn [app break_colon].
  - reflexivity.
  - destruct (Z.eqb_spec c 58) as [E|_].
    + exfalso. apply Ha. left. exact E.
    + rewrite IH; [reflexivity|]. intros H. apply Ha. right. exact H.
Qed.

Lemma rsplit_colon_last (ip p : str) :
  ~ In 58 p -> rsplit_colon (ip ++ lit ":" ++ p) = [ip; p].
Proof.
  intros Hp. unfold rsplit_colon. rewrite lit_colon. cbn [app].
  rewrite rev_app_distr. cbn [rev]. rewrite <- app_assoc. cbn [app].
  rewrite break_colon_app by (rewrite <- in_rev; exact Hp).
  rewrite !rev_involutive. reflexivity.
Qed.

(** X28.  [parse_address] cuts at the last colon, so that the host part
    may itself contain colons, and returns a port only when it is
    between 1 and 65535; a port out of range or not a number gives
    [(None, None)].  Without a colon the whole text is the host and
    the port is 4444. *)
Theorem parse_address_port (address : str) :
  (forall ip port,
      parse_address address = (Some ip, Some port) -> 1 <= port <= 65535)
  /\ (~ In 58 address -> parse_address address = (Some address, Some 4444))
  /\ (forall ip p port,
         address = ip ++ lit ":" ++ p -> ~ In 58 p ->
         Builtins.int p = Ret port ->
         parse_address address
         = if (1 <=? port) && (port <=? 65535)
           then (Some ip, Some port) else (None, None))
  /\ (forall ip p e,
         address = ip ++ lit ":" ++ p -> ~ In 58 p ->
         Builtins.int p = Raise e ->
         parse_address address = (None, None)).
Proof.
  assert (Hcolon : forall ip p,
             existsb (fun c => c =? 58) (ip ++ lit ":" ++ p) = true).
  { intros ip p. apply existsb_colon. apply in_or_app. right.
    rewrite lit_colon. left. reflexivity. }
  split; [|split; [|split]].
  - intros ip port. unfold parse_address.
    destruct (existsb (fun c => c =? 58) address).
    + destruct (rsplit_colon address) as [|a [|b l]]; try discriminate.
      destruct (Builtins.int b) as [n|e]; [|discriminate].
      destruct ((1 <=? n) && (n <=? 65535)) eqn:En; [|discriminate].
      intros E. injection E as _ <-.
      apply andb_true_iff in En. lia.
    + intros E. injection E as _ <-. lia.
  - intros Hn. unfold parse_address.
    destruct (existsb (fun c => c =? 58) address) eqn:E; [|reflexivity].
    apply existsb_colon in E. contradiction.
  - intros ip p port -> Hp Hi. unfold parse_address.
    rewrite Hcolon, rsplit_colon_last by exact Hp. rewrite Hi. reflexivity.
  - intros ip p e -> Hp Hi. unfold parse_address.
    rewrite Hcolon, rsplit_colon_last by exact Hp. rewrite Hi. reflexivity.
Qed.

(** A port written in Arabic-Indic digits is read like any other. *)
Lemma parse_address_port_witness :
  parse_address [104; 58; 1640; 1632] = (Some [104], Some 80).
Proof.
  apply (proj1 (proj2 (proj2 (parse_address_port [104; 58; 1640; 1632])))
           [104] [1640; 1632] 80).
  - reflexivity.
  - intros [H|[H|[]]]; discriminate.
  - reflexivity.
Defined.
